(** * The trading dashboard's client-side store, embedded in Rocq

    The development follows the dashboard script with the history and
    trader-ledger tabs (globals [priceChart], [agentPerformance],
    [actionCounts], [isPaused], [simulationHistory], [traderHistory] and the
    handlers registered on the socket and on the buttons).

    Conventions of the embedding:
    - a payload received from the socket is an untyped JavaScript value
      ([value]); reading a property of [undefined] or [null], and calling
      something that is not a function, raise [TypeError];
    - a handler is a function from the store to the store and an outcome;
      when it raises, the mutations made before the raise stay;
    - a JavaScript number is an exact rational or one of the three special
      values; rounding of finite results and the sign of zero are not
      represented: where the script rounds the result of each operation
      to a double, the text shown for a computed number can differ from
      the one computed here in its last digit;
    - a string is a sequence of code units below 256;
    - writes to the page (text, styles, markup) are left out, but every
      conversion they perform that can raise is kept in place; the elements
      of the page that the script looks up are taken to exist.  The start
      button is disabled while a run goes on: the store does not hold that
      flag, and [deliverable] tells which sequences of events a page can
      receive.  The buttons and panels of the trader tab and the texts of the portfolio
      statistics are represented apart, for the properties that are about
      them. *)

From Stdlib Require Import List String Ascii ZArith QArith Qround Lia Bool Arith.
From Stdlib Require Qcanon.
From Stdlib Require Import DecimalString.
From Stdlib Require DecimalFacts DecimalPos DecimalN.
Import ListNotations.

Local Close Scope Q_scope.
Local Open Scope string_scope.
Local Open Scope list_scope.

(** String concatenation, written apart from list append. *)
Infix "+++" := String.append (at level 60, right associativity).

(** ** Numbers *)

Inductive number : Type :=
| Fin (q : Q)
| PosInf
| NegInf
| NaN.

Definition num_of_Z (z : Z) : number := Fin (inject_Z z).

Definition Qsign (q : Q) : comparison := (Qnum q ?= 0)%Z.

(** [x - y] *)
Definition numSub (x y : number) : number :=
  match x, y with
  | NaN, _ | _, NaN => NaN
  | Fin a, Fin b => Fin (Qred (a - b)%Q)
  | PosInf, PosInf | NegInf, NegInf => NaN
  | PosInf, _ | _, NegInf => PosInf
  | NegInf, _ | _, PosInf => NegInf
  end.

(** [x + y] *)
Definition numAdd (x y : number) : number :=
  match x, y with
  | NaN, _ | _, NaN => NaN
  | Fin a, Fin b => Fin (Qred (a + b)%Q)
  | PosInf, NegInf | NegInf, PosInf => NaN
  | PosInf, _ | _, PosInf => PosInf
  | NegInf, _ | _, NegInf => NegInf
  end.

Definition numNeg (x : number) : number :=
  match x with
  | Fin a => Fin (Qred (- a)%Q)
  | PosInf => NegInf
  | NegInf => PosInf
  | NaN => NaN
  end.

Definition infOfSign (c : comparison) : number :=
  match c with Gt => PosInf | Lt => NegInf | Eq => NaN end.

(** [x * y] *)
Definition numMul (x y : number) : number :=
  match x, y with
  | NaN, _ | _, NaN => NaN
  | Fin a, Fin b => Fin (Qred (a * b)%Q)
  | Fin a, PosInf | PosInf, Fin a => infOfSign (Qsign a)
  | Fin a, NegInf | NegInf, Fin a => infOfSign (CompOpp (Qsign a))
  | PosInf, PosInf | NegInf, NegInf => PosInf
  | PosInf, NegInf | NegInf, PosInf => NegInf
  end.

(** [x / y]: a finite non-zero number over zero is an infinity, zero over
    zero is [NaN]. *)
Definition numDiv (x y : number) : number :=
  match x, y with
  | NaN, _ | _, NaN => NaN
  | Fin a, Fin b =>
      match Qsign b with
      | Eq => infOfSign (Qsign a)
      | _ => Fin (Qred (a / b)%Q)
      end
  | Fin _, _ => Fin 0%Q
  | PosInf, Fin b => match Qsign b with Lt => NegInf | _ => PosInf end
  | NegInf, Fin b => match Qsign b with Lt => PosInf | _ => NegInf end
  | _, _ => NaN
  end.

(** [x > 0] and [x >= 0] *)
Definition numGt0 (x : number) : bool :=
  match x with
  | Fin a => match Qsign a with Gt => true | _ => false end
  | PosInf => true
  | _ => false
  end.

Definition numGe0 (x : number) : bool :=
  match x with
  | Fin a => match Qsign a with Lt => false | _ => true end
  | PosInf => true
  | _ => false
  end.

(** Decimal digits of a non-negative integer. *)
Definition decimal (n : N) : string := NilZero.string_of_uint (N.to_uint n).

Definition twoDigits (n : N) : string :=
  if (n <? 10)%N then "0" +++ decimal n else decimal n.

(** The integer [n] for which [n / 100 - x] is closest to zero, the larger
    one on a tie, for [x >= 0]. *)
Definition cents (x : Q) : N := Z.to_N (Qfloor (x * 100 + (1 # 2))%Q).

Definition Qabs' (q : Q) : Q := (Z.abs (Qnum q) # Qden q)%Q.

Definition tenTo21 : Q := inject_Z (10 ^ 21).

(** A [Number::toString] that is the language's on the integers below
    10^21 in magnitude and on the special values; the samples below use no
    other number. *)
Definition integerToString (n : number) : string :=
  match n with
  | Fin q =>
      match Qnum q with
      | Zneg p => "-" +++ decimal (Npos p)
      | z => decimal (Z.to_N z)
      end
  | PosInf => "Infinity"
  | NegInf => "-Infinity"
  | NaN => "NaN"
  end.

(** ** Strings *)

(** [s.includes(sub)] *)
Fixpoint includes (s sub : string) : bool :=
  String.prefix sub s ||
  match s with
  | EmptyString => false
  | String _ s' => includes s' sub
  end.

Definition isWhiteSpace (c : ascii) : bool :=
  let n := nat_of_ascii c in
  (((9 <=? n) && (n <=? 13)) || (n =? 32) || (n =? 160))%nat.

Fixpoint trimStart (s : string) : string :=
  match s with
  | String c s' => if isWhiteSpace c then trimStart s' else s
  | EmptyString => s
  end.

Definition digitValue (radix : N) (c : ascii) : option N :=
  let n := N_of_ascii c in
  let d :=
    if ((48 <=? n) && (n <=? 57))%N then Some (n - 48)%N
    else if ((97 <=? n) && (n <=? 122))%N then Some (n - 87)%N
    else if ((65 <=? n) && (n <=? 90))%N then Some (n - 55)%N
    else None in
  match d with
  | Some v => if (v <? radix)%N then Some v else None
  | None => None
  end.

(** The value of the longest prefix of [s] made of digits of the radix;
    [acc] is [None] as long as no digit has been read. *)
Fixpoint digitsPrefix (radix : N) (s : string) (acc : option N) : option N :=
  match s with
  | String c s' =>
      match digitValue radix c with
      | Some d =>
          digitsPrefix radix s'
            (Some (match acc with Some a => a * radix + d | None => d end)%N)
      | None => acc
      end
  | EmptyString => acc
  end.

(** [Number.parseInt(s)] with no radix argument. *)
Definition parseInt (s : string) : number :=
  let s1 := trimStart s in
  let '(neg, s2) :=
    match s1 with
    | String "-" r => (true, r)
    | String "+" r => (false, r)
    | _ => (false, s1)
    end in
  let '(radix, s3) :=
    match s2 with
    | String "0" (String "x" r) | String "0" (String "X" r) => (16%N, r)
    | _ => (10%N, s2)
    end in
  match digitsPrefix radix s3 None with
  | None => NaN
  | Some n => num_of_Z (if neg : bool then - Z.of_N n else Z.of_N n)
  end.

(** [x === y] on numbers; [x !== y] is its negation. *)
Definition numStrictEq (x y : number) : bool :=
  match x, y with
  | Fin a, Fin b => Qeq_bool a b
  | PosInf, PosInf | NegInf, NegInf => true
  | _, _ => false
  end.

(** ** Values and exceptions *)

#[warnings="-register-all"]
Inductive value : Type :=
| VUndef
| VNull
| VBool (b : bool)
| VNum (n : number)
| VStr (s : string)
| VArr (l : list value)
| VObj (o : list (string * value)).

Inductive exn : Type := TypeError.

Inductive result (A : Type) : Type :=
| Ok (a : A)
| Throw (e : exn).
Arguments Ok {A} a.
Arguments Throw {A} e.

Definition rbind {A B} (r : result A) (f : A -> result B) : result B :=
  match r with
  | Ok a => f a
  | Throw e => Throw e
  end.

Declare Scope res_scope.
Delimit Scope res_scope with res.
Notation "'let?' x ':=' r 'in' k" := (rbind r (fun x => k))
  (at level 10, x name, r at level 100, k at level 200) : res_scope.
Notation "r ';?' k" := (rbind r (fun _ => k))
  (at level 100, k at level 200, right associativity) : res_scope.

(** Checks run over the elements of an array, in order, stopping at the
    first that raises. *)
Fixpoint forEachR {A} (f : A -> result unit) (l : list A) : result unit :=
  match l with
  | [] => Ok tt
  | x :: r => rbind (f x) (fun _ => forEachR f r)
  end.

(** Dictionaries: own properties, in the order the language enumerates
    them. *)
Definition dict (A : Type) : Type := list (string * A).

Fixpoint assoc {A} (k : string) (o : dict A) : option A :=
  match o with
  | [] => None
  | (k', v) :: r => if String.eqb k k' then Some v else assoc k r
  end.

Definition hasOwn {A} (k : string) (o : dict A) : bool :=
  match assoc k o with Some _ => true | None => false end.

(** [v.k] for a key [k] that no built-in prototype defines (all the keys
    the script reads by name are of this kind). *)
Definition getProp (v : value) (k : string) : result value :=
  match v with
  | VUndef | VNull => Throw TypeError
  | VObj o => Ok (match assoc k o with Some x => x | None => VUndef end)
  | _ => Ok VUndef
  end.

Definition truthy (v : value) : bool :=
  match v with
  | VUndef | VNull => false
  | VBool b => b
  | VNum (Fin q) => negb (Qeq_bool q 0%Q)
  | VNum NaN => false
  | VNum _ => true
  | VStr s => negb (String.eqb s EmptyString)
  | VArr _ | VObj _ => true
  end.

(** [v === s] for a string [s]. *)
Definition isStr (v : value) (s : string) : bool :=
  match v with
  | VStr t => String.eqb t s
  | _ => false
  end.

(** The names every object literal inherits from [Object.prototype]. *)
Definition objectPrototypeKeys : list string :=
  [ "constructor"; "__defineGetter__"; "__defineSetter__"; "hasOwnProperty";
    "__lookupGetter__"; "__lookupSetter__"; "isPrototypeOf";
    "propertyIsEnumerable"; "toString"; "valueOf"; "__proto__";
    "toLocaleString" ].

Definition inherited (k : string) : bool :=
  existsb (String.eqb k) objectPrototypeKeys.

(** What [o[k]] finds on an object created by a literal. *)
Inductive slot (A : Type) : Type :=
| Own (a : A)
| Inherited
| Absent.
Arguments Own {A} a.
Arguments Inherited {A}.
Arguments Absent {A}.

Definition dictGet {A} (k : string) (o : dict A) : slot A :=
  match assoc k o with
  | Some a => Own a
  | None => if inherited k then Inherited else Absent
  end.

(** [k in o] *)
Definition dictIn {A} (k : string) (o : dict A) : bool :=
  hasOwn k o || inherited k.

Fixpoint allDigits (s : string) : bool :=
  match s with
  | EmptyString => true
  | String c r =>
      (let n := N_of_ascii c in (48 <=? n) && (n <=? 57))%N && allDigits r
  end.

(** A key is an array index when it is the canonical decimal form of an
    integer below 2^32 - 1; such keys are enumerated first, in ascending
    order. *)
Definition arrayIndex (k : string) : option N :=
  if allDigits k then
    match digitsPrefix 10 k None with
    | Some n =>
        if String.eqb (decimal n) k && (n <? 4294967295)%N then Some n
        else None
    | None => None
    end
  else None.

Fixpoint insertIndex {A} (i : N) (k : string) (v : A) (o : dict A) : dict A :=
  match o with
  | [] => [(k, v)]
  | (k', v') :: r =>
      match arrayIndex k' with
      | Some j =>
          if (j <? i)%N then (k', v') :: insertIndex i k v r
          else (k, v) :: o
      | None => (k, v) :: o
      end
  end.

Fixpoint replace {A} (k : string) (v : A) (o : dict A) : dict A :=
  match o with
  | [] => []
  | (k', v') :: r =>
      if String.eqb k k' then (k', v) :: r else (k', v') :: replace k v r
  end.

(** [o[k] = v].  Under the key ["__proto__"] the assignment reaches the
    inherited setter and creates no own property. *)
Definition dictSet {A} (k : string) (v : A) (o : dict A) : dict A :=
  if String.eqb k "__proto__" then o
  else if hasOwn k o then replace k v o
  else match arrayIndex k with
       | Some i => insertIndex i k v o
       | None => o ++ [(k, v)]
       end.

(** ** Export

    [exportHistory] and [exportTraderData] hand the history and the ledgers
    to [JSON.stringify(value, null, 2)].  The serialization below follows
    the language specification (SerializeJSONProperty with a gap of two
    spaces), and so does the reading back ([JSON.parse]).  A text is a list
    of code units. *)

Definition text : Type := list ascii.

Definition codeUnit (n : N) : ascii := ascii_of_N n.

Definition doubleQuote : ascii := codeUnit 34.
Definition lineFeed : ascii := codeUnit 10.
Definition space : ascii := codeUnit 32.

Definition hexDigit (n : N) : ascii :=
  if (n <? 10)%N then codeUnit (48 + n) else codeUnit (87 + n).

(** One code unit of a string, as QuoteJSONString writes it. *)
Definition quoteChar (c : ascii) : text :=
  let n := N_of_ascii c in
  if (n =? 34)%N then ["\"%char; doubleQuote]
  else if (n =? 92)%N then ["\"%char; "\"%char]
  else if (n =? 8)%N then ["\"%char; "b"%char]
  else if (n =? 12)%N then ["\"%char; "f"%char]
  else if (n =? 10)%N then ["\"%char; "n"%char]
  else if (n =? 13)%N then ["\"%char; "r"%char]
  else if (n =? 9)%N then ["\"%char; "t"%char]
  else if (n <? 32)%N then
    ["\"%char; "u"%char; "0"%char; "0"%char; hexDigit (n / 16); hexDigit (n mod 16)]
  else [c].

Definition quoteJSONString (s : string) : text :=
  doubleQuote :: flat_map quoteChar (list_ascii_of_string s) ++ [doubleQuote].

(** A line feed followed by the indentation. *)
Definition newline (indent : nat) : text := lineFeed :: repeat space indent.

Fixpoint joinWith (sep : text) (parts : list text) : text :=
  match parts with
  | [] => []
  | [p] => p
  | p :: r => p ++ sep ++ joinWith sep r
  end.

(** The members of an array or of an object between their brackets, one
    per line, indented two spaces more than the brackets. *)
Definition wrapParts (open close : ascii) (indent : nat) (parts : list text)
    : text :=
  match parts with
  | [] => [open; close]
  | _ => open :: newline (indent + 2)
         ++ joinWith (","%char :: newline (indent + 2)) parts
         ++ newline indent ++ [close]
  end.

Definition isDigit (c : ascii) : bool :=
  let n := N_of_ascii c in ((48 <=? n) && (n <=? 57))%N.

(** The characters a number is written with. *)
Definition isNumChar (c : ascii) : bool :=
  isDigit c || Ascii.eqb c "-" || Ascii.eqb c "+" || Ascii.eqb c "."
  || Ascii.eqb c "e" || Ascii.eqb c "E".

Definition isJsonSpace (c : ascii) : bool :=
  let n := N_of_ascii c in ((n =? 9) || (n =? 10) || (n =? 13) || (n =? 32))%N.

Fixpoint skipSpace (t : text) : text :=
  match t with
  | c :: r => if isJsonSpace c then skipSpace r else t
  | [] => []
  end.

(** The longest prefix of number characters, and what follows it. *)
Fixpoint spanNumber (t : text) : text * text :=
  match t with
  | c :: r =>
      if isNumChar c then let '(tok, rest) := spanNumber r in (c :: tok, rest)
      else ([], t)
  | [] => ([], [])
  end.

(** The value and the number of the digits a text starts with, and what
    follows them. *)
Fixpoint readDigits (t : text) (acc : N) (count : nat) : N * nat * text :=
  match t with
  | c :: r =>
      if isDigit c
      then readDigits r (acc * 10 + (N_of_ascii c - 48))%N (S count)
      else (acc, count, t)
  | [] => (acc, count, t)
  end.

Definition tenTo (k : nat) : positive := Pos.pow 10 (Pos.of_nat k).

(** The number a JSON number token denotes: an optional minus, an integer
    part without leading zero, an optional fraction, an optional
    exponent.  It is the exact value of the token; [JSON.parse] gives the
    double nearest to it, which is another number for a token such as
    1.005. *)
Definition decodeNumber (tok : text) : option Q :=
  let '(neg, t1) :=
    match tok with
    | c :: r => if Ascii.eqb c "-" then (true, r) else (false, tok)
    | [] => (false, tok)
    end in
  match t1 with
  | [] => None
  | c :: r =>
      if isDigit c then
        let '(int, _, t2) :=
          if Ascii.eqb c "0" then (0%N, 1, r) else readDigits t1 0 0 in
        let fraction :=
          match t2 with
          | c2 :: r2 =>
              if Ascii.eqb c2 "." then
                let '(f, k, t3) := readDigits r2 0 0 in
                if (k =? 0)%nat then None else Some (f, k, t3)
              else Some (0%N, 0, t2)
          | [] => Some (0%N, 0, t2)
          end in
        match fraction with
        | None => None
        | Some (f, k, t3) =>
            let exponent :=
              match t3 with
              | c3 :: r3 =>
                  if Ascii.eqb c3 "e" || Ascii.eqb c3 "E" then
                    let '(eneg, r4) :=
                      match r3 with
                      | c4 :: r5 =>
                          if Ascii.eqb c4 "-" then (true, r5)
                          else if Ascii.eqb c4 "+" then (false, r5)
                          else (false, r3)
                      | [] => (false, r3)
                      end in
                    let '(e, ke, t5) := readDigits r4 0 0 in
                    if (ke =? 0)%nat then None
                    else Some ((if eneg : bool then - Z.of_N e else Z.of_N e)%Z, t5)
                  else Some (0%Z, t3)
              | [] => Some (0%Z, t3)
              end in
            match exponent with
            | None => None
            | Some (e, t5) =>
                match t5 with
                | [] =>
                    let k' := if (k =? 0)%nat then 1%positive else tenTo k in
                    let mantissa :=
                      (Z.of_N (int * Npos k' + f) # k')%Q in
                    let signed := if neg : bool then (- mantissa)%Q else mantissa in
                    Some (Qred (signed * Qpower (10 # 1) e)%Q)
                | _ => None
                end
            end
        end
      else None
  end.

Definition hexValue (c : ascii) : option N :=
  let n := N_of_ascii c in
  if ((48 <=? n) && (n <=? 57))%N then Some (n - 48)%N
  else if ((97 <=? n) && (n <=? 102))%N then Some (n - 87)%N
  else if ((65 <=? n) && (n <=? 70))%N then Some (n - 55)%N
  else None.

Definition hex4 (a b c d : ascii) : option N :=
  match hexValue a, hexValue b, hexValue c, hexValue d with
  | Some x, Some y, Some z, Some w => Some (((x * 16 + y) * 16 + z) * 16 + w)%N
  | _, _, _, _ => None
  end.

(** The rest of a string after its opening quote.  A [\u] escape of a code
    unit above 255 has no place in the strings of this development and is
    refused. *)
Fixpoint parseStringBody (t : text) (acc : list ascii) : option (string * text) :=
  match t with
  | [] => None
  | c :: r =>
      let n := N_of_ascii c in
      if (n =? 34)%N then Some (string_of_list_ascii acc, r)
      else if (n =? 92)%N then
        match r with
        | e :: r' =>
            let m := N_of_ascii e in
            if ((m =? 34) || (m =? 92) || (m =? 47))%N
            then parseStringBody r' (acc ++ [e])
            else if (m =? 98)%N then parseStringBody r' (acc ++ [codeUnit 8])
            else if (m =? 102)%N then parseStringBody r' (acc ++ [codeUnit 12])
            else if (m =? 110)%N then parseStringBody r' (acc ++ [codeUnit 10])
            else if (m =? 114)%N then parseStringBody r' (acc ++ [codeUnit 13])
            else if (m =? 116)%N then parseStringBody r' (acc ++ [codeUnit 9])
            else if (m =? 117)%N then
              match r' with
              | a :: b :: c' :: d :: r'' =>
                  match hex4 a b c' d with
                  | Some code =>
                      if (code <? 256)%N
                      then parseStringBody r'' (acc ++ [codeUnit code])
                      else None
                  | None => None
                  end
              | _ => None
              end
            else None
        | [] => None
        end
      else if (n <? 32)%N then None
      else parseStringBody r (acc ++ [c])
  end.

(** The entry [k: v] added to an object under construction
    (CreateDataProperty): an entry under the same key is replaced where it
    is, an array index goes to its place among the indices, another key
    goes last. *)
Definition defineOwn {A} (k : string) (v : A) (o : dict A) : dict A :=
  if hasOwn k o then replace k v o
  else match arrayIndex k with
       | Some i => insertIndex i k v o
       | None => o ++ [(k, v)]
       end.

(** An object is listed as the language enumerates it when defining its
    entries one after the other, from none, gives the same list. *)
Definition built {A} (o : dict A) : dict A :=
  fold_left (fun acc kv => defineOwn (fst kv) (snd kv) acc) o [].

Definition startsWith (prefix t : text) : option text :=
  (fix go (p t : text) : option text :=
     match p, t with
     | [], _ => Some t
     | a :: p', b :: t' => if Ascii.eqb a b then go p' t' else None
     | _ :: _, [] => None
     end) prefix t.

Definition literal (s : string) : text := list_ascii_of_string s.

(** The elements of an array after its opening bracket; [pv] reads one
    value. *)
Fixpoint parseElements (pv : text -> option (value * text)) (n : nat)
    (t : text) (acc : list value) : option (value * text) :=
  match n with
  | O => None
  | S n' =>
      match pv t with
      | Some (v, rest) =>
          match skipSpace rest with
          | c :: r =>
              if Ascii.eqb c "," then parseElements pv n' r (acc ++ [v])
              else if Ascii.eqb c "]" then Some (VArr (acc ++ [v]), r)
              else None
          | [] => None
          end
      | None => None
      end
  end.

(** The members of an object after its opening brace. *)
Fixpoint parseMembers (pv : text -> option (value * text)) (n : nat)
    (t : text) (acc : dict value) : option (value * text) :=
  match n with
  | O => None
  | S n' =>
      match skipSpace t with
      | q :: t1 =>
          if Ascii.eqb q doubleQuote then
            match parseStringBody t1 [] with
            | Some (k, t2) =>
                match skipSpace t2 with
                | colon :: t3 =>
                    if Ascii.eqb colon ":" then
                      match pv t3 with
                      | Some (v, rest) =>
                          match skipSpace rest with
                          | c :: r =>
                              if Ascii.eqb c ","
                              then parseMembers pv n' r (defineOwn k v acc)
                              else if Ascii.eqb c "}"
                              then Some (VObj (defineOwn k v acc), r)
                              else None
                          | [] => None
                          end
                      | None => None
                      end
                    else None
                | [] => None
                end
            | None => None
            end
          else None
      | [] => None
      end
  end.

(** What a text that starts with the character [c] denotes when [c] opens
    neither a string, nor an array, nor an object. *)
Definition parseScalar (t : text) : option (value * text) :=
  match t with
  | [] => None
  | c :: _ =>
      if isNumChar c then
        let '(tok, rest) := spanNumber t in
        match decodeNumber tok with
        | Some q => Some (VNum (Fin q), rest)
        | None => None
        end
      else
        match startsWith (literal "null") t with
        | Some rest => Some (VNull, rest)
        | None =>
            match startsWith (literal "true") t with
            | Some rest => Some (VBool true, rest)
            | None =>
                match startsWith (literal "false") t with
                | Some rest => Some (VBool false, rest)
                | None => None
                end
            end
        end
  end.

(** [JSON.parse]: a value at the head of a text, and what follows it.  The
    fuel bounds the nesting and the number of members. *)
Fixpoint parseValue (fuel : nat) (t : text) : option (value * text) :=
  match fuel with
  | O => None
  | S f =>
      match skipSpace t with
      | [] => None
      | c :: r =>
          if Ascii.eqb c doubleQuote then
            match parseStringBody r [] with
            | Some (s, rest) => Some (VStr s, rest)
            | None => None
            end
          else if Ascii.eqb c "[" then
            match skipSpace r with
            | c' :: r' =>
                if Ascii.eqb c' "]" then Some (VArr [], r')
                else parseElements (parseValue f) f r []
            | [] => None
            end
          else if Ascii.eqb c "{" then
            match skipSpace r with
            | c' :: r' =>
                if Ascii.eqb c' "}" then Some (VObj [], r')
                else parseMembers (parseValue f) f r []
            | [] => None
            end
          else parseScalar (c :: r)
      end
  end.

(** [JSON.parse(s)]; [None] stands for a syntax error. *)
Definition jsonParse (s : string) : option value :=
  let t := list_ascii_of_string s in
  match parseValue (S (List.length t)) t with
  | Some (v, rest) =>
      match skipSpace rest with
      | [] => Some v
      | _ => None
      end
  | None => None
  end.

Section Platform.

Local Open Scope res_scope.

(** [Number::toString] of the language: the shortest decimal that reads back
    as the same double.  It is left to the platform. *)
Variable numToString : number -> string.

(** [x.toFixed(2)] *)
Definition toFixed2 (x : number) : string :=
  match x with
  | Fin q =>
      if Qle_bool tenTo21 (Qabs' q) then numToString x
      else
        let n := cents (Qabs' q) in
        let body := decimal (n / 100) +++ "." +++ twoDigits (n mod 100) in
        match Qsign q with Lt => "-" +++ body | _ => body end
  | PosInf => "Infinity"
  | NegInf => "-Infinity"
  | NaN => "NaN"
  end.

(** The sign test [s >= 0] on a string [s] produced by [toFixed(2)]: the
    string is read back as a number, so a negative value that rounds to
    ["-0.00"] passes the test. *)
Definition fixedGe0 (x : number) : bool :=
  match x with
  | Fin q => match Qsign q with
             | Lt => (cents (Qabs' q) =? 0)%N
             | _ => true
             end
  | PosInf => true
  | _ => false
  end.

(** The conversion to a string done by a template literal, by a property
    key and by arithmetic.  An object with an own [toString] entry (never a
    function in a decoded payload) cannot be converted. *)
Fixpoint toString (v : value) : result string :=
  match v with
  | VUndef => Ok "undefined"
  | VNull => Ok "null"
  | VBool true => Ok "true"
  | VBool false => Ok "false"
  | VNum n => Ok (numToString n)
  | VStr s => Ok s
  | VArr l =>
      (fix join (l : list value) : result string :=
         match l with
         | [] => Ok EmptyString
         | x :: r =>
             let? s := match x with
                       | VUndef | VNull => Ok EmptyString
                       | _ => toString x
                       end in
             match r with
             | [] => Ok s
             | _ => let? t := join r in Ok (s +++ "," +++ t)
             end
         end) l
  | VObj o => if hasOwn "toString" o then Throw TypeError
              else Ok "[object Object]"
  end.

(** A conversion whose text goes to the page only. *)
Definition shown (v : value) : result unit :=
  let? _ := toString v in Ok tt.

(** [v.toUpperCase()], [v.charAt(0)]: defined on strings only. *)
Definition stringMethod (v : value) : result unit :=
  match v with
  | VStr _ => Ok tt
  | _ => Throw TypeError
  end.

(** [v.toFixed(2)]: defined on numbers only. *)
Definition toFixed (v : value) : result string :=
  match v with
  | VNum n => Ok (toFixed2 n)
  | _ => Throw TypeError
  end.

(** [v.forEach(...)], [v.map(...)]: the elements when [v] is an array. *)
Definition elements (v : value) : result (list value) :=
  match v with
  | VArr l => Ok l
  | _ => Throw TypeError
  end.

(** [v.includes(sub)] on a string or on an array. *)
Definition valueIncludes (v : value) (sub : string) : result bool :=
  match v with
  | VStr s => Ok (includes s sub)
  | VArr l => Ok (existsb (fun x => isStr x sub) l)
  | _ => Throw TypeError
  end.

(** ** The store *)

(** The module-level variables of the script.  A chart handle is [None]
    until [initCharts] has run; of a chart only the series the script
    writes are kept.  [outbox] records the commands sent to the server. *)
Record State : Type := mkState {
  priceChart : option (list string * list value);
  comparisonChart : option (list string * list value);
  actionsChart : option (list (option number));
  performanceChart : option (list string);
  agentPerformance : dict value;
  actionCounts : dict number;
  isPaused : bool;
  simulationHistory : value;
  traderHistory : dict (list value);
  outbox : list string
}.

Definition zeroCounts : dict number :=
  [("buy", num_of_Z 0); ("sell", num_of_Z 0); ("hold", num_of_Z 0)].

(** The store when the script has been loaded. *)
Definition loaded : State :=
  {| priceChart := None; comparisonChart := None; actionsChart := None;
     performanceChart := None; agentPerformance := [];
     actionCounts := zeroCounts; isPaused := false;
     simulationHistory := VArr []; traderHistory := []; outbox := [] |}.

Definition setPriceChart (c : option (list string * list value)) (s : State) :=
  mkState c (comparisonChart s) (actionsChart s) (performanceChart s)
    (agentPerformance s) (actionCounts s) (isPaused s) (simulationHistory s)
    (traderHistory s) (outbox s).

Definition setComparisonChart (c : option (list string * list value))
    (s : State) :=
  mkState (priceChart s) c (actionsChart s) (performanceChart s)
    (agentPerformance s) (actionCounts s) (isPaused s) (simulationHistory s)
    (traderHistory s) (outbox s).

Definition setActionsChart (c : option (list (option number))) (s : State) :=
  mkState (priceChart s) (comparisonChart s) c (performanceChart s)
    (agentPerformance s) (actionCounts s) (isPaused s) (simulationHistory s)
    (traderHistory s) (outbox s).

Definition setPerformanceChart (c : option (list string)) (s : State) :=
  mkState (priceChart s) (comparisonChart s) (actionsChart s) c
    (agentPerformance s) (actionCounts s) (isPaused s) (simulationHistory s)
    (traderHistory s) (outbox s).

Definition setAgentPerformance (a : dict value) (s : State) :=
  mkState (priceChart s) (comparisonChart s) (actionsChart s)
    (performanceChart s) a (actionCounts s) (isPaused s)
    (simulationHistory s) (traderHistory s) (outbox s).

Definition setActionCounts (a : dict number) (s : State) :=
  mkState (priceChart s) (comparisonChart s) (actionsChart s)
    (performanceChart s) (agentPerformance s) a (isPaused s)
    (simulationHistory s) (traderHistory s) (outbox s).

Definition setIsPaused (b : bool) (s : State) :=
  mkState (priceChart s) (comparisonChart s) (actionsChart s)
    (performanceChart s) (agentPerformance s) (actionCounts s) b
    (simulationHistory s) (traderHistory s) (outbox s).

Definition setSimulationHistory (h : value) (s : State) :=
  mkState (priceChart s) (comparisonChart s) (actionsChart s)
    (performanceChart s) (agentPerformance s) (actionCounts s) (isPaused s)
    h (traderHistory s) (outbox s).

Definition setTraderHistory (t : dict (list value)) (s : State) :=
  mkState (priceChart s) (comparisonChart s) (actionsChart s)
    (performanceChart s) (agentPerformance s) (actionCounts s) (isPaused s)
    (simulationHistory s) t (outbox s).

Definition setOutbox (o : list string) (s : State) :=
  mkState (priceChart s) (comparisonChart s) (actionsChart s)
    (performanceChart s) (agentPerformance s) (actionCounts s) (isPaused s)
    (simulationHistory s) (traderHistory s) o.

(** A computation on the store that may raise; the store it leaves behind
    is returned in both cases. *)
Definition M (A : Type) : Type := State -> State * result A.

Definition ret {A} (a : A) : M A := fun s => (s, Ok a).

Definition bind {A B} (m : M A) (f : A -> M B) : M B :=
  fun s =>
    match m s with
    | (s', Ok a) => f a s'
    | (s', Throw e) => (s', Throw e)
    end.

Definition lift {A} (r : result A) : M A := fun s => (s, r).

Definition modify (f : State -> State) : M unit := fun s => (f s, Ok tt).

(** A computation that reads the store and may raise. *)
Definition observe {A} (f : State -> result A) : M A := fun s => (s, f s).

Declare Scope store_scope.
Delimit Scope store_scope with store.
Notation "x <- m ;; k" := (bind m (fun x => k))
  (at level 61, m at next level, right associativity) : store_scope.
Notation "m ;; k" := (bind m (fun _ => k))
  (at level 61, right associativity) : store_scope.

Fixpoint forEachM {A} (f : A -> M unit) (l : list A) : M unit :=
  match l with
  | [] => ret tt
  | x :: r => bind (f x) (fun _ => forEachM f r)
  end.

Local Open Scope store_scope.

(** *** Charts *)

Definition initCharts : M unit :=
  modify (fun s =>
    setPerformanceChart (Some [])
      (setActionsChart (Some [Some (num_of_Z 0); Some (num_of_Z 0);
                              Some (num_of_Z 0)])
         (setComparisonChart (Some ([], []))
            (setPriceChart (Some ([], [])) s)))).

(** Keeps the last 30 points: one point is pushed, and the oldest one is
    shifted out when that makes more than 30. *)
Definition updatePriceChart (price step : value) : M unit :=
  fun s =>
    match priceChart s with
    | None => (s, Ok tt)
    | Some (labels, points) =>
        if isPaused s then (s, Ok tt)
        else
          match toString step with
          | Throw e => (s, Throw e)
          | Ok t =>
              let labels' := labels ++ ["Step " +++ t] in
              let points' := points ++ [price] in
              if (30 <? List.length labels')%nat
              then (setPriceChart (Some (tl labels', tl points')) s, Ok tt)
              else (setPriceChart (Some (labels', points')) s, Ok tt)
          end
    end.

Definition updateComparisonChart : M unit :=
  fun s =>
    match comparisonChart s with
    | None => (s, Ok tt)
    | Some _ =>
        (setComparisonChart
           (Some (map fst (agentPerformance s), map snd (agentPerformance s)))
           s, Ok tt)
    end.

Definition updateActionsChart : M unit :=
  fun s =>
    match actionsChart s with
    | None => (s, Ok tt)
    | Some _ =>
        (setActionsChart
           (Some [assoc "buy" (actionCounts s); assoc "sell" (actionCounts s);
                  assoc "hold" (actionCounts s)]) s, Ok tt)
    end.

(** *** News and sentiment *)

(** The badge text and the two colours chosen from the news; [inc] tells
    whether the news includes a given text. *)
Definition sentimentBy (inc : string -> bool) : string * string * string :=
  if inc "Very positive" || inc "rally" then ("Bullish", "#d1fae5", "#10b981")
  else if inc "positive" || inc "upward" then ("Positive", "#d1fae5", "#10b981")
  else if inc "Very negative" || inc "crash" then ("Bearish", "#fee2e2", "#ef4444")
  else if inc "negative" || inc "declin" then ("Negative", "#fee2e2", "#ef4444")
  else ("neutral", "#e0e7ff", "#667eea").

Definition updateNews (news : value) : result (string * string * string) :=
  (shown news ;?
   match news with
   | VStr s => Ok (sentimentBy (includes s))
   | VArr l => Ok (sentimentBy (fun sub => existsb (fun x => isStr x sub) l))
   | _ => Throw TypeError
   end)%res.

(** *** Agents *)

(** [actionCounts[k]++] *)
Definition increment (k : string) (o : dict number) : dict number :=
  match dictGet k o with
  | Own n => dictSet k (numAdd n (num_of_Z 1)) o
  | Inherited | Absent => dictSet k NaN o
  end.

(** One turn of the loop of [updateAgents]: the markup of the agent's row,
    then the performance entry, then the action count. *)
Definition updateAgent (agent : value) : M unit :=
  name <- lift (getProp agent "name") ;;
  lift (stringMethod name) ;;
  nameKey <- lift (toString name) ;;
  cash <- lift (getProp agent "cash") ;;
  lift (shown cash) ;;
  pos <- lift (getProp agent "pos") ;;
  lift (shown pos) ;;
  action <- lift (getProp agent "action") ;;
  actionKey <- lift (toString action) ;;
  val <- lift (getProp agent "value") ;;
  lift (shown val) ;;
  modify (fun s => setAgentPerformance (dictSet nameKey val (agentPerformance s)) s) ;;
  modify (fun s =>
    if dictIn actionKey (actionCounts s)
    then setActionCounts (increment actionKey (actionCounts s)) s
    else s).

Definition updateAgents (decisions : value) : M unit :=
  agents <- lift (elements decisions) ;;
  forEachM updateAgent agents ;;
  updateComparisonChart ;;
  updateActionsChart.

(** *** The LLM pipeline panel *)

Definition showRisk (risk : value) : result unit :=
  (let? approved := getProp risk "approved" in
   let? name := getProp risk "name" in
   shown name ;?
   let? size := getProp risk "size" in
   shown size ;?
   let? comment := getProp risk "comment" in
   shown comment)%res.

(** The markup of the panel; the value of the fund's portfolio is
    returned. *)
Definition showLLM (llm : value) : result value :=
  (let? bullish := getProp llm "bullish" in
   shown bullish ;?
   let? bearish := getProp llm "bearish" in
   shown bearish ;?
   let? general := getProp llm "general_analysis" in
   (if truthy general then
      let? stance := getProp general "stance" in
      stringMethod stance ;?
      let? text := getProp general "text" in
      shown text
    else Ok tt) ;?
   let? proposal := getProp llm "proposal" in
   let? action := getProp proposal "action" in
   stringMethod action ;?
   let? size := getProp proposal "size" in
   shown size ;?
   let? rationale := getProp proposal "rationale" in
   shown rationale ;?
   let? risks := getProp llm "risk_assessments" in
   let? rs := elements risks in
   forEachR showRisk rs ;?
   let? decision := getProp llm "manager_decision" in
   let? approved := getProp decision "approved" in
   let? final_action := getProp decision "final_action" in
   stringMethod final_action ;?
   let? final_size := getProp decision "final_size" in
   shown final_size ;?
   let? comment := getProp decision "comment" in
   shown comment ;?
   let? portfolio := getProp llm "portfolio" in
   let? val := getProp portfolio "value" in
   shown val ;?
   Ok val)%res.

Definition updateLLMPipeline (llm : value) : M unit :=
  val <- lift (showLLM llm) ;;
  modify (fun s => setAgentPerformance (dictSet "LLM Fund" val (agentPerformance s)) s) ;;
  updateComparisonChart.

(** *** Portfolio statistics *)

(** Called after [updateAgents] and [updateLLMPipeline] on the same
    payload: the decisions are then objects with a string name and fields
    that convert, so sorting them by value and showing the best and the
    worst cannot raise.  What is left is the spread of the decisions, the
    read of the fund's value and the formatting of the price. *)
Definition updatePortfolioStats (decisions llm price : value) : result unit :=
  (let? agents := elements decisions in
   let? portfolio := getProp llm "portfolio" in
   let? val := getProp portfolio "value" in
   let? text := toFixed price in
   Ok tt)%res.

(** *** Trader ledgers *)

(** [if (!traderHistory[k]) traderHistory[k] = []]: an own entry is an
    array and an inherited member is an object, both truthy. *)
Definition ensureLedger (k : string) : M unit :=
  modify (fun s =>
    match dictGet k (traderHistory s) with
    | Own _ | Inherited => s
    | Absent => setTraderHistory (dictSet k [] (traderHistory s)) s
    end).

(** [traderHistory[k].push(record)]: only an own entry has [push]. *)
Definition pushLedger (k : string) (record : value) : M unit :=
  fun s =>
    match dictGet k (traderHistory s) with
    | Own l => (setTraderHistory (dictSet k (l ++ [record]) (traderHistory s)) s, Ok tt)
    | Inherited | Absent => (s, Throw TypeError)
    end.

Definition ledgerRecord (step action cash position val : value) : value :=
  VObj [("step", step); ("action", action); ("cash", cash);
        ("position", position); ("value", val)].

Definition trackTrader (step agent : value) : M unit :=
  name <- lift (getProp agent "name") ;;
  k <- lift (toString name) ;;
  ensureLedger k ;;
  action <- lift (getProp agent "action") ;;
  cash <- lift (getProp agent "cash") ;;
  pos <- lift (getProp agent "pos") ;;
  val <- lift (getProp agent "value") ;;
  pushLedger k (ledgerRecord step action cash pos val).

Definition trackTraderHistory (decisions step llm : value) : M unit :=
  agents <- lift (elements decisions) ;;
  forEachM (trackTrader step) agents ;;
  ensureLedger "LLM Fund" ;;
  decision <- lift (getProp llm "manager_decision") ;;
  action <- lift (getProp decision "final_action") ;;
  portfolio <- lift (getProp llm "portfolio") ;;
  cash <- lift (getProp portfolio "cash") ;;
  pos <- lift (getProp portfolio "pos") ;;
  val <- lift (getProp portfolio "value") ;;
  pushLedger "LLM Fund" (ledgerRecord step action cash pos val).

(** *** The performance chart *)

(** [`Step ${i + 1}`] for the indices of a list. *)
Definition stepLabels {A} (l : list A) : list string :=
  map (fun i => "Step " +++ decimal (N.of_nat (S i))) (seq 0 (List.length l)).

(** The colour of a series is looked up under the trader's name in an
    object literal; an inherited member is found there too, and it has no
    [replace]. *)
Definition seriesColour (name : value) : result unit :=
  (let? k := toString name in
   if inherited k then Throw TypeError else Ok tt)%res.

Definition seriesOfStep (step : value) : result unit :=
  (let? decisions := getProp step "decisions" in
   let? ds := elements decisions in
   forEachR (fun d => let? name := getProp d "name" in seriesColour name) ds ;?
   let? llm := getProp step "llm" in
   let? portfolio := getProp llm "portfolio" in
   let? val := getProp portfolio "value" in
   Ok tt)%res.

(** Redrawn from the whole history.  Of the chart only the labels are
    kept; the series are read from the history and nothing of the store is
    written, so what matters here is whether the redraw raises. *)
Definition updatePerformanceChart : M unit :=
  fun s =>
    match performanceChart s with
    | None => (s, Ok tt)
    | Some _ =>
        match simulationHistory s with
        | VArr [] => (s, Ok tt)
        | VArr l =>
            match forEachR seriesOfStep l with
            | Ok _ => (setPerformanceChart (Some (stepLabels l)) s, Ok tt)
            | Throw e => (s, Throw e)
            end
        | VStr EmptyString => (s, Ok tt)
        | VObj o =>
            match assoc "length" o with
            | Some (VNum n) =>
                if numStrictEq n (num_of_Z 0) then (s, Ok tt)
                else (s, Throw TypeError)
            | _ => (s, Throw TypeError)
            end
        | _ => (s, Throw TypeError)
        end
    end.

(** *** The handlers *)

(** [simulationHistory.push(data)] *)
Definition pushHistory (data : value) : M unit :=
  fun s =>
    match simulationHistory s with
    | VArr l => (setSimulationHistory (VArr (l ++ [data])) s, Ok tt)
    | _ => (s, Throw TypeError)
    end.

(** [socket.on("update", ...)] *)
Definition update (data : value) : M unit :=
  fun s =>
    if isPaused s then (s, Ok tt)
    else
      (step <- lift (getProp data "step") ;;
       total <- lift (getProp data "total_steps") ;;
       lift (shown step) ;;
       lift (shown total) ;;
       pushHistory data ;;
       price <- lift (getProp data "price") ;;
       updatePriceChart price step ;;
       news <- lift (getProp data "news") ;;
       lift (updateNews news) ;;
       decisions <- lift (getProp data "decisions") ;;
       updateAgents decisions ;;
       llm <- lift (getProp data "llm") ;;
       updateLLMPipeline llm ;;
       lift (updatePortfolioStats decisions llm price) ;;
       trackTraderHistory decisions step llm ;;
       updatePerformanceChart) s.

(** The click on the start button: the data is reset, then the command is
    sent.  The handler first disables the button; that write is not part of
    the store (see [deliverable]). *)
Definition startClick : M unit :=
  modify (fun s => setAgentPerformance [] s) ;;
  modify (fun s => setActionCounts zeroCounts s) ;;
  modify (fun s => setSimulationHistory (VArr []) s) ;;
  modify (fun s => setTraderHistory [] s) ;;
  modify (fun s => setOutbox (outbox s ++ ["start_simulation"]) s).

(** The click on the pause button. *)
Definition pauseClick : M unit :=
  modify (fun s => setIsPaused (negb (isPaused s)) s).

(** *** The history tab *)

(** What one rendered step shows. *)
Record stepView : Type := mkStepView {
  title : nat;
  priceText : string;
  newsText : string;
  badges : list (string * string)
}.

Definition viewBadge (agent : value) : result (string * string) :=
  (let? action := getProp agent "action" in
   let? a := toString action in
   let? name := getProp agent "name" in
   let? n := toString name in
   Ok (a, n))%res.

Fixpoint mapR {A B} (f : A -> result B) (l : list A) : result (list B) :=
  match l with
  | [] => Ok []
  | x :: r => rbind (f x) (fun y => rbind (mapR f r) (fun ys => Ok (y :: ys)))
  end.

(** The markup written for the step at position [index] (counted from 0). *)
Definition viewStep (index : nat) (step : value) : result stepView :=
  (let? price := getProp step "price" in
   let? p := toFixed price in
   let? news := getProp step "news" in
   let? n := toString news in
   let? decisions := getProp step "decisions" in
   let? ds := elements decisions in
   let? bs := mapR viewBadge ds in
   Ok (mkStepView (S index) p n bs))%res.

(** One turn of the loop of [renderHistory]: [None] when the step is
    filtered out. *)
Definition renderStep (filter searchTerm : string) (index : nat) (step : value)
    : result (option stepView) :=
  if String.eqb filter "step" &&
     negb (numStrictEq (num_of_Z (Z.of_nat (S index))) (parseInt searchTerm))
  then Ok None
  else
    (let? skip :=
       if String.eqb filter "news" then
         let? news := getProp step "news" in
         let? found := valueIncludes news searchTerm in
         Ok (negb found)
       else Ok false in
     if skip : bool then Ok None
     else let? v := viewStep index step in Ok (Some v))%res.

(** The views appended to the container, and whether the loop raised. *)
Fixpoint renderSteps (filter searchTerm : string) (index : nat)
    (l : list value) : list stepView * result unit :=
  match l with
  | [] => ([], Ok tt)
  | step :: r =>
      match renderStep filter searchTerm index step with
      | Throw e => ([], Throw e)
      | Ok o =>
          let '(vs, res) := renderSteps filter searchTerm (S index) r in
          (match o with Some v => v :: vs | None => vs end, res)
      end
  end.

Definition renderHistory (history : value) (filter searchTerm : string)
    : list stepView * result unit :=
  match history with
  | VArr l => renderSteps filter searchTerm 0 l
  | _ => ([], Throw TypeError)
  end.

(** *** The trader tab *)

Record rowView : Type := mkRowView {
  rowStep : string;
  rowAction : string;
  rowCash : string;
  rowPosition : string;
  rowValue : string;
  rowChange : string;
  rowChangePercent : string
}.

Record traderView : Type := mkTraderView {
  trader : string;
  startValue : string;
  endValue : string;
  totalReturn : string;
  returnClass : string;
  totalTrades : nat;
  rows : list rowView
}.

Definition hundred : number := num_of_Z 100.

(** [((endValue - startValue) / startValue) * 100], computed exactly: the
    script rounds the difference, the quotient and the product to a double
    each, so that a return whose exact value lies at the middle of two
    hundredths can be shown with another last digit than here. *)
Definition returnPercent (startV endV : number) : number :=
  numMul (numDiv (numSub endV startV) startV) hundred.

(** [prevValue > 0 ? ((valueChange / prevValue) * 100).toFixed(2) : "0.00"] *)
Definition changePercentOf (prevValue valueChange : number) : string :=
  if numGt0 prevValue
  then toFixed2 (numMul (numDiv valueChange prevValue) hundred)
  else "0.00".

(** The rows of the table.  [prev] is the value of the record before, which
    the row before has shown with [toFixed] and is therefore a number. *)
Fixpoint ledgerRows (prev : option number) (l : list value)
    : result (list rowView) :=
  match l with
  | [] => Ok []
  | h :: r =>
      (let? val := getProp h "value" in
       match val with
       | VNum v =>
           let prevValue := match prev with Some p => p | None => v end in
           let valueChange := numSub v prevValue in
           let changePercent := changePercentOf prevValue valueChange in
           let? step := getProp h "step" in
           let? st := toString step in
           let? action := getProp h "action" in
           stringMethod action ;?
           let? a := toString action in
           let? cash := getProp h "cash" in
           let? c := toFixed cash in
           let? position := getProp h "position" in
           let? p := toString position in
           let? rest := ledgerRows (Some v) r in
           Ok (mkRowView st a c p (toFixed2 v) (toFixed2 valueChange)
                 changePercent :: rest)
       | _ => Throw TypeError
       end)%res
  end.

Fixpoint countTrades (l : list value) : result nat :=
  match l with
  | [] => Ok 0
  | h :: r =>
      (let? action := getProp h "action" in
       let? n := countTrades r in
       Ok (if isStr action "hold" then n else S n))%res
  end.

(** The summary and the table of one trader.  When the first or the last
    value is not a number, the return computed from them is never shown:
    formatting that value raises. *)
Definition viewTrader (name : string) (history : list value)
    : result traderView :=
  (let? first := match history with
                 | [] => Throw TypeError
                 | h :: _ => Ok h
                 end in
   let? sv := getProp first "value" in
   let? ev := getProp (last history VUndef) "value" in
   match sv, ev with
   | VNum a, VNum b =>
       let total := returnPercent a b in
       let? trades := countTrades history in
       let? rs := ledgerRows None history in
       Ok (mkTraderView name (toFixed2 a) (toFixed2 b) (toFixed2 total)
             (if fixedGe0 total then "positive" else "negative") trades rs)
   | _, _ => Throw TypeError
   end)%res.

Fixpoint renderTraders (l : dict (list value)) : list traderView * result unit :=
  match l with
  | [] => ([], Ok tt)
  | (name, history) :: r =>
      match viewTrader name history with
      | Throw e => ([], Throw e)
      | Ok v => let '(vs, res) := renderTraders r in (v :: vs, res)
      end
  end.

Definition renderTraderHistory (s : State) : list traderView * result unit :=
  renderTraders (traderHistory s).

(** [socket.on("simulation_finished", ...)] *)
Definition simulationFinished (data : value) : M unit :=
  history <- lift (getProp data "history") ;;
  modify (fun s => if truthy history then setSimulationHistory history s else s) ;;
  observe (fun s => snd (renderHistory (simulationHistory s) "all" EmptyString)) ;;
  observe (fun s => snd (renderTraderHistory s)).

(** *** Events *)

Inductive event : Type :=
| DOMContentLoaded
| StartClick
| PauseClick
| PerformanceTabClick
| UpdateEvent (data : value)
| FinishedEvent (data : value).

Definition handle (e : event) : M unit :=
  match e with
  | DOMContentLoaded => initCharts
  | StartClick => startClick
  | PauseClick => pauseClick
  | PerformanceTabClick => updatePerformanceChart
  | UpdateEvent data => update data
  | FinishedEvent data => simulationFinished data
  end.

(** Events are handled one at a time; a handler that raises leaves the
    store as it was at the raise, and the next event is handled from
    there. *)
Fixpoint run (es : list event) (s : State) : State :=
  match es with
  | [] => s
  | e :: r => run r (fst (handle e s))
  end.


(** A payload is accepted by the store [s] when the update handler runs to
    its end on it. *)
Definition accepts (s : State) (data : value) : bool :=
  match snd (update data s) with
  | Ok _ => true
  | Throw _ => false
  end.

(** The store after a sequence of payloads, provided each one is
    accepted. *)
Fixpoint runAccepted (ds : list value) (s : State) : option State :=
  match ds with
  | [] => Some s
  | d :: r =>
      match update d s with
      | (s', Ok _) => runAccepted r s'
      | (_, Throw _) => None
      end
  end.

(** *** The dashboard script without the history tabs

    The older dashboard script has the same chart, news, agent and
    statistics functions; its pipeline panel has no general analysis, its
    update handler keeps no history and no ledger, and its start handler
    resets the two variables it has. *)

Definition basicShowLLM (llm : value) : result value :=
  (let? bullish := getProp llm "bullish" in
   shown bullish ;?
   let? bearish := getProp llm "bearish" in
   shown bearish ;?
   let? proposal := getProp llm "proposal" in
   let? action := getProp proposal "action" in
   stringMethod action ;?
   let? size := getProp proposal "size" in
   shown size ;?
   let? rationale := getProp proposal "rationale" in
   shown rationale ;?
   let? risks := getProp llm "risk_assessments" in
   let? rs := elements risks in
   forEachR showRisk rs ;?
   let? decision := getProp llm "manager_decision" in
   let? approved := getProp decision "approved" in
   let? final_action := getProp decision "final_action" in
   stringMethod final_action ;?
   let? final_size := getProp decision "final_size" in
   shown final_size ;?
   let? comment := getProp decision "comment" in
   shown comment ;?
   let? portfolio := getProp llm "portfolio" in
   let? val := getProp portfolio "value" in
   shown val ;?
   Ok val)%res.

Definition basicUpdateLLMPipeline (llm : value) : M unit :=
  val <- lift (basicShowLLM llm) ;;
  modify (fun s => setAgentPerformance (dictSet "LLM Fund" val (agentPerformance s)) s) ;;
  updateComparisonChart.

Definition basicUpdate (data : value) : M unit :=
  fun s =>
    if isPaused s then (s, Ok tt)
    else
      (step <- lift (getProp data "step") ;;
       total <- lift (getProp data "total_steps") ;;
       lift (shown step) ;;
       lift (shown total) ;;
       price <- lift (getProp data "price") ;;
       updatePriceChart price step ;;
       news <- lift (getProp data "news") ;;
       lift (updateNews news) ;;
       decisions <- lift (getProp data "decisions") ;;
       updateAgents decisions ;;
       llm <- lift (getProp data "llm") ;;
       basicUpdateLLMPipeline llm ;;
       lift (updatePortfolioStats decisions llm price)) s.


(** [JSON.stringify(v, null, 2)] at the given indentation; [None] stands
    for [undefined], which an object leaves out and an array writes as
    [null]. *)
Fixpoint serialize (indent : nat) (v : value) : option text :=
  match v with
  | VUndef => None
  | VNull => Some (literal "null")
  | VBool true => Some (literal "true")
  | VBool false => Some (literal "false")
  | VNum (Fin q) => Some (literal (numToString (Fin q)))
  | VNum _ => Some (literal "null")
  | VStr s => Some (quoteJSONString s)
  | VArr l =>
      Some (wrapParts "[" "]" indent
              (map (fun x => match serialize (indent + 2) x with
                             | Some t => t
                             | None => literal "null"
                             end) l))
  | VObj o =>
      Some (wrapParts "{" "}" indent
              (flat_map (fun kv => match serialize (indent + 2) (snd kv) with
                                   | Some t =>
                                       [quoteJSONString (fst kv)
                                        ++ ":"%char :: space :: t]
                                   | None => []
                                   end) o))
  end.

Definition jsonStringify (v : value) : option string :=
  option_map string_of_list_ascii (serialize 0 v).

(** The text [exportHistory] puts in the file it offers for download; the
    name of the file carries the time of the export and is not
    represented. *)
Definition exportHistory (s : State) : option string :=
  jsonStringify (simulationHistory s).

(** The ledgers as the object they are: one array per name. *)
Definition ledgersValue (t : dict (list value)) : value :=
  VObj (map (fun kv => (fst kv, VArr (snd kv))) t).

Definition exportTraderData (s : State) : option string :=
  jsonStringify (ledgersValue (traderHistory s)).

(** A number is written by the platform as a JSON number that denotes
    it. *)
Definition jsonNumber (q : Q) : Prop :=
  forallb isNumChar (literal (numToString (Fin q))) = true /\
  decodeNumber (literal (numToString (Fin q))) = Some q.

(** The values [JSON.parse] produces: no [undefined], numbers that are
    written as they are read, objects listed as the language enumerates
    them. *)
Fixpoint jsonValue (v : value) : Prop :=
  match v with
  | VUndef => False
  | VNull | VBool _ | VStr _ => True
  | VNum (Fin q) => jsonNumber q
  | VNum _ => False
  | VArr l =>
      (fix all (l : list value) : Prop :=
         match l with
         | [] => True
         | x :: r => jsonValue x /\ all r
         end) l
  | VObj o =>
      built o = o /\
      (fix all (o : dict value) : Prop :=
         match o with
         | [] => True
         | kv :: r => jsonValue (snd kv) /\ all r
         end) o
  end.

(** What [JSON.stringify] writes of a value: a property whose value is
    [undefined] is left out, an element that is [undefined] is written
    [null], and so is a number that is not finite. *)
Definition writtenElement (w : value -> value) (x : value) : value :=
  match x with
  | VUndef => VNull
  | _ => w x
  end.

Definition writtenMember (w : value -> value) (kv : string * value)
    : list (string * value) :=
  match snd kv with
  | VUndef => []
  | _ => [(fst kv, w (snd kv))]
  end.

Fixpoint written (v : value) : value :=
  match v with
  | VNum (Fin q) => VNum (Fin q)
  | VNum _ => VNull
  | VArr l => VArr (map (writtenElement written) l)
  | VObj o => VObj (flat_map (writtenMember written) o)
  | _ => v
  end.

(** ** Vocabulary of the statements *)

(** [v.k], [undefined] where the read would raise. *)
Definition field (v : value) (k : string) : value :=
  match getProp v k with
  | Ok x => x
  | Throw _ => VUndef
  end.

(** The property key a value stands for. *)
Definition keyOf (v : value) : string :=
  match toString v with
  | Ok k => k
  | Throw _ => EmptyString
  end.

Definition decisionsOf (data : value) : list value :=
  match field data "decisions" with
  | VArr l => l
  | _ => []
  end.




(** The ledger kept under a name, empty when there is none. *)
Definition ledgerOf (k : string) (s : State) : list value :=
  match assoc k (traderHistory s) with
  | Some l => l
  | None => []
  end.

Definition named (k : string) (agent : value) : bool :=
  String.eqb (keyOf (field agent "name")) k.



(** The record a decision leaves in its trader's ledger. *)
Definition recordOfDecision (step agent : value) : value :=
  ledgerRecord step (field agent "action") (field agent "cash")
    (field agent "pos") (field agent "value").

(** The record a payload leaves in the ledger of the fund. *)
Definition recordOfFund (data : value) : value :=
  let llm := field data "llm" in
  ledgerRecord (field data "step")
    (field (field llm "manager_decision") "final_action")
    (field (field llm "portfolio") "cash")
    (field (field llm "portfolio") "pos")
    (field (field llm "portfolio") "value").

(** The records a payload adds under the name [k], in order. *)
Definition entriesFor (k : string) (data : value) : list value :=
  map (recordOfDecision (field data "step")) (filter (named k) (decisionsOf data))
  ++ (if String.eqb k "LLM Fund" then [recordOfFund data] else []).

(** The counter kept under [c]. *)
Definition counter (c : string) (s : State) : option number :=
  assoc c (actionCounts s).



(** Every ledger is a non-empty sequence of records. *)
Definition isRecord (v : value) : Prop :=
  exists step action cash position val,
    v = ledgerRecord step action cash position val.

Definition ledgersFilled (s : State) : Prop :=
  Forall (fun kv => snd kv <> [] /\ Forall isRecord (snd kv)) (traderHistory s).

(** *** The sentiment rules as an ordered list *)

Inductive sentiment : Type := Bullish | Positive | Bearish | Negative | Neutral.

(** Each rule: the texts that trigger it, and its category. *)
Definition sentimentRules : list (list string * sentiment) :=
  [ (["Very positive"; "rally"], Bullish);
    (["positive"; "upward"], Positive);
    (["Very negative"; "crash"], Bearish);
    (["negative"; "declin"], Negative) ].

(** The category of the first rule one of whose texts occurs in the news,
    [Neutral] when no rule matches. *)
Definition classify (news : string) : sentiment :=
  match find (fun rule => existsb (includes news) (fst rule)) sentimentRules with
  | Some rule => snd rule
  | None => Neutral
  end.

(** The badge text and the colours of a category. *)
Definition badge (c : sentiment) : string * string * string :=
  match c with
  | Bullish => ("Bullish", "#d1fae5", "#10b981")
  | Positive => ("Positive", "#d1fae5", "#10b981")
  | Bearish => ("Bearish", "#fee2e2", "#ef4444")
  | Negative => ("Negative", "#fee2e2", "#ef4444")
  | Neutral => ("neutral", "#e0e7ff", "#667eea")
  end.

(** *** Vocabulary for the history filter *)

(** The steps of a history with their positions counted from 0. *)
Definition indexed {A} (l : list A) : list (nat * A) :=
  combine (seq 0 (List.length l)) l.

(** The view of a step that renders. *)
Definition viewOf (p : nat * value) : stepView :=
  match viewStep (fst p) (snd p) with
  | Ok v => v
  | Throw _ => mkStepView (S (fst p)) EmptyString EmptyString []
  end.

(** A step of a history that the history tab can render: its news is a
    string and its markup can be written. *)
Definition renderable (step : value) : Prop :=
  (exists news, getProp step "news" = Ok (VStr news)) /\
  (forall index, exists v, viewStep index step = Ok v).




(** A ledger whose records carry the given values, one per step. *)
Definition ledgerOfValues (vs : list Z) : list value :=
  map (fun p => ledgerRecord (VNum (num_of_Z (Z.of_nat (S (fst p)))))
                  (VStr "hold") (VNum (num_of_Z 0)) (VNum (num_of_Z 0))
                  (VNum (num_of_Z (snd p))))
      (indexed vs).

Definition resultMap {A B} (f : A -> B) (r : result A) : result B :=
  match r with
  | Ok a => Ok (f a)
  | Throw e => Throw e
  end.

(** ** Vocabulary of the proofs *)

(** A computation preserves a component of the store when it leaves it as
    it was, whether it raises or not. *)
Definition preserves {A B} (f : State -> B) (m : M A) : Prop :=
  forall s s' r, m s = (s', r) -> f s' = f s.

(** A computation maintains a property of the store when the property
    holds after it, whether it raises or not. *)
Definition maintains {A} (P : State -> Prop) (m : M A) : Prop :=
  forall s s' r, P s -> m s = (s', r) -> P s'.


(** No ledger is kept under ["__proto__"]: an assignment under that key
    creates no entry. *)
Definition plainKeys (s : State) : Prop :=
  assoc "__proto__" (traderHistory s) = None.

(** Neither [undefined] nor [null]. *)
Definition defined (v : value) : Prop :=
  match v with
  | VUndef | VNull => False
  | _ => True
  end.

Definition filled (l : list value) : Prop := l <> [] /\ Forall isRecord l.

(** What is left of the update handler once the payload is in the
    history. *)
Definition afterPush (data : value) : M unit :=
  updatePriceChart (field data "price") (field data "step") ;;
  news <- lift (getProp data "news") ;;
  lift (updateNews news) ;;
  decisions <- lift (getProp data "decisions") ;;
  updateAgents decisions ;;
  llm <- lift (getProp data "llm") ;;
  updateLLMPipeline llm ;;
  lift (updatePortfolioStats decisions llm (field data "price")) ;;
  trackTraderHistory decisions (field data "step") llm ;;
  updatePerformanceChart.

(** What follows a number in a text must not continue it. *)
Definition stops (rest : text) : Prop :=
  match rest with
  | [] => True
  | c :: _ => isNumChar c = false
  end.

(** A value read back from its text, with fuel [f]. *)
Definition roundTrips (f : nat) : Prop :=
  forall v indent rest t,
    jsonValue v -> List.length (t ++ rest) < f ->
    serialize indent v = Some t -> stops rest ->
    parseValue f (t ++ rest) = Some (v, rest).

(** The text of an element of an array. *)
Definition partOf (indent : nat) (x : value) : text :=
  match serialize indent x with
  | Some t => t
  | None => literal "null"
  end.

(** The text of a member of an object. *)
Definition memberOf (indent : nat) (kv : string * value) : text :=
  quoteJSONString (fst kv) ++ ":"%char :: space :: partOf indent (snd kv).

(** ** Well-formed payloads

    The payload of an update as the server sends it: every field present
    and of its type. *)

Record AgentDecision : Type := mkDecision {
  dName : string;
  dAction : string;
  dCash : number;
  dPos : number;
  dValue : number
}.

Record RiskAssessment : Type := mkRisk {
  rName : string;
  rApproved : bool;
  rSize : number;
  rComment : string
}.

Record LLMSnapshot : Type := mkLLM {
  lBullish : string;
  lBearish : string;
  lGeneralAnalysis : option (string * string);
  lProposalAction : string;
  lProposalSize : number;
  lProposalRationale : string;
  lRisks : list RiskAssessment;
  lApproved : bool;
  lFinalAction : string;
  lFinalSize : number;
  lComment : string;
  lCash : number;
  lPos : number;
  lValue : number
}.

Record StepSnapshot : Type := mkSnapshot {
  sStep : number;
  sTotalSteps : number;
  sPrice : number;
  sNews : string;
  sDecisions : list AgentDecision;
  sLLM : LLMSnapshot
}.

Definition encodeDecision (d : AgentDecision) : value :=
  VObj [("name", VStr (dName d)); ("action", VStr (dAction d));
        ("cash", VNum (dCash d)); ("pos", VNum (dPos d));
        ("value", VNum (dValue d))].

Definition encodeRisk (r : RiskAssessment) : value :=
  VObj [("name", VStr (rName r)); ("approved", VBool (rApproved r));
        ("size", VNum (rSize r)); ("comment", VStr (rComment r))].

Definition encodeLLM (l : LLMSnapshot) : value :=
  VObj ([("bullish", VStr (lBullish l)); ("bearish", VStr (lBearish l))]
        ++ match lGeneralAnalysis l with
           | Some (stance, txt) =>
               [("general_analysis",
                 VObj [("stance", VStr stance); ("text", VStr txt)])]
           | None => []
           end
        ++ [("proposal",
             VObj [("action", VStr (lProposalAction l));
                   ("size", VNum (lProposalSize l));
                   ("rationale", VStr (lProposalRationale l))]);
            ("risk_assessments", VArr (map encodeRisk (lRisks l)));
            ("manager_decision",
             VObj [("approved", VBool (lApproved l));
                   ("final_action", VStr (lFinalAction l));
                   ("final_size", VNum (lFinalSize l));
                   ("comment", VStr (lComment l))]);
            ("portfolio",
             VObj [("cash", VNum (lCash l)); ("pos", VNum (lPos l));
                   ("value", VNum (lValue l))])]).

Definition encodeSnapshot (p : StepSnapshot) : value :=
  VObj [("step", VNum (sStep p)); ("total_steps", VNum (sTotalSteps p));
        ("price", VNum (sPrice p)); ("news", VStr (sNews p));
        ("decisions", VArr (map encodeDecision (sDecisions p)));
        ("llm", encodeLLM (sLLM p))].

(** No trader is called like a member of [Object.prototype]. *)
Definition ordinaryNames (p : StepSnapshot) : Prop :=
  Forall (fun d => inherited (dName d) = false) (sDecisions p).

(** A store that takes updates: it is not paused, and the history is an
    array of steps from which the performance chart can be drawn. *)
Definition ready (s : State) : Prop :=
  isPaused s = false /\
  exists l, simulationHistory s = VArr l /\ forEachR seriesOfStep l = Ok tt.

(** A computation that returns, and leaves the history it found. *)
Definition succeeds {A} (h : value) (m : M A) : Prop :=
  forall s, simulationHistory s = h ->
    exists a s', m s = (s', Ok a) /\ simulationHistory s' = h.

(** ** Enumeration order

    The keys of an object in the order the language enumerates them: no
    key twice, and every key before an array index is a smaller array
    index. *)

Definition precedes (pre : list string) (k : string) : Prop :=
  match arrayIndex k with
  | Some i =>
      Forall (fun k' => exists j, arrayIndex k' = Some j /\ (j < i)%N) pre
  | None => True
  end.

Fixpoint orderedFrom (pre ks : list string) : Prop :=
  match ks with
  | [] => True
  | k :: r => ~ In k pre /\ precedes pre k /\ orderedFrom (pre ++ [k]) r
  end.

Definition enumerated {A} (o : dict A) : Prop := orderedFrom [] (map fst o).

(** The ledgers are enumerated and hold JSON values only. *)
Definition ledgersJson (s : State) : Prop :=
  enumerated (traderHistory s) /\
  Forall (fun kv => Forall jsonValue (snd kv)) (traderHistory s).

(** The numbers of a well-formed payload are JSON numbers. *)
Definition jsonNum (n : number) : Prop := jsonValue (VNum n).

Definition jsonDecision (d : AgentDecision) : Prop :=
  jsonNum (dCash d) /\ jsonNum (dPos d) /\ jsonNum (dValue d).

Definition jsonLLM (l : LLMSnapshot) : Prop :=
  jsonNum (lProposalSize l) /\
  Forall (fun r => jsonNum (rSize r)) (lRisks l) /\
  jsonNum (lFinalSize l) /\
  jsonNum (lCash l) /\ jsonNum (lPos l) /\ jsonNum (lValue l).

Definition jsonSnapshot (p : StepSnapshot) : Prop :=
  jsonNum (sStep p) /\ jsonNum (sTotalSteps p) /\ jsonNum (sPrice p) /\
  Forall jsonDecision (sDecisions p) /\ jsonLLM (sLLM p).

(** Both exports give a text that reads back as what is in memory: the
    history as it is, and an object with the names of the ledgers as its
    keys, in their order, each with the array of the records of its
    ledger. *)
Definition readsBack (s : State) : Prop :=
  (exists t, exportHistory s = Some t /\
             jsonParse t = Some (simulationHistory s)) /\
  (exists t o, exportTraderData s = Some t /\
               jsonParse t = Some (VObj o) /\
               map fst o = map fst (traderHistory s) /\
               map snd o = map (fun kv => VArr (snd kv)) (traderHistory s) /\
               forall k, assoc k o = option_map VArr (assoc k (traderHistory s))).

(** ** Sample payloads and runs *)

Definition sampleNumber (z : Z) : value := VNum (num_of_Z z).

Definition sampleDecision (name action : string) (cash pos val : Z) : value :=
  VObj [("name", VStr name); ("action", VStr action);
        ("cash", sampleNumber cash); ("pos", sampleNumber pos);
        ("value", sampleNumber val)].

Definition sampleLLM (final_action : string) (val : Z) : value :=
  VObj [("bullish", VStr "Momentum is building");
        ("bearish", VStr "Volatility is high");
        ("general_analysis",
           VObj [("stance", VStr "neutral"); ("text", VStr "Mixed signals")]);
        ("proposal",
           VObj [("action", VStr "buy"); ("size", sampleNumber 1);
                 ("rationale", VStr "Trend is up")]);
        ("risk_assessments",
           VArr [VObj [("name", VStr "Conservative"); ("approved", VBool true);
                       ("size", sampleNumber 1); ("comment", VStr "Small size")]]);
        ("manager_decision",
           VObj [("approved", VBool true); ("final_action", VStr final_action);
                 ("final_size", sampleNumber 1); ("comment", VStr "Approved")]);
        ("portfolio",
           VObj [("cash", sampleNumber 900); ("pos", sampleNumber 1);
                 ("value", sampleNumber val)])].

Definition samplePayload (step price : Z) (news : string)
    (decisions : list value) : value :=
  VObj [("step", sampleNumber step); ("total_steps", sampleNumber 50);
        ("price", sampleNumber price); ("news", VStr news);
        ("decisions", VArr decisions); ("llm", sampleLLM "buy" 1000)].

(** A payload with a decision whose action is none of buy, sell, hold. *)
Definition payload1 : value :=
  samplePayload 1 100 "Market rally: prices very positive today"
    [sampleDecision "Random" "buy" 900 1 1000;
     sampleDecision "Trend" "short" 1000 0 1000;
     sampleDecision "Holder" "hold" 1000 0 1000].

Definition payload2 : value :=
  samplePayload 2 98 "Slight negative decline"
    [sampleDecision "Random" "sell" 998 0 998;
     sampleDecision "Trend" "buy" 902 1 1000;
     sampleDecision "Holder" "hold" 1000 0 1000].


Definition fiveSteps : list value :=
  [ samplePayload 1 100 "steady session" [];
    samplePayload 2 101 "Market rally" [];
    samplePayload 3 99 "Prices crash" [sampleDecision "Random" "sell" 1 0 1];
    samplePayload 4 100 "steady session" [];
    samplePayload 5 102 "upward drift" [] ].

(** The page is loaded and the start button has been clicked. *)
Definition started : State :=
  run [DOMContentLoaded; StartClick] loaded.

Definition stateOr (o : option State) (s : State) : State :=
  match o with Some s' => s' | None => s end.

Definition afterTwo : State :=
  stateOr (runAccepted [payload1; payload2] started) started.

Definition pausedAfterOne : State :=
  run [UpdateEvent payload1; PauseClick] started.



(** The payloads [payload1] and [payload2] as typed records. *)
Definition decisionRecord (name action : string) (cash pos val : Z)
    : AgentDecision :=
  mkDecision name action (num_of_Z cash) (num_of_Z pos) (num_of_Z val).

Definition llmRecord (final_action : string) (val : Z) : LLMSnapshot :=
  mkLLM "Momentum is building" "Volatility is high"
    (Some ("neutral", "Mixed signals"))
    "buy" (num_of_Z 1) "Trend is up"
    [mkRisk "Conservative" true (num_of_Z 1) "Small size"]
    true final_action (num_of_Z 1) "Approved"
    (num_of_Z 900) (num_of_Z 1) (num_of_Z val).

Definition snapshotRecord (step price : Z) (news : string)
    (decisions : list AgentDecision) : StepSnapshot :=
  mkSnapshot (num_of_Z step) (num_of_Z 50) (num_of_Z price) news decisions
    (llmRecord "buy" 1000).

Definition twoSnapshots : list StepSnapshot :=
  [ snapshotRecord 1 100 "Market rally: prices very positive today"
      [decisionRecord "Random" "buy" 900 1 1000;
       decisionRecord "Trend" "short" 1000 0 1000;
       decisionRecord "Holder" "hold" 1000 0 1000];
    snapshotRecord 2 98 "Slight negative decline"
      [decisionRecord "Random" "sell" 998 0 998;
       decisionRecord "Trend" "buy" 902 1 1000;
       decisionRecord "Holder" "hold" 1000 0 1000] ].




(** A payload one of whose traders reports no cash. *)
Definition payloadWithoutCash : value :=
  samplePayload 1 100 "steady session"
    [VObj [("name", VStr "Holder"); ("action", VStr "hold");
           ("pos", sampleNumber 0); ("value", sampleNumber 1000)]].

Definition afterWithoutCash : State :=
  run [UpdateEvent payloadWithoutCash] started.

(** What is read from the text of an export. *)
Definition reread (t : option string) : option value :=
  match t with
  | Some t => jsonParse t
  | None => None
  end.

(** ** Vocabulary of the further properties *)

Definition isArray (v : value) : bool :=
  match v with
  | VArr _ => true
  | _ => false
  end.


(** The store after a completion message whose history is a text. *)
Definition finishedWithText : State :=
  run [FinishedEvent (VObj [("history", VStr "lost")])] afterTwo.

(** A payload one of whose traders is called like a member of
    [Object.prototype], and the store it leaves: the handler raises on it,
    after the payload has entered the history. *)
Definition payloadOfConstructor : value :=
  samplePayload 1 100 "steady session"
    [sampleDecision "constructor" "hold" 1000 0 1000].

Definition afterConstructor : State :=
  run [UpdateEvent payloadOfConstructor] started.

(** The entry of the performance index under [k] after the decisions
    [agents] have been gone through, [old] being the entry before. *)
Definition latest (k : string) (agents : list value) (old : option value)
    : option value :=
  fold_left (fun acc agent =>
               if named k agent then Some (field agent "value") else acc)
            agents old.

(** The labels and the points of the price chart go in pairs, and there
    are at most 30 of them. *)
Definition windowBounded (s : State) : Prop :=
  match priceChart s with
  | Some (labels, points) =>
      List.length labels = List.length points /\ List.length labels <= 30
  | None => True
  end.

(** A text that does not go on with a decimal digit. *)
Definition noDigitAhead (rest : string) : Prop :=
  match rest with
  | EmptyString => True
  | String c _ => digitValue 10 c = None
  end.

(** A step whose price came as a text. *)
Definition stepWithTextPrice : value :=
  VObj [("step", sampleNumber 3); ("total_steps", sampleNumber 50);
        ("price", VStr "99.5"); ("news", VStr "Prices crash");
        ("decisions", VArr []); ("llm", sampleLLM "buy" 1000)].

(** The store after the first payload of a run. *)
Definition afterOne : State :=
  stateOr (runAccepted [payload1] started) started.

(** A ledger record as a well-formed payload leaves it: numbers, and a
    text for the action. *)
Definition typedRecord (v : value) : Prop :=
  exists step action cash position val,
    v = ledgerRecord (VNum step) (VStr action) (VNum cash) (VNum position)
          (VNum val).

Definition ledgersTyped (s : State) : Prop :=
  Forall (fun kv => snd kv <> [] /\ Forall typedRecord (snd kv))
         (traderHistory s).

(** ** The tabs of the trader tab

    [renderTraderHistory] also appends, for each ledger, a button to the
    row of tabs and a panel to the content area; the first ones are made
    active.  [switchTraderTab] then moves the class [active] by looking at
    the trader a button stands for and at the id of a panel.  The static
    page is taken to have no other element of the classes [trader-tab] and
    [trader-content]. *)

(** [name.replace(/\s+/g, "-")]: every run of white space becomes one
    dash; [inRun] tells that the character before was white space. *)
Fixpoint dashes (inRun : bool) (s : string) : string :=
  match s with
  | EmptyString => EmptyString
  | String c r =>
      if isWhiteSpace c
      then if inRun then dashes true r else String "-" (dashes true r)
      else String c (dashes false r)
  end.

(** The id of the panel of a trader. *)
Definition contentId (traderName : string) : string :=
  "trader-" +++ dashes false traderName.

Record traderTab : Type := mkTraderTab {
  tabTrader : string;
  tabActive : bool
}.

Record traderContent : Type := mkTraderContent {
  contentIdOf : string;
  contentActive : bool
}.

Record traderPage : Type := mkTraderPage {
  pageTabs : list traderTab;
  pageContents : list traderContent
}.

(** The buttons and the panels appended by the loop of
    [renderTraderHistory].  The button of a trader is appended before its
    panel is built: it stays when building the panel raises. *)
Fixpoint renderTabs (index : nat) (l : dict (list value))
    : traderPage * result unit :=
  match l with
  | [] => (mkTraderPage [] [], Ok tt)
  | (name, history) :: r =>
      let tab := mkTraderTab name (index =? 0)%nat in
      match viewTrader name history with
      | Throw e => (mkTraderPage [tab] [], Throw e)
      | Ok _ =>
          let '(page, res) := renderTabs (S index) r in
          (mkTraderPage (tab :: pageTabs page)
             (mkTraderContent (contentId name) (index =? 0)%nat
                :: pageContents page),
           res)
      end
  end.

(** [switchTraderTab(traderName)] *)
Definition switchTraderTab (traderName : string) (page : traderPage)
    : traderPage :=
  mkTraderPage
    (map (fun tab => mkTraderTab (tabTrader tab)
                       (String.eqb (tabTrader tab) traderName))
         (pageTabs page))
    (map (fun content =>
            mkTraderContent (contentIdOf content)
              (String.eqb (contentIdOf content) (contentId traderName)))
         (pageContents page)).

(** The page of the trader tab drawn from a store. *)
Definition traderPageOf (s : State) : traderPage :=
  fst (renderTabs 0 (traderHistory s)).

(** The store of a run of two payloads, as the events leave it. *)
Definition afterTwoEvents : State :=
  run [DOMContentLoaded; StartClick; UpdateEvent payload1; UpdateEvent payload2]
    loaded.

(** The variables the two dashboard scripts have in common. *)
Definition shared (s : State) :=
  (priceChart s, comparisonChart s, actionsChart s, agentPerformance s,
   actionCounts s, isPaused s).

(** A computation that reads and writes the common variables only: from
    two stores that agree on them it gives the same outcome, and stores
    that agree on them. *)
Definition respects {A} (m : M A) : Prop :=
  forall a b a' r,
    shared a = shared b -> m a = (a', r) ->
    exists b', m b = (b', r) /\ shared a' = shared b'.

(** ** The best and the worst performer

    [updatePortfolioStats] ranks the decisions and the fund with
    [sort((a, b) => b.value - a.value)] and shows the first and the last.
    The language makes [sort] stable; when the values are finite numbers
    the comparison is consistent, and the outcome is the stable sort by
    decreasing value.  With a value that is not a finite number the order
    is left to the engine, and is not represented. *)

(** The value by which an agent is ranked, when it is a finite number. *)
Definition rank (agent : value) : option Q :=
  match getProp agent "value" with
  | Ok (VNum (Fin q)) => Some q
  | _ => None
  end.

Fixpoint ranks (agents : list value) : option (list (value * Q)) :=
  match agents with
  | [] => Some []
  | a :: r =>
      match rank a, ranks r with
      | Some q, Some l => Some ((a, q) :: l)
      | _, _ => None
      end
  end.

(** [x] comes before [y] in the array: it stays before it unless the
    comparison [y.value - x.value] is positive. *)
Definition staysBefore (x y : value * Q) : bool :=
  negb (numGt0 (numSub (Fin (snd y)) (Fin (snd x)))).

(** [x] put in its place in [l], which holds the elements that come after
    it in the array, already sorted. *)
Fixpoint insertRanked (x : value * Q) (l : list (value * Q))
    : list (value * Q) :=
  match l with
  | [] => [x]
  | y :: r => if staysBefore x y then x :: l else y :: insertRanked x r
  end.

Definition sortRanked (l : list (value * Q)) : list (value * Q) :=
  fold_right insertRanked [] l.

(** [`${agent.name} ($${agent.value})`] *)
Definition performerText (agent : value) : result string :=
  (let? name := getProp agent "name" in
   let? n := toString name in
   let? val := getProp agent "value" in
   let? v := toString val in
   Ok (n +++ " ($" +++ v +++ ")"))%res.

(** [{ name: "LLM Fund", value: llm.portfolio.value }] *)
Definition fundAgent (val : value) : value :=
  VObj [("name", VStr "LLM Fund"); ("value", val)].

(** The three texts [updatePortfolioStats] writes: the best performer, the
    worst one, the price; [None] when a value is not a finite number. *)
Definition portfolioTexts (decisions llm price : value)
    : result (option (string * string * string)) :=
  (let? agents := elements decisions in
   let? portfolio := getProp llm "portfolio" in
   let? val := getProp portfolio "value" in
   match ranks (agents ++ [fundAgent val]) with
   | None => Ok None
   | Some ranked =>
       let sorted := map fst (sortRanked ranked) in
       let? best := performerText (hd VUndef sorted) in
       let? worst := performerText (last sorted VUndef) in
       let? p := toFixed price in
       Ok (Some (best, worst, "$" +++ p))
   end)%res.

(** The names and the values of a well-formed payload, the fund last. *)
Definition standings (ds : list AgentDecision) (qs : list Q) (q : Q)
    : list (string * Q) :=
  combine (map dName ds) qs ++ [("LLM Fund", q)].

(** [b] is the first of those with the largest value. *)
Definition leads {A} (b : A * Q) (all : list (A * Q)) : Prop :=
  exists pre post,
    all = pre ++ b :: post /\
    (forall x, In x pre -> (snd x < snd b)%Q) /\
    (forall x, In x post -> (snd x <= snd b)%Q).

(** [w] is the last of those with the smallest value. *)
Definition trails {A} (w : A * Q) (all : list (A * Q)) : Prop :=
  exists pre post,
    all = pre ++ w :: post /\
    (forall x, In x pre -> (snd w <= snd x)%Q) /\
    (forall x, In x post -> (snd w < snd x)%Q).

Definition performer (p : string * Q) : string :=
  fst p +++ " ($" +++ numToString (Fin (snd p)) +++ ")".

(** The name and the value under which an agent of the ranking is shown. *)
Definition labelled (vk : value * Q) : string * Q :=
  (keyOf (field (fst vk) "name"), snd vk).

(** ** The series of the performance chart

    [updatePerformanceChart] collects the names of the traders of the
    whole history in a set, builds one dataset per name, in the order the
    names were first met, and ends with the dataset of the fund.  Of a
    dataset the label and the data are kept. *)

Fixpoint mapO {A B} (f : A -> option B) (l : list A) : option (list B) :=
  match l with
  | [] => Some []
  | x :: r =>
      match f x, mapO f r with
      | Some y, Some ys => Some (y :: ys)
      | _, _ => None
      end
  end.

(** The name of a decision when it is a text. *)
Definition textName (d : value) : option string :=
  match field d "name" with
  | VStr n => Some n
  | _ => None
  end.

(** [traders.add(name)]: a set lists its members in the order they were
    first added. *)
Definition addTrader (traders : list string) (name : string) : list string :=
  if existsb (String.eqb name) traders then traders else traders ++ [name].

(** The set of the traders after the two nested loops over the steps and
    their decisions. *)
Definition tradersOf (namesOfSteps : list (list string)) : list string :=
  fold_left (fun traders names => fold_left addTrader names traders)
            namesOfSteps [].

(** [step.decisions.find((d) => d.name === traderName)], then
    [trader ? trader.value : null]: what is found under a text name is an
    object, which is truthy. *)
Definition pointOf (traderName : string) (step : value) : value :=
  match find (fun d => isStr (field d "name") traderName) (decisionsOf step) with
  | Some trader => field trader "value"
  | None => VNull
  end.

(** [step.llm.portfolio.value] *)
Definition fundPointOf (step : value) : value :=
  field (field (field step "llm") "portfolio") "value".

(** The datasets built from a history that is not empty.  The function
    raises when the redraw raises; it returns [None] when the name of a
    decision is not a text: the set then holds values that are not
    represented. *)
Definition performanceDatasets (history : list value)
    : result (option (list (string * list value))) :=
  (forEachR seriesOfStep history ;?
   match mapO (fun step => mapO textName (decisionsOf step)) history with
   | None => Ok None
   | Some names =>
       Ok (Some (map (fun n => (n, map (pointOf n) history)) (tradersOf names)
                 ++ [("LLM Fund", map fundPointOf history)]))
   end)%res.

(** The names of the decisions of a well-formed payload, and the point of
    a trader at it. *)
Definition namesOf (p : StepSnapshot) : list string :=
  map dName (sDecisions p).

Definition pointAt (traderName : string) (p : StepSnapshot) : value :=
  match find (fun d => String.eqb (dName d) traderName) (sDecisions p) with
  | Some d => VNum (dValue d)
  | None => VNull
  end.

(** * Properties *)

(** ** Computations on the store *)

Lemma bind_ok {A B} (m : M A) (f : A -> M B) s s' b :
  bind m f s = (s', Ok b) ->
  exists a s1, m s = (s1, Ok a) /\ f a s1 = (s', Ok b).
Proof.
  unfold bind. destruct (m s) as [s1 [a|e]]; intros H.
  - exists a, s1. split; [reflexivity | exact H].
  - discriminate H.
Qed.

Lemma lift_ok {A} (r : result A) s s' a :
  lift r s = (s', Ok a) -> r = Ok a /\ s' = s.
Proof. unfold lift. intros H. inversion H. split; reflexivity. Qed.

Lemma modify_ok (f : State -> State) s s' u :
  modify f s = (s', Ok u) -> s' = f s.
Proof. unfold modify. intros H. inversion H. reflexivity. Qed.

Lemma preserves_ret {A B} (f : State -> B) (a : A) : preserves f (ret a).
Proof. intros s s' r H. inversion H. reflexivity. Qed.

Lemma preserves_lift {A B} (f : State -> B) (r : result A) :
  preserves f (lift r).
Proof. intros s s' r' H. inversion H. reflexivity. Qed.

Lemma preserves_observe {A B} (f : State -> B) (g : State -> result A) :
  preserves f (observe g).
Proof. intros s s' r H. inversion H. reflexivity. Qed.

Lemma preserves_modify {B} (f : State -> B) (g : State -> State) :
  (forall s, f (g s) = f s) -> preserves f (modify g).
Proof. intros Hg s s' r H. inversion H. apply Hg. Qed.

Lemma preserves_bind {A B C} (f : State -> C) (m : M A) (k : A -> M B) :
  preserves f m -> (forall a, preserves f (k a)) -> preserves f (bind m k).
Proof.
  intros Hm Hk s s' r. unfold bind.
  destruct (m s) as [s1 [a|e]] eqn:E; intros H.
  - rewrite (Hk a _ _ _ H). exact (Hm _ _ _ E).
  - inversion H. subst. exact (Hm _ _ _ E).
Qed.

Lemma preserves_forEachM {A B} (f : State -> B) (k : A -> M unit) l :
  (forall a, preserves f (k a)) -> preserves f (forEachM k l).
Proof.
  intros Hk. induction l as [|x r IH]; simpl.
  - apply preserves_ret.
  - apply preserves_bind; [apply Hk | intros _; exact IH].
Qed.

(** ** C7: the sentiment of a news text *)

Lemma sentimentBy_classify (news : string) :
  sentimentBy (includes news) = badge (classify news).
Proof.
  unfold sentimentBy, classify, sentimentRules.
  cbn [find existsb fst snd].
  rewrite !orb_false_r.
  destruct (includes news "Very positive"), (includes news "rally"),
    (includes news "positive"), (includes news "upward"),
    (includes news "Very negative"), (includes news "crash"),
    (includes news "negative"), (includes news "declin"); reflexivity.
Qed.

(** C7. For every news string the badge is the one of the first rule, in
    the order Bullish (contains "Very positive" or "rally"), Positive
    ("positive" or "upward"), Bearish ("Very negative" or "crash"),
    Negative ("negative" or "declin"), one of whose texts occurs in the
    string, and the neutral badge when none does; the three sample news
    are Bullish, Negative and Neutral. *)
Theorem sentiment_first_match :
  (forall news : string, updateNews (VStr news) = Ok (badge (classify news))) /\
  classify "Market rally: prices very positive today" = Bullish /\
  classify "Slight negative decline" = Negative /\
  classify "steady session" = Neutral.
Proof.
  split; [|repeat split; reflexivity].
  intros news. unfold updateNews, shown. cbn [toString rbind].
  now rewrite sentimentBy_classify.
Qed.

(** ** C1: updates while paused *)

(** C1. While the pause flag is set the update handler returns at once: the
    whole store (history, price window, counters, ledgers, performance
    index, charts) is the one before the call, and since nothing of the
    payload is kept, whatever events follow are handled as if the payload
    had never been delivered.  The older dashboard script behaves the
    same. *)
Theorem update_paused_noop (s : State) (data : value) :
  isPaused s = true ->
  update data s = (s, Ok tt) /\
  basicUpdate data s = (s, Ok tt) /\
  forall es, run (UpdateEvent data :: es) s = run es s.
Proof.
  intros Hp.
  assert (H : update data s = (s, Ok tt)) by (unfold update; now rewrite Hp).
  repeat split.
  - exact H.
  - unfold basicUpdate. now rewrite Hp.
  - intros es. cbn [run handle]. now rewrite H.
Qed.

(** ** C6: the start command *)


(** ** C5: the total return of a trader *)

Lemma viewTrader_totalReturn name history v :
  viewTrader name history = Ok v ->
  exists a b,
    field (hd VUndef history) "value" = VNum a /\
    field (last history VUndef) "value" = VNum b /\
    totalReturn v = toFixed2 (returnPercent a b).
Proof.
  unfold viewTrader, field. destruct history as [|h r]; [discriminate|].
  cbn [rbind hd].
  destruct (getProp h "value") as [sv|]; [|discriminate].
  cbn [rbind].
  destruct (getProp (last (h :: r) VUndef) "value") as [ev|]; [|discriminate].
  cbn [rbind].
  destruct sv; try discriminate. destruct ev; try discriminate.
  destruct (countTrades (h :: r)); [|discriminate]. cbn [rbind].
  destruct (ledgerRows None (h :: r)); [|discriminate]. cbn [rbind].
  intros H. inversion H. subst. exists n, n0. repeat split.
Qed.

(** C5 (the code at the inputs of the claim). A ledger of values 100, 150,
    90 has the total return "-10.00".  For a ledger that starts at 0 the
    division is done all the same: the total return shown is "Infinity"
    when the last value is positive and "NaN" when it is 0 as well, whereas
    the change column of the same table guards its division and shows
    "0.00" after a value of 0. *)
Theorem total_return_zero_start :
  resultMap totalReturn (viewTrader "Random" (ledgerOfValues [100; 150; 90]%Z))
    = Ok "-10.00" /\
  resultMap totalReturn (viewTrader "Random" (ledgerOfValues [0; 50]%Z))
    = Ok "Infinity" /\
  resultMap totalReturn (viewTrader "Random" (ledgerOfValues [0; 0]%Z))
    = Ok "NaN" /\
  resultMap (fun v => map rowChangePercent (rows v))
    (viewTrader "Random" (ledgerOfValues [0; 50]%Z)) = Ok ["0.00"; "0.00"].
Proof. repeat split; vm_compute; reflexivity. Qed.

(** ** Dictionaries *)

Lemma assoc_app {A} k (o1 o2 : dict A) :
  assoc k (o1 ++ o2) =
  match assoc k o1 with Some v => Some v | None => assoc k o2 end.
Proof.
  induction o1 as [|[k' v'] r IH]; simpl; [reflexivity|].
  destruct (String.eqb k k'); [reflexivity | exact IH].
Qed.

Lemma assoc_replace_eq {A} k (v : A) o :
  hasOwn k o = true -> assoc k (replace k v o) = Some v.
Proof.
  unfold hasOwn. induction o as [|[k' v'] r IH]; simpl; [discriminate|].
  destruct (String.eqb k k') eqn:E; simpl; rewrite E; [reflexivity | exact IH].
Qed.

Lemma assoc_replace_ne {A} k k' (v : A) o :
  k' <> k -> assoc k' (replace k v o) = assoc k' o.
Proof.
  intros Hne. apply String.eqb_neq in Hne.
  induction o as [|[k0 v0] r IH]; simpl; [reflexivity|].
  destruct (String.eqb k k0) eqn:E; simpl.
  - apply String.eqb_eq in E. subst k0. now rewrite Hne.
  - rewrite IH. reflexivity.
Qed.

Lemma assoc_insertIndex_eq {A} i k (v : A) o :
  hasOwn k o = false -> assoc k (insertIndex i k v o) = Some v.
Proof.
  unfold hasOwn. induction o as [|[k' v'] r IH]; simpl.
  - now rewrite String.eqb_refl.
  - destruct (String.eqb k k') eqn:E; [discriminate|]. intros H.
    destruct (arrayIndex k') as [j|].
    + destruct (j <? i)%N; simpl.
      * rewrite E. exact (IH H).
      * now rewrite String.eqb_refl.
    + simpl. now rewrite String.eqb_refl.
Qed.

Lemma assoc_insertIndex_ne {A} i k k' (v : A) o :
  k' <> k -> assoc k' (insertIndex i k v o) = assoc k' o.
Proof.
  intros Hne. apply String.eqb_neq in Hne.
  induction o as [|[k0 v0] r IH]; simpl.
  - now rewrite Hne.
  - destruct (arrayIndex k0) as [j|].
    + destruct (j <? i)%N; simpl.
      * now rewrite IH.
      * now rewrite Hne.
    + simpl. now rewrite Hne.
Qed.

Lemma assoc_dictSet_eq {A} k (v : A) o :
  k <> "__proto__" -> assoc k (dictSet k v o) = Some v.
Proof.
  intros Hk. apply String.eqb_neq in Hk. unfold dictSet. rewrite Hk.
  destruct (hasOwn k o) eqn:E.
  - now apply assoc_replace_eq.
  - destruct (arrayIndex k).
    + now apply assoc_insertIndex_eq.
    + rewrite assoc_app. unfold hasOwn in E.
      destruct (assoc k o); [discriminate|]. simpl. now rewrite String.eqb_refl.
Qed.

Lemma assoc_dictSet_ne {A} k k' (v : A) o :
  k' <> k -> assoc k' (dictSet k v o) = assoc k' o.
Proof.
  intros Hne. unfold dictSet.
  destruct (String.eqb k "__proto__"); [reflexivity|].
  destruct (hasOwn k o).
  - now apply assoc_replace_ne.
  - destruct (arrayIndex k).
    + now apply assoc_insertIndex_ne.
    + rewrite assoc_app. destruct (assoc k' o); [reflexivity|].
      simpl. apply String.eqb_neq in Hne. now rewrite Hne.
Qed.

Lemma inherited_proto : inherited "__proto__" = true.
Proof. reflexivity. Qed.

(** A key that is found, or that is absent, is not ["__proto__"], which is
    inherited. *)
Lemma dictGet_Absent {A} k (o : dict A) :
  dictGet k o = Absent -> assoc k o = None /\ k <> "__proto__".
Proof.
  unfold dictGet. destruct (assoc k o); [discriminate|].
  destruct (inherited k) eqn:E; [discriminate|]. intros _. split; [reflexivity|].
  intros ->. discriminate E.
Qed.

Lemma dictGet_Own {A} k (o : dict A) a :
  dictGet k o = Own a -> assoc k o = Some a.
Proof.
  unfold dictGet. destruct (assoc k o).
  - intros H. now inversion H.
  - destruct (inherited k); discriminate.
Qed.

Lemma dictGet_Inherited {A} k (o : dict A) :
  dictGet k o = Inherited -> assoc k o = None.
Proof.
  unfold dictGet. destruct (assoc k o); [discriminate | reflexivity].
Qed.

(** ** Windows *)




(** ** Frames of the functions of the script *)

Section Frames.

Context {B : Type} (f : State -> B).

Lemma frame_updatePriceChart price step :
  (forall c s, f (setPriceChart c s) = f s) ->
  preserves f (updatePriceChart price step).
Proof.
  intros Hf s s' r. unfold updatePriceChart.
  destruct (priceChart s) as [[ls ps]|]; [|intros H; now inversion H].
  destruct (isPaused s); [intros H; now inversion H|].
  destruct (toString step); [|intros H; now inversion H].
  destruct (30 <? _)%nat; intros H; inversion H; apply Hf.
Qed.

Lemma frame_updateComparisonChart :
  (forall c s, f (setComparisonChart c s) = f s) ->
  preserves f updateComparisonChart.
Proof.
  intros Hf s s' r. unfold updateComparisonChart.
  destruct (comparisonChart s); intros H; inversion H; [apply Hf | reflexivity].
Qed.

Lemma frame_updateActionsChart :
  (forall c s, f (setActionsChart c s) = f s) ->
  preserves f updateActionsChart.
Proof.
  intros Hf s s' r. unfold updateActionsChart.
  destruct (actionsChart s); intros H; inversion H; [apply Hf | reflexivity].
Qed.

Lemma frame_updatePerformanceChart :
  (forall c s, f (setPerformanceChart c s) = f s) ->
  preserves f updatePerformanceChart.
Proof.
  intros Hf s s' r. unfold updatePerformanceChart.
  destruct (performanceChart s); [|intros H; now inversion H].
  destruct (simulationHistory s) as [| | | |h|l0|o];
    try (intros H; now inversion H).
  - destruct h; intros H; now inversion H.
  - destruct l0 as [|x l0]; [intros H; now inversion H|].
    destruct (forEachR seriesOfStep (x :: l0)); intros H; inversion H;
      [apply Hf | reflexivity].
  - destruct (assoc "length" o) as [[]|]; try (intros H; now inversion H).
    destruct (numStrictEq _ _); intros H; now inversion H.
Qed.

Lemma frame_pushHistory data :
  (forall h s, f (setSimulationHistory h s) = f s) ->
  preserves f (pushHistory data).
Proof.
  intros Hf s s' r. unfold pushHistory.
  destruct (simulationHistory s); intros H; inversion H;
    first [apply Hf | reflexivity].
Qed.

Lemma frame_ensureLedger k :
  (forall t s, f (setTraderHistory t s) = f s) ->
  preserves f (ensureLedger k).
Proof.
  intros Hf. apply preserves_modify. intros s.
  destruct (dictGet k (traderHistory s)); first [apply Hf | reflexivity].
Qed.

Lemma frame_pushLedger k record :
  (forall t s, f (setTraderHistory t s) = f s) ->
  preserves f (pushLedger k record).
Proof.
  intros Hf s s' r. unfold pushLedger.
  destruct (dictGet k (traderHistory s)); intros H; inversion H;
    first [apply Hf | reflexivity].
Qed.

Lemma frame_counting k :
  (forall a s, f (setActionCounts a s) = f s) ->
  preserves f (modify (fun s =>
    if dictIn k (actionCounts s)
    then setActionCounts (increment k (actionCounts s)) s
    else s)).
Proof.
  intros Hf. apply preserves_modify. intros s.
  destruct (dictIn k (actionCounts s)); [apply Hf | reflexivity].
Qed.

End Frames.

(** Solves [preserves f m] for the functions of the script, [f] being a
    component they do not write. *)
Ltac frame :=
  unfold update, updateAgents, updateAgent, updateLLMPipeline,
    basicUpdateLLMPipeline, trackTraderHistory, trackTrader,
    simulationFinished;
  repeat first
    [ apply preserves_ret
    | apply preserves_lift
    | apply preserves_observe
    | apply preserves_forEachM; intros ?
    | apply frame_updatePriceChart; intros; reflexivity
    | apply frame_updateComparisonChart; intros; reflexivity
    | apply frame_updateActionsChart; intros; reflexivity
    | apply frame_updatePerformanceChart; intros; reflexivity
    | apply frame_pushHistory; intros; reflexivity
    | apply frame_ensureLedger; intros; reflexivity
    | apply frame_pushLedger; intros; reflexivity
    | apply frame_counting; intros; reflexivity
    | apply preserves_modify; intros; reflexivity
    | apply preserves_modify; intros;
      match goal with |- context [if ?b then _ else _] => destruct b end;
      reflexivity
    | apply preserves_bind; [| intros ?] ].

(** Splits a computation that returned into its first step and the rest. *)
Ltac split_ok H x s1 H1 :=
  apply bind_ok in H; destruct H as (x & s1 & H1 & H).

Ltac split_lift H x E :=
  let s1 := fresh "s" in
  let H1 := fresh "H" in
  split_ok H x s1 H1; apply lift_ok in H1; destruct H1 as [E ->].

Lemma shown_ok v u : shown v = Ok u -> toString v = Ok (keyOf v).
Proof.
  unfold shown, keyOf. destruct (toString v); [reflexivity | discriminate].
Qed.

Lemma getProp_field v k x : getProp v k = Ok x -> field v k = x.
Proof. unfold field. now intros ->. Qed.

(** ** The steps of an accepted update *)

Lemma update_ok_inv d s s' :
  isPaused s = false ->
  update d s = (s', Ok tt) ->
  exists s1 s2 s3 s4 s5,
    toString (field d "step") = Ok (keyOf (field d "step")) /\
    pushHistory d s = (s1, Ok tt) /\
    updatePriceChart (field d "price") (field d "step") s1 = (s2, Ok tt) /\
    updateAgents (field d "decisions") s2 = (s3, Ok tt) /\
    updateLLMPipeline (field d "llm") s3 = (s4, Ok tt) /\
    trackTraderHistory (field d "decisions") (field d "step") (field d "llm") s4
      = (s5, Ok tt) /\
    updatePerformanceChart s5 = (s', Ok tt).
Proof.
  intros Hp H. unfold update in H. rewrite Hp in H.
  split_lift H step Estep. split_lift H total Etotal.
  split_lift H u1 Eshown. split_lift H u2 Eshown2.
  split_ok H u3 s1 Hpush.
  split_lift H price Eprice.
  split_ok H u4 s2 Hchart.
  split_lift H news Enews. split_lift H u5 Esent.
  split_lift H decisions Edec.
  split_ok H u6 s3 Hagents.
  split_lift H llm Ellm.
  split_ok H u7 s4 Hllm.
  split_lift H u8 Estats.
  split_ok H u9 s5 Htrack.
  apply getProp_field in Estep, Eprice, Edec, Ellm. subst.
  destruct u3, u4, u6, u7, u9.
  exists s1, s2, s3, s4, s5.
  repeat split; try assumption.
  eapply shown_ok; eassumption.
Qed.

Lemma update_isPaused d s s' r :
  update d s = (s', r) -> isPaused s' = isPaused s.
Proof.
  intros H. unfold update in H.
  destruct (isPaused s) eqn:Hp.
  - inversion H. congruence.
  - transitivity (isPaused s); [|exact Hp]. clear Hp.
    revert H. generalize r. generalize s'. generalize s.
    change (preserves isPaused
      (step <- lift (getProp d "step") ;;
       total <- lift (getProp d "total_steps") ;;
       lift (shown step) ;;
       lift (shown total) ;;
       pushHistory d ;;
       price <- lift (getProp d "price") ;;
       updatePriceChart price step ;;
       news <- lift (getProp d "news") ;;
       lift (updateNews news) ;;
       decisions <- lift (getProp d "decisions") ;;
       updateAgents decisions ;;
       llm <- lift (getProp d "llm") ;;
       updateLLMPipeline llm ;;
       lift (updatePortfolioStats decisions llm price) ;;
       trackTraderHistory decisions step llm ;;
       updatePerformanceChart)).
    frame.
Qed.

(** ** C4: the tally and the ledgers *)






Lemma elements_decisionsOf d l :
  elements (field d "decisions") = Ok l -> decisionsOf d = l.
Proof.
  unfold decisionsOf. destruct (field d "decisions"); try discriminate.
  intros H. now inversion H.
Qed.




Lemma ensure_push k0 record s s1 s' u :
  plainKeys s ->
  ensureLedger k0 s = (s1, Ok u) ->
  pushLedger k0 record s1 = (s', Ok tt) ->
  (forall k, ledgerOf k s' =
             ledgerOf k s ++ (if String.eqb k0 k then [record] else [])) /\
  plainKeys s'.
Proof.
  unfold plainKeys, ledgerOf. intros Hplain Hens Hpush.
  apply modify_ok in Hens. unfold pushLedger in Hpush.
  destruct (dictGet k0 (traderHistory s)) as [l| |] eqn:E; subst s1.
  - rewrite E in Hpush. inversion Hpush. subst s'. clear Hpush.
    cbn [traderHistory setTraderHistory].
    apply dictGet_Own in E.
    assert (Hk0 : k0 <> "__proto__") by congruence.
    split.
    + intros k. destruct (String.eqb_spec k0 k) as [<-|Hne].
      * rewrite assoc_dictSet_eq by assumption. now rewrite E.
      * rewrite assoc_dictSet_ne by congruence. now rewrite app_nil_r.
    + rewrite assoc_dictSet_ne by congruence. assumption.
  - rewrite E in Hpush. discriminate Hpush.
  - cbn [traderHistory setTraderHistory] in Hpush.
    apply dictGet_Absent in E. destruct E as [E Hk0].
    unfold dictGet in Hpush. rewrite assoc_dictSet_eq in Hpush by assumption.
    inversion Hpush. subst s'. clear Hpush.
    cbn [traderHistory setTraderHistory].
    split.
    + intros k. destruct (String.eqb_spec k0 k) as [<-|Hne].
      * rewrite assoc_dictSet_eq by assumption. now rewrite E.
      * rewrite !assoc_dictSet_ne by congruence. now rewrite app_nil_r.
    + rewrite !assoc_dictSet_ne by congruence. assumption.
Qed.

Lemma trackTrader_ledger step agent s s' :
  plainKeys s ->
  trackTrader step agent s = (s', Ok tt) ->
  (forall k, ledgerOf k s' =
     ledgerOf k s ++
     (if named k agent then [recordOfDecision step agent] else [])) /\
  plainKeys s'.
Proof.
  intros Hplain H. unfold trackTrader in H.
  split_lift H name Ename. split_lift H k0 Ek0.
  split_ok H u s1 Hens.
  split_lift H action Eaction. split_lift H cash Ecash.
  split_lift H pos Epos. split_lift H val Eval.
  destruct (ensure_push _ _ _ _ _ _ Hplain Hens H) as [Hl Hp].
  split; [|exact Hp].
  intros k. rewrite Hl. unfold named, keyOf, recordOfDecision.
  rewrite (getProp_field _ _ _ Ename), Ek0.
  rewrite (getProp_field _ _ _ Eaction), (getProp_field _ _ _ Ecash),
    (getProp_field _ _ _ Epos), (getProp_field _ _ _ Eval).
  reflexivity.
Qed.

Lemma forEach_trackTrader_ledger step agents : forall s s',
  plainKeys s ->
  forEachM (trackTrader step) agents s = (s', Ok tt) ->
  (forall k, ledgerOf k s' =
     ledgerOf k s ++ map (recordOfDecision step) (filter (named k) agents)) /\
  plainKeys s'.
Proof.
  induction agents as [|a r IH]; intros s s' Hplain H.
  - inversion H. subst. split; [|assumption].
    intros k. cbn. now rewrite app_nil_r.
  - cbn [forEachM] in H. split_ok H u s1 H1. destruct u.
    destruct (trackTrader_ledger _ _ _ _ Hplain H1) as [Hl1 Hp1].
    destruct (IH _ _ Hp1 H) as [Hl Hp]. split; [|assumption].
    intros k. rewrite Hl, Hl1, <- app_assoc. f_equal.
    cbn [filter]. destruct (named k a); reflexivity.
Qed.

Lemma trackTraderHistory_ledger decisions step llm s s' :
  plainKeys s ->
  trackTraderHistory decisions step llm s = (s', Ok tt) ->
  exists agents,
    elements decisions = Ok agents /\
    (forall k, ledgerOf k s' =
       ledgerOf k s ++ map (recordOfDecision step) (filter (named k) agents)
       ++ (if String.eqb k "LLM Fund"
           then [ledgerRecord step
                   (field (field llm "manager_decision") "final_action")
                   (field (field llm "portfolio") "cash")
                   (field (field llm "portfolio") "pos")
                   (field (field llm "portfolio") "value")]
           else [])) /\
    plainKeys s'.
Proof.
  intros Hplain H. unfold trackTraderHistory in H.
  split_lift H agents Eagents. split_ok H u s1 Hloop. destruct u.
  split_ok H u s2 Hens.
  split_lift H decision Edecision. split_lift H action Eaction.
  split_lift H portfolio Eportfolio. split_lift H cash Ecash.
  split_lift H pos Epos. split_lift H val Eval.
  destruct (forEach_trackTrader_ledger _ _ _ _ Hplain Hloop) as [Hl1 Hp1].
  destruct (ensure_push _ _ _ _ _ _ Hp1 Hens H) as [Hl Hp].
  exists agents. split; [assumption|]. split; [|assumption].
  intros k. rewrite Hl, Hl1, <- app_assoc. do 2 f_equal.
  rewrite (getProp_field _ _ _ Edecision), (getProp_field _ _ _ Eportfolio).
  rewrite (getProp_field _ _ _ Eaction), (getProp_field _ _ _ Ecash),
    (getProp_field _ _ _ Epos), (getProp_field _ _ _ Eval).
  rewrite String.eqb_sym. reflexivity.
Qed.

Lemma update_ledger d s s' :
  isPaused s = false ->
  plainKeys s ->
  update d s = (s', Ok tt) ->
  (forall k, ledgerOf k s' = ledgerOf k s ++ entriesFor k d) /\ plainKeys s'.
Proof.
  intros Hp Hplain H.
  destruct (update_ok_inv _ _ _ Hp H)
    as (s1 & s2 & s3 & s4 & s5 & _ & H1 & H2 & H3 & H4 & H5 & H6).
  assert (E1 : traderHistory s1 = traderHistory s)
    by (revert H1; apply frame_pushHistory; reflexivity).
  assert (E2 : traderHistory s2 = traderHistory s1)
    by (revert H2; apply frame_updatePriceChart; reflexivity).
  assert (E3 : traderHistory s3 = traderHistory s2).
  { revert H3. generalize (Ok tt : result unit). generalize s3. generalize s2.
    change (preserves traderHistory (updateAgents (field d "decisions"))). frame. }
  assert (E4 : traderHistory s4 = traderHistory s3).
  { revert H4. generalize (Ok tt : result unit). generalize s4. generalize s3.
    change (preserves traderHistory (updateLLMPipeline (field d "llm"))). frame. }
  assert (E6 : traderHistory s' = traderHistory s5)
    by (revert H6; apply frame_updatePerformanceChart; reflexivity).
  assert (Hplain4 : plainKeys s4)
    by (unfold plainKeys in *; now rewrite E4, E3, E2, E1).
  destruct (trackTraderHistory_ledger _ _ _ _ _ Hplain4 H5)
    as (agents & Eagents & Hl & Hplain5).
  split; [|unfold plainKeys in *; now rewrite E6].
  intros k. unfold ledgerOf in *. rewrite E6, Hl, E4, E3, E2, E1.
  unfold entriesFor, recordOfFund. now rewrite (elements_decisionsOf _ _ Eagents).
Qed.

Lemma runAccepted_ledger ds : forall s s',
  isPaused s = false ->
  plainKeys s ->
  runAccepted ds s = Some s' ->
  forall k, ledgerOf k s' = ledgerOf k s ++ flat_map (entriesFor k) ds.
Proof.
  induction ds as [|d r IH]; intros s s' Hp Hplain H k.
  - inversion H. subst. cbn. now rewrite app_nil_r.
  - cbn [runAccepted] in H.
    destruct (update d s) as [s1 [[]|e]] eqn:E; [|discriminate].
    destruct (update_ledger _ _ _ Hp Hplain E) as [Hl Hplain1].
    assert (Hp1 : isPaused s1 = false)
      by (rewrite (update_isPaused _ _ _ _ E); exact Hp).
    rewrite (IH _ _ Hp1 Hplain1 H k), Hl, <- app_assoc. reflexivity.
Qed.

(** The steps of [updateAgent] that can raise are the reads and the
    conversions of the row; the counting cannot. *)
Lemma updateAgent_returns agent s name :
  getProp agent "name" = Ok (VStr name) ->
  shown (field agent "cash") = Ok tt ->
  shown (field agent "pos") = Ok tt ->
  shown (field agent "action") = Ok tt ->
  shown (field agent "value") = Ok tt ->
  snd (updateAgent agent s) = Ok tt.
Proof.
  intros Hname Hcash Hpos Haction Hvalue.
  assert (Hobj : forall k, getProp agent k = Ok (field agent k)).
  { intros k. unfold field. destruct agent; try discriminate; reflexivity. }
  unfold updateAgent, bind, lift, modify.
  rewrite Hname. cbn [stringMethod toString].
  rewrite !Hobj, Hcash, Hpos, Hvalue.
  rewrite (shown_ok _ _ Haction). reflexivity.
Qed.


(** ** C10: no ledger is empty *)

Lemma maintains_preserves {A B} (f : State -> B) (Q : B -> Prop) (m : M A) :
  preserves f m -> maintains (fun s => Q (f s)) m.
Proof. intros Hm s s' r HQ H. now rewrite (Hm _ _ _ H). Qed.

Lemma maintains_bind {A B} (P : State -> Prop) (m : M A) (k : A -> M B) :
  maintains P m ->
  (forall a, (exists s s1, m s = (s1, Ok a)) -> maintains P (k a)) ->
  maintains P (bind m k).
Proof.
  intros Hm Hk s s' r HP. unfold bind.
  destruct (m s) as [s1 [a|e]] eqn:E; intros H.
  - apply (Hk a (ex_intro _ s (ex_intro _ s1 E)) s1 s' r); [|exact H].
    exact (Hm _ _ _ HP E).
  - inversion H. subst. exact (Hm _ _ _ HP E).
Qed.

Lemma maintains_forEachM {A} (P : State -> Prop) (k : A -> M unit) l :
  (forall a, maintains P (k a)) -> maintains P (forEachM k l).
Proof.
  intros Hk. induction l as [|x r IH]; cbn [forEachM].
  - intros s s' r HP H. inversion H. now subst.
  - apply maintains_bind; [apply Hk | intros _ _; exact IH].
Qed.

Lemma getProp_defined v k : defined v -> getProp v k = Ok (field v k).
Proof. unfold field. destruct v; cbn; intros H; try reflexivity; destruct H. Qed.

Lemma getProp_ok_defined v k x : getProp v k = Ok x -> defined v.
Proof. destruct v; cbn; intros H; try exact I; discriminate H. Qed.

Lemma rbind_ok {A B} (r : result A) (f : A -> result B) b :
  rbind r f = Ok b -> exists a, r = Ok a /\ f a = Ok b.
Proof.
  destruct r as [a|e]; cbn; intros H; [|discriminate H].
  exists a. split; [reflexivity | exact H].
Qed.

Ltac split_res H x E :=
  apply rbind_ok in H; destruct H as (x & E & H).

Lemma showLLM_defined llm v :
  showLLM llm = Ok v ->
  defined llm /\ defined (field llm "manager_decision") /\
  defined (field llm "portfolio").
Proof.
  intros H. unfold showLLM in H.
  split_res H bullish E1. split_res H u1 E2. split_res H bearish E3.
  split_res H u2 E4. split_res H general E5. split_res H u3 E6.
  split_res H proposal E7. split_res H action E8. split_res H u4 E9.
  split_res H size E10. split_res H u5 E11. split_res H rationale E12.
  split_res H u6 E13. split_res H risks E14. split_res H rs E15.
  split_res H u7 E16. split_res H decision E17. split_res H approved E18.
  split_res H final_action E19. split_res H u8 E20.
  split_res H final_size E21. split_res H u9 E22. split_res H comment E23.
  split_res H u10 E24. split_res H portfolio E25. split_res H val E26.
  repeat split.
  - exact (getProp_ok_defined _ _ _ E1).
  - rewrite (getProp_field _ _ _ E17). exact (getProp_ok_defined _ _ _ E18).
  - rewrite (getProp_field _ _ _ E25). exact (getProp_ok_defined _ _ _ E26).
Qed.

Lemma Forall_replace {A} (Q : A -> Prop) k v (o : dict A) :
  Forall (fun kv => Q (snd kv)) o -> Q v ->
  Forall (fun kv => Q (snd kv)) (replace k v o).
Proof.
  intros Ho Hv. induction Ho as [|[k' v'] r Hx Hr IH]; cbn; [constructor|].
  destruct (String.eqb k k'); constructor; assumption.
Qed.

Lemma Forall_insertIndex {A} (Q : A -> Prop) i k v (o : dict A) :
  Forall (fun kv => Q (snd kv)) o -> Q v ->
  Forall (fun kv => Q (snd kv)) (insertIndex i k v o).
Proof.
  intros Ho Hv. induction Ho as [|[k' v'] r Hx Hr IH]; cbn.
  - constructor; [exact Hv | constructor].
  - destruct (arrayIndex k') as [j|].
    + destruct (j <? i)%N; constructor; try assumption.
      constructor; assumption.
    + constructor; [exact Hv|]. constructor; assumption.
Qed.

Lemma Forall_dictSet {A} (Q : A -> Prop) k v (o : dict A) :
  Forall (fun kv => Q (snd kv)) o -> Q v ->
  Forall (fun kv => Q (snd kv)) (dictSet k v o).
Proof.
  intros Ho Hv. unfold dictSet.
  destruct (String.eqb k "__proto__"); [assumption|].
  destruct (hasOwn k o).
  - now apply Forall_replace.
  - destruct (arrayIndex k).
    + now apply Forall_insertIndex.
    + apply Forall_app. split; [assumption|].
      constructor; [exact Hv | constructor].
Qed.

Lemma Forall_assoc {A} (Q : A -> Prop) k v (o : dict A) :
  Forall (fun kv => Q (snd kv)) o -> assoc k o = Some v -> Q v.
Proof.
  intros Ho. induction Ho as [|[k' v'] r Hx Hr IH]; cbn; [discriminate|].
  destruct (String.eqb k k'); [|exact IH].
  intros H. inversion H. subst. exact Hx.
Qed.

Lemma replace_insertIndex {A} i k (v v0 : A) o :
  assoc k o = None ->
  replace k v (insertIndex i k v0 o) = insertIndex i k v o.
Proof.
  induction o as [|[k' v'] r IH]; cbn.
  - now rewrite String.eqb_refl.
  - destruct (String.eqb k k') eqn:E; [discriminate|]. intros H.
    destruct (arrayIndex k') as [j|].
    + destruct (j <? i)%N; cbn.
      * rewrite E. now rewrite IH.
      * now rewrite String.eqb_refl.
    + cbn. now rewrite String.eqb_refl.
Qed.

Lemma replace_app_new {A} k (v v0 : A) o :
  assoc k o = None -> replace k v (o ++ [(k, v0)]) = o ++ [(k, v)].
Proof.
  induction o as [|[k' v'] r IH]; cbn.
  - now rewrite String.eqb_refl.
  - destruct (String.eqb k k'); [discriminate|]. intros H. now rewrite IH.
Qed.

Lemma dictSet_twice {A} k (v v0 : A) o :
  assoc k o = None -> k <> "__proto__" ->
  dictSet k v (dictSet k v0 o) = dictSet k v o.
Proof.
  intros Ho Hk.
  assert (Hown : hasOwn k (dictSet k v0 o) = true)
    by (unfold hasOwn; now rewrite assoc_dictSet_eq).
  unfold dictSet at 1. rewrite Hown.
  apply String.eqb_neq in Hk. unfold dictSet. rewrite Hk.
  unfold hasOwn. rewrite Ho.
  destruct (arrayIndex k).
  - now apply replace_insertIndex.
  - now apply replace_app_new.
Qed.

Lemma ensure_push_filled k0 record s s' r :
  ledgersFilled s -> isRecord record ->
  pushLedger k0 record (fst (ensureLedger k0 s)) = (s', r) ->
  ledgersFilled s'.
Proof.
  unfold ledgersFilled. intros Hinv Hrec.
  change (Forall (fun kv => filled (snd kv)) (traderHistory s)) in Hinv.
  change (pushLedger k0 record (fst (ensureLedger k0 s)) = (s', r) ->
          Forall (fun kv => filled (snd kv)) (traderHistory s')).
  unfold ensureLedger, modify, pushLedger. cbn [fst].
  destruct (dictGet k0 (traderHistory s)) as [l| |] eqn:E.
  - rewrite E. intros H. inversion H. subst. cbn [traderHistory setTraderHistory].
    apply Forall_dictSet; [assumption|].
    apply dictGet_Own in E.
    destruct (Forall_assoc _ _ _ _ Hinv E) as [_ Hl].
    split; [now destruct l | apply Forall_app; split; [assumption|]].
    constructor; [assumption | constructor].
  - rewrite E. intros H. inversion H. now subst.
  - apply dictGet_Absent in E. destruct E as [E Hk].
    cbn [traderHistory setTraderHistory]. unfold dictGet.
    rewrite assoc_dictSet_eq by assumption.
    intros H. inversion H. subst. cbn [traderHistory setTraderHistory].
    rewrite dictSet_twice by assumption.
    apply Forall_dictSet; [assumption|].
    split; [discriminate|]. constructor; [assumption | constructor].
Qed.

Lemma isRecord_ledgerRecord a b c d e : isRecord (ledgerRecord a b c d e).
Proof. now exists a, b, c, d, e. Qed.

Lemma trackTrader_filled step agent :
  maintains ledgersFilled (trackTrader step agent).
Proof.
  intros s s' r Hinv. unfold trackTrader, bind, lift.
  destruct (getProp agent "name") as [name|e] eqn:Ename;
    [|intros H; inversion H; now subst].
  destruct (toString name) as [k0|e];
    [|intros H; inversion H; now subst].
  pose proof (getProp_ok_defined _ _ _ Ename) as Hdef.
  rewrite !(getProp_defined _ _ Hdef).
  change (ensureLedger k0 s) with (fst (ensureLedger k0 s), Ok tt).
  apply ensure_push_filled; [assumption | apply isRecord_ledgerRecord].
Qed.

Lemma trackTraderHistory_filled decisions step llm :
  defined llm ->
  defined (field llm "manager_decision") ->
  defined (field llm "portfolio") ->
  maintains ledgersFilled (trackTraderHistory decisions step llm).
Proof.
  intros Hllm Hmd Hpf. unfold trackTraderHistory.
  apply maintains_bind;
    [intros s s' r Hinv H; inversion H; now subst | intros agents _].
  apply maintains_bind;
    [apply maintains_forEachM; intros a; apply trackTrader_filled | intros _ _].
  intros s s' r Hinv. unfold bind, lift.
  rewrite !(getProp_defined _ _ Hllm), !(getProp_defined _ _ Hmd),
    !(getProp_defined _ _ Hpf).
  change (ensureLedger "LLM Fund" s)
    with (fst (ensureLedger "LLM Fund" s), Ok tt).
  apply ensure_push_filled; [assumption | apply isRecord_ledgerRecord].
Qed.

Lemma maintains_frame {A} (m : M A) :
  preserves traderHistory m -> maintains ledgersFilled m.
Proof.
  intros Hm. unfold ledgersFilled.
  exact (maintains_preserves traderHistory
           (Forall (fun kv => snd kv <> [] /\ Forall isRecord (snd kv))) m Hm).
Qed.

Lemma updateLLMPipeline_ok llm :
  (exists s s1 u, updateLLMPipeline llm s = (s1, Ok u)) ->
  exists v, showLLM llm = Ok v.
Proof.
  intros (s & s1 & u & H). unfold updateLLMPipeline in H.
  split_lift H val E. now exists val.
Qed.

Lemma update_filled d : maintains ledgersFilled (update d).
Proof.
  intros s s' r Hinv. unfold update.
  destruct (isPaused s); [intros H; inversion H; now subst|].
  assert (M0 : forall m : M unit,
             maintains ledgersFilled m -> m s = (s', r) -> ledgersFilled s')
    by (intros m Hm Hr; exact (Hm _ _ _ Hinv Hr)).
  apply M0. clear M0 Hinv s s' r.
  apply maintains_bind; [apply maintains_frame; frame | intros step _].
  apply maintains_bind; [apply maintains_frame; frame | intros total _].
  apply maintains_bind; [apply maintains_frame; frame | intros _ _].
  apply maintains_bind; [apply maintains_frame; frame | intros _ _].
  apply maintains_bind; [apply maintains_frame; frame | intros _ _].
  apply maintains_bind; [apply maintains_frame; frame | intros price _].
  apply maintains_bind; [apply maintains_frame; frame | intros _ _].
  apply maintains_bind; [apply maintains_frame; frame | intros news _].
  apply maintains_bind; [apply maintains_frame; frame | intros _ _].
  apply maintains_bind; [apply maintains_frame; frame | intros decisions _].
  apply maintains_bind; [apply maintains_frame; frame | intros _ _].
  apply maintains_bind; [apply maintains_frame; frame | intros llm _].
  apply maintains_bind; [apply maintains_frame; frame | intros u Hex].
  destruct (updateLLMPipeline_ok llm) as [v Hv].
  { destruct Hex as (s & s1 & Hex). now exists s, s1, u. }
  destruct (showLLM_defined _ _ Hv) as (Hllm & Hmd & Hpf).
  apply maintains_bind; [apply maintains_frame; frame | intros _ _].
  apply maintains_bind;
    [now apply trackTraderHistory_filled | intros _ _].
  apply maintains_frame. frame.
Qed.

Lemma handle_filled e : maintains ledgersFilled (handle e).
Proof.
  destruct e; cbn [handle].
  - apply maintains_frame. unfold initCharts. frame.
  - intros s s' r _ H. unfold startClick, bind, modify in H.
    inversion H. subst. constructor.
  - apply maintains_frame. unfold pauseClick. frame.
  - apply maintains_frame. frame.
  - apply update_filled.
  - apply maintains_frame. frame.
Qed.

Lemma run_filled es : forall s, ledgersFilled s -> ledgersFilled (run es s).
Proof.
  induction es as [|e r IH]; intros s Hinv; [exact Hinv|].
  cbn [run]. apply IH.
  destruct (handle e s) as [s1 res] eqn:E.
  exact (handle_filled e _ _ _ Hinv E).
Qed.

Lemma Forall_last {A} (P : A -> Prop) (l : list A) d :
  l <> [] -> Forall P l -> P (last l d).
Proof.
  intros Hne Hl. induction Hl as [|x r Hx Hr IH]; [now elim Hne|].
  destruct r as [|y r']; [exact Hx|].
  apply IH. discriminate.
Qed.

Lemma isRecord_value v : isRecord v -> getProp v "value" = Ok (field v "value").
Proof.
  intros (a & b & c & d & e & ->). reflexivity.
Qed.

(** C10. Whatever events have been handled since the script was loaded
    (start, pause, updates on any payload, whether they are accepted or
    raise, completion with or without a history), every name listed in the
    trader ledgers has a non-empty sequence of records: its first and its
    last record exist and their values can be read, as the summary of the
    trader tab needs. *)
Theorem ledgers_never_empty (es : list event) :
  ledgersFilled (run es loaded) /\
  forall name history,
    In (name, history) (traderHistory (run es loaded)) ->
    history <> [] /\
    isRecord (hd VUndef history) /\
    isRecord (last history VUndef) /\
    getProp (hd VUndef history) "value"
      = Ok (field (hd VUndef history) "value") /\
    getProp (last history VUndef) "value"
      = Ok (field (last history VUndef) "value").
Proof.
  assert (Hinv : ledgersFilled (run es loaded))
    by (apply run_filled; constructor).
  split; [exact Hinv|].
  intros name history Hin.
  unfold ledgersFilled in Hinv. rewrite Forall_forall in Hinv.
  destruct (Hinv _ Hin) as [Hne Hrec]. cbn [snd] in Hne, Hrec.
  assert (Hfirst : isRecord (hd VUndef history)).
  { destruct history as [|h r]; [now elim Hne|]. now inversion Hrec. }
  assert (Hlast : isRecord (last history VUndef))
    by (now apply Forall_last).
  repeat split; try assumption; now apply isRecord_value.
Qed.

(** ** C2: payloads with missing fields *)

Lemma update_pushes o s l :
  isPaused s = false ->
  simulationHistory s = VArr l ->
  shown (field (VObj o) "step") = Ok tt ->
  shown (field (VObj o) "total_steps") = Ok tt ->
  update (VObj o) s =
  afterPush (VObj o) (setSimulationHistory (VArr (l ++ [VObj o])) s).
Proof.
  intros Hp Hh Hstep Htotal.
  unfold update, afterPush. rewrite Hp.
  unfold bind at 1 2 3 4 5 6. unfold lift at 1 2 3 4 5.
  change (getProp (VObj o) "step") with (Ok (field (VObj o) "step")).
  change (getProp (VObj o) "total_steps") with (Ok (field (VObj o) "total_steps")).
  change (getProp (VObj o) "price") with (Ok (field (VObj o) "price")).
  cbv iota beta. rewrite Hstep, Htotal. cbv iota beta.
  unfold pushHistory. rewrite Hh. reflexivity.
Qed.

Lemma updatePriceChart_returns price step s u :
  shown step = Ok u -> snd (updatePriceChart price step s) = Ok tt.
Proof.
  intros Hs. unfold updatePriceChart.
  destruct (priceChart s) as [[ls ps]|]; [|reflexivity].
  destruct (isPaused s); [reflexivity|].
  rewrite (shown_ok _ _ Hs).
  destruct (30 <? _)%nat; reflexivity.
Qed.


(** ** C3: the rolling price window *)






Lemma update_enters d s l :
  defined d ->
  isPaused s = false ->
  simulationHistory s = VArr l ->
  shown (field d "step") = Ok tt ->
  shown (field d "total_steps") = Ok tt ->
  update d s = afterPush d (setSimulationHistory (VArr (l ++ [d])) s).
Proof.
  intros Hd Hp Hh Hstep Htotal.
  unfold update, afterPush. rewrite Hp.
  unfold bind at 1 2 3 4 5 6. unfold lift at 1 2 3 4 5.
  rewrite !(getProp_defined _ _ Hd).
  cbv iota beta. rewrite Hstep, Htotal. cbv iota beta.
  unfold pushHistory. rewrite Hh. reflexivity.
Qed.

(** An update of a store that is not paused either raises before it has
    written anything, or its step has a text, the payload is appended to
    the history, and the handler goes on. *)
Lemma update_raises_or_enters d s :
  isPaused s = false ->
  update d s = (s, Throw TypeError) \/
  exists l, simulationHistory s = VArr l /\
            shown (field d "step") = Ok tt /\
            update d s = afterPush d (setSimulationHistory (VArr (l ++ [d])) s).
Proof.
  intros Hp.
  assert (Hcase : defined d \/ ~ defined d) by (destruct d; cbn; tauto).
  destruct Hcase as [Hd|Hd].
  - destruct (shown (field d "step")) as [[]|[]] eqn:Hstep.
    + destruct (shown (field d "total_steps")) as [[]|[]] eqn:Htotal.
      * destruct (simulationHistory s) as [| | | | |l|] eqn:Hh;
          try (left; unfold update; rewrite Hp;
               unfold bind at 1 2 3 4 5; unfold lift at 1 2 3 4;
               rewrite !(getProp_defined _ _ Hd);
               cbv iota beta; rewrite Hstep, Htotal; cbv iota beta;
               unfold pushHistory; rewrite Hh; reflexivity).
        right. exists l. split; [reflexivity|]. split; [reflexivity|].
        now apply update_enters.
      * left. unfold update. rewrite Hp.
        unfold bind at 1 2 3 4. unfold lift at 1 2 3 4.
        rewrite !(getProp_defined _ _ Hd).
        cbv iota beta. rewrite Hstep, Htotal. reflexivity.
    + left. unfold update. rewrite Hp.
      unfold bind at 1 2 3. unfold lift at 1 2 3.
      rewrite !(getProp_defined _ _ Hd).
      cbv iota beta. rewrite Hstep. reflexivity.
  - left. unfold update. rewrite Hp.
    destruct d; try (elim Hd; exact I); reflexivity.
Qed.





(** ** C8: the history filter *)

Lemma renderSteps_select filter searchTerm (sel : nat * value -> bool) :
  (forall index step, renderable step ->
     renderStep filter searchTerm index step =
     Ok (if sel (index, step) then Some (viewOf (index, step)) else None)) ->
  forall l index, Forall renderable l ->
    renderSteps filter searchTerm index l =
    (map viewOf (List.filter sel (combine (seq index (List.length l)) l)), Ok tt).
Proof.
  intros Hsel. induction l as [|step r IH]; intros index Hl; [reflexivity|].
  inversion Hl as [|? ? Hstep Hr]. subst.
  cbn [renderSteps List.length seq combine List.filter].
  rewrite (Hsel _ _ Hstep), (IH (S index) Hr).
  destruct (sel (index, step)); reflexivity.
Qed.

Lemma viewOf_ok index step v : viewStep index step = Ok v -> viewOf (index, step) = v.
Proof. unfold viewOf. cbn [fst snd]. now intros ->. Qed.

Lemma renderStep_all searchTerm index step :
  renderable step ->
  renderStep "all" searchTerm index step = Ok (Some (viewOf (index, step))).
Proof.
  intros [_ Hview]. destruct (Hview index) as [v Hv].
  unfold renderStep. cbn [String.eqb Ascii.eqb Bool.eqb andb rbind].
  rewrite Hv. cbn [rbind]. now rewrite (viewOf_ok _ _ _ Hv).
Qed.




Lemma digitsPrefix_stop rest acc :
  noDigitAhead rest -> digitsPrefix 10 rest acc = acc.
Proof.
  destruct rest as [|c r]; [reflexivity|].
  cbn [noDigitAhead digitsPrefix]. now intros ->.
Qed.

(** Reading the decimal digits written for a number gives the number. *)
Lemma digitsPrefix_uint u : forall acc rest,
  noDigitAhead rest ->
  digitsPrefix 10 (NilEmpty.string_of_uint u +++ rest) (Some (Npos acc))
  = Some (Npos (Pos.of_uint_acc u acc)).
Proof.
  induction u as [|u IH|u IH|u IH|u IH|u IH|u IH|u IH|u IH|u IH|u IH];
    intros acc rest Hrest;
    cbn [NilEmpty.string_of_uint String.append Pos.of_uint_acc];
    [now apply digitsPrefix_stop|..];
    cbn [digitsPrefix];
    match goal with
    |- context [digitValue 10 ?c] =>
        let v := eval vm_compute in (digitValue 10 c) in
        change (digitValue 10 c) with v
    end;
    cbv iota beta;
    match goal with
    |- digitsPrefix 10 _ (Some ?a) = Some (Npos (Pos.of_uint_acc u ?b)) =>
        replace a with (Npos b) by lia
    end;
    now apply IH.
Qed.

Lemma parseInt_decimal p rest :
  noDigitAhead rest ->
  parseInt (decimal (Npos p) +++ rest) = num_of_Z (Zpos p).
Proof.
  intros Hrest. unfold decimal.
  pose proof (DecimalN.Unsigned.of_to (Npos p)) as Hof.
  pose proof (DecimalN.Unsigned.to_of (N.to_uint (Npos p))) as Hnorm.
  rewrite Hof in Hnorm.
  pose proof (DecimalPos.Unsigned.to_uint_nonzero p) as Hnz.
  change (N.to_uint (Npos p)) with (Pos.to_uint p) in *.
  unfold N.of_uint in Hof.
  destruct (Pos.to_uint p) as [|u|u|u|u|u|u|u|u|u|u] eqn:Eu;
    [ discriminate Hof
    | exfalso; unfold Decimal.unorm in Hnorm;
      pose proof (DecimalFacts.nzhead_nonzero (Decimal.D0 u)) as Hh;
      destruct (Decimal.nzhead (Decimal.D0 u)) eqn:En;
      try discriminate Hnorm; [exact (Hnz Hnorm) | exact (Hh _ eq_refl)]
    | .. ];
    cbn [Pos.of_uint] in Hof; inversion Hof as [Hacc];
    unfold NilZero.string_of_uint;
    cbn [NilEmpty.string_of_uint String.append];
    unfold parseInt; cbn [trimStart];
    match goal with
    |- context [isWhiteSpace ?c] => change (isWhiteSpace c) with false
    end;
    cbv iota; cbn [digitsPrefix];
    match goal with
    |- context [digitValue 10 ?c] =>
        let v := eval vm_compute in (digitValue 10 c) in
        change (digitValue 10 c) with v
    end;
    cbv iota beta;
    rewrite (digitsPrefix_uint u _ rest Hrest); now rewrite Hacc.
Qed.

Lemma numStrictEq_Z a b : numStrictEq (num_of_Z a) (num_of_Z b) = (a =? b)%Z.
Proof.
  unfold numStrictEq, num_of_Z.
  destruct (Z.eqb_spec a b) as [->|Hne].
  - apply Qeq_bool_iff. reflexivity.
  - destruct (Qeq_bool (inject_Z a) (inject_Z b)) eqn:E; [|reflexivity].
    apply Qeq_bool_iff in E. elim Hne. now apply inject_Z_injective.
Qed.


(** ** C9: writing the export and reading it back *)

Lemma numChar_facts c :
  isNumChar c = true ->
  isJsonSpace c = false /\ Ascii.eqb c doubleQuote = false /\
  Ascii.eqb c "[" = false /\ Ascii.eqb c "{" = false /\
  Ascii.eqb c "]" = false /\ Ascii.eqb c "}" = false.
Proof.
  destruct c as [[] [] [] [] [] [] [] []]; vm_compute; intros H;
    try discriminate H; repeat split.
Qed.

Lemma quoteChar_parse c t acc :
  parseStringBody (quoteChar c ++ t) acc = parseStringBody t (acc ++ [c]).
Proof. destruct c as [[] [] [] [] [] [] [] []]; reflexivity. Qed.

Lemma parseStringBody_quote cs : forall acc rest,
  parseStringBody (flat_map quoteChar cs ++ doubleQuote :: rest) acc
  = Some (string_of_list_ascii (acc ++ cs), rest).
Proof.
  induction cs as [|c r IH]; intros acc rest.
  - cbn. now rewrite app_nil_r.
  - cbn [flat_map]. rewrite <- app_assoc, quoteChar_parse, IH.
    now rewrite <- app_assoc.
Qed.

Lemma parse_quoted s rest :
  parseStringBody (tl (quoteJSONString s) ++ rest) [] = Some (s, rest).
Proof.
  unfold quoteJSONString. cbn [tl]. rewrite <- app_assoc. cbn [app].
  rewrite parseStringBody_quote. cbn [app].
  now rewrite string_of_list_ascii_of_string.
Qed.

Lemma skipSpace_newline k t : skipSpace (newline k ++ t) = skipSpace t.
Proof.
  unfold newline. cbn. induction k as [|k IH]; [reflexivity | exact IH].
Qed.

Lemma skipSpace_head c t : isJsonSpace c = false -> skipSpace (c :: t) = c :: t.
Proof. intros H. cbn. now rewrite H. Qed.

Lemma spanNumber_app tok rest :
  forallb isNumChar tok = true -> stops rest ->
  spanNumber (tok ++ rest) = (tok, rest).
Proof.
  intros Htok Hrest. induction tok as [|c r IH].
  - destruct rest as [|c r]; [reflexivity|]. cbn in *. now rewrite Hrest.
  - cbn in *. apply andb_prop in Htok. destruct Htok as [Hc Hr].
    rewrite Hc, (IH Hr). reflexivity.
Qed.

Lemma parseValue_newline fuel k t :
  parseValue fuel (newline k ++ t) = parseValue fuel t.
Proof. destruct fuel; [reflexivity|]. cbn [parseValue]. now rewrite skipSpace_newline. Qed.

Lemma parseValue_space fuel t :
  parseValue fuel (space :: t) = parseValue fuel t.
Proof. destruct fuel; reflexivity. Qed.

Lemma jsonValue_arr l : jsonValue (VArr l) <-> Forall jsonValue l.
Proof.
  cbn [jsonValue]. induction l as [|x r IH].
  - split; [constructor | exact (fun _ => I)].
  - split.
    + intros [Hx Hr]. constructor; [exact Hx | now apply IH].
    + intros H. inversion H. subst. split; [assumption | now apply IH].
Qed.

Lemma jsonValue_obj o :
  jsonValue (VObj o) <->
  built o = o /\ Forall (fun kv => jsonValue (snd kv)) o.
Proof.
  cbn [jsonValue].
  assert (H : (fix all (o0 : dict value) : Prop :=
                 match o0 with
                 | [] => True
                 | kv :: r => jsonValue (snd kv) /\ all r
                 end) o <-> Forall (fun kv => jsonValue (snd kv)) o).
  { induction o as [|x r IH].
    - split; [constructor | exact (fun _ => I)].
    - split.
      + intros [Hx Hr]. constructor; [exact Hx | now apply IH].
      + intros H. inversion H. subst. split; [assumption | now apply IH]. }
  now rewrite H.
Qed.

Lemma serialize_some v indent :
  jsonValue v -> exists t, serialize indent v = Some t.
Proof.
  destruct v as [| |[]|[q| | |]|s|l|o]; cbn [jsonValue serialize]; intros H;
    try (now destruct H); eexists; reflexivity.
Qed.

Lemma partOf_some v indent t : serialize indent v = Some t -> partOf indent v = t.
Proof. unfold partOf. now intros ->. Qed.

(** A serialized value starts with a character that is neither a space nor
    a closing bracket. *)
Lemma serialize_head v indent t :
  jsonValue v -> serialize indent v = Some t ->
  exists c t', t = c :: t' /\ isJsonSpace c = false /\
               Ascii.eqb c "]" = false /\ Ascii.eqb c "}" = false.
Proof.
  destruct v as [| |[]|[q| | |]|s|l|o]; cbn [jsonValue serialize]; intros Hv H;
    try (now destruct Hv); inversion H; subst; clear H.
  - eexists _, _. repeat split.
  - eexists _, _. repeat split.
  - eexists _, _. repeat split.
  - destruct Hv as [Hchars Hdec].
    destruct (literal (numToString (Fin q))) as [|c r]; [discriminate Hdec|].
    cbn [forallb] in Hchars. apply andb_prop in Hchars.
    destruct Hchars as [Hc _].
    destruct (numChar_facts c Hc) as (H1 & _ & _ & _ & H5 & H6).
    now exists c, r.
  - eexists _, _. repeat split.
  - unfold wrapParts. destruct (map _ l); eexists _, _; repeat split.
  - unfold wrapParts. destruct (flat_map _ o); eexists _, _; repeat split.
Qed.

Lemma length_newline k t : List.length (newline k ++ t) = S k + List.length t.
Proof. unfold newline. cbn. now rewrite length_app, repeat_length. Qed.

Lemma stops_newline k t : stops (newline k ++ t).
Proof. reflexivity. Qed.

Lemma parseElements_parts f (IHf : roundTrips f) i j rest : forall l x acc n,
  Forall jsonValue (x :: l) -> n <= f ->
  List.length (newline j ++ joinWith (","%char :: newline j) (map (partOf j) (x :: l))
               ++ newline i ++ "]"%char :: rest) < n ->
  parseElements (parseValue f) n
    (newline j ++ joinWith (","%char :: newline j) (map (partOf j) (x :: l))
     ++ newline i ++ "]"%char :: rest) acc
  = Some (VArr (acc ++ x :: l), rest).
Proof.
  induction l as [|y l' IH]; intros x acc n Hall Hn Hlen;
    (destruct n as [|n']; [cbn in Hlen; lia|]);
    inversion Hall as [|? ? Hx Hrest]; subst;
    destruct (serialize_some x j Hx) as [tx Etx];
    rewrite length_newline in Hlen;
    cbn [parseElements]; rewrite parseValue_newline.
  - cbn [map joinWith] in *. rewrite (partOf_some _ _ _ Etx) in *.
    rewrite (IHf x j _ tx Hx); [| lia | exact Etx | apply stops_newline].
    rewrite skipSpace_newline. reflexivity.
  - cbn [map joinWith] in *. rewrite (partOf_some _ _ _ Etx) in *.
    rewrite <- !app_assoc in *. cbn [app] in *.
    rewrite (IHf x j _ tx Hx);
      [| rewrite length_app in *; cbn [List.length] in *; lia
       | exact Etx | reflexivity].
    cbn [skipSpace isJsonSpace]. change (isJsonSpace ","%char) with false.
    cbv iota. change (Ascii.eqb ","%char ","%char) with true. cbv iota.
    rewrite (IH y (acc ++ [x]) n' Hrest); [| lia |].
    + now rewrite <- app_assoc.
    + rewrite length_app in Hlen. cbn [List.length] in Hlen.
      cbn [map]. lia.
Qed.

Lemma quoted_cons s t :
  quoteJSONString s ++ t = doubleQuote :: (tl (quoteJSONString s) ++ t).
Proof. reflexivity. Qed.

Lemma parseMembers_parts f (IHf : roundTrips f) i j rest : forall o kv acc n,
  Forall (fun kv => jsonValue (snd kv)) (kv :: o) -> n <= f ->
  List.length (newline j ++ joinWith (","%char :: newline j) (map (memberOf j) (kv :: o))
               ++ newline i ++ "}"%char :: rest) < n ->
  parseMembers (parseValue f) n
    (newline j ++ joinWith (","%char :: newline j) (map (memberOf j) (kv :: o))
     ++ newline i ++ "}"%char :: rest) acc
  = Some (VObj (fold_left (fun a kv => defineOwn (fst kv) (snd kv) a) (kv :: o) acc),
          rest).
Proof.
  induction o as [|kv' o' IH]; intros [k x] acc n Hall Hn Hlen;
    (destruct n as [|n']; [cbn in Hlen; lia|]);
    inversion Hall as [|? ? Hx Hrest]; subst; cbn [snd] in Hx;
    destruct (serialize_some x j Hx) as [tx Etx];
    rewrite length_newline in Hlen;
    cbn [parseMembers]; rewrite skipSpace_newline;
    cbn [map joinWith] in *; unfold memberOf at 1 in Hlen; unfold memberOf at 1;
    cbn [fst snd] in *; rewrite (partOf_some _ _ _ Etx) in *;
    rewrite <- !app_assoc in *; rewrite quoted_cons in *;
    rewrite (skipSpace_head doubleQuote) by reflexivity;
    rewrite Ascii.eqb_refl, parse_quoted;
    cbn [app] in *;
    rewrite (skipSpace_head ":"%char) by reflexivity;
    rewrite Ascii.eqb_refl, parseValue_space.
  - rewrite (IHf x j _ tx Hx);
      [| cbn [List.length] in Hlen; rewrite length_app in Hlen;
         cbn [List.length] in Hlen; lia
       | exact Etx | apply stops_newline].
    rewrite skipSpace_newline. reflexivity.
  - rewrite (IHf x j _ tx Hx);
      [| cbn [List.length] in Hlen; rewrite length_app in Hlen;
         cbn [List.length] in Hlen; lia
       | exact Etx | reflexivity].
    rewrite (skipSpace_head ","%char) by reflexivity.
    rewrite Ascii.eqb_refl.
    rewrite (IH kv' (defineOwn k x acc) n' Hrest); [reflexivity | lia |].
    cbn [List.length] in Hlen. rewrite length_app in Hlen.
    cbn [List.length] in Hlen. rewrite length_app in Hlen.
    cbn [List.length] in Hlen. cbn [map]. lia.
Qed.

Lemma wrapParts_cons open close indent p ps rest :
  wrapParts open close indent (p :: ps) ++ rest
  = open :: (newline (indent + 2)
             ++ joinWith (","%char :: newline (indent + 2)) (p :: ps)
             ++ newline indent ++ close :: rest).
Proof.
  unfold wrapParts. cbn [app]. f_equal. rewrite <- !app_assoc. reflexivity.
Qed.

Lemma joinWith_head sep p ps t :
  exists t', joinWith sep (p :: ps) ++ t = p ++ t'.
Proof.
  destruct ps as [|q r]; cbn [joinWith].
  - now exists t.
  - exists (sep ++ joinWith sep (q :: r) ++ t). now rewrite <- !app_assoc.
Qed.

Lemma flat_map_members indent o :
  Forall (fun kv => jsonValue (snd kv)) o ->
  flat_map (fun kv => match serialize indent (snd kv) with
                      | Some t => [quoteJSONString (fst kv) ++ ":"%char :: space :: t]
                      | None => []
                      end) o
  = map (memberOf indent) o.
Proof.
  induction 1 as [|[k x] r Hx Hr IH]; [reflexivity|].
  cbn [flat_map map]. rewrite IH. cbn [fst snd] in *.
  destruct (serialize_some x indent Hx) as [t Et].
  unfold memberOf, partOf. cbn [fst snd]. rewrite Et. reflexivity.
Qed.

Lemma serialize_arr indent l :
  serialize indent (VArr l)
  = Some (wrapParts "[" "]" indent (map (partOf (indent + 2)) l)).
Proof. reflexivity. Qed.

Lemma serialize_obj indent o :
  serialize indent (VObj o)
  = Some (wrapParts "{" "}" indent
            (flat_map (fun kv => match serialize (indent + 2) (snd kv) with
                                 | Some t =>
                                     [quoteJSONString (fst kv)
                                      ++ ":"%char :: space :: t]
                                 | None => []
                                 end) o)).
Proof. reflexivity. Qed.

Lemma Some_eq {A} (x y : A) : Some x = Some y -> x = y.
Proof. intros H. now inversion H. Qed.

Lemma Some_eq_Ok {A} (x y : A) : Ok x = Ok y -> y = x.
Proof. intros H. now inversion H. Qed.

Lemma roundTrips_all : forall f, roundTrips f.
Proof.
  induction f as [|f IHf]; intros v indent rest t Hv Hlen Hser Hrest; [lia|].
  destruct v as [| |[]|[q| | |]|s|l|o];
    try (now destruct Hv);
    try rewrite serialize_arr in Hser; try rewrite serialize_obj in Hser;
    apply Some_eq in Hser; subst t.
  - reflexivity.
  - reflexivity.
  - reflexivity.
  - destruct Hv as [Hchars Hdec].
    destruct (literal (numToString (Fin q))) as [|c r] eqn:E;
      [discriminate Hdec|].
    pose proof Hchars as Hc. cbn [forallb] in Hc. apply andb_prop in Hc.
    destruct Hc as [Hc _].
    destruct (numChar_facts c Hc) as (H1 & H2 & H3 & H4 & _ & _).
    cbn [parseValue app]. rewrite (skipSpace_head c) by exact H1.
    rewrite H2, H3, H4. unfold parseScalar. rewrite Hc.
    change (c :: r ++ rest) with ((c :: r) ++ rest).
    rewrite (spanNumber_app _ _ Hchars Hrest), Hdec. reflexivity.
  - rewrite quoted_cons. cbn [parseValue].
    rewrite (skipSpace_head doubleQuote) by reflexivity.
    rewrite Ascii.eqb_refl, parse_quoted. reflexivity.
  - apply jsonValue_arr in Hv.
    destruct l as [|x l']; [reflexivity|].
    cbn [map] in *. rewrite wrapParts_cons in *.
    cbn [parseValue]. rewrite (skipSpace_head "["%char) by reflexivity.
    change (Ascii.eqb "["%char doubleQuote) with false.
    change (Ascii.eqb "["%char "["%char) with true. cbv iota.
    assert (Hs : exists c r', skipSpace (newline (indent + 2)
                   ++ joinWith (","%char :: newline (indent + 2))
                        (partOf (indent + 2) x :: map (partOf (indent + 2)) l')
                   ++ newline indent ++ "]"%char :: rest) = c :: r'
                 /\ Ascii.eqb c "]" = false).
    { rewrite skipSpace_newline.
      destruct (joinWith_head (","%char :: newline (indent + 2))
                  (partOf (indent + 2) x) (map (partOf (indent + 2)) l')
                  (newline indent ++ "]"%char :: rest)) as [t' ->].
      inversion Hv as [|? ? Hx _]. subst.
      destruct (serialize_some x (indent + 2) Hx) as [tx Etx].
      rewrite (partOf_some _ _ _ Etx).
      destruct (serialize_head _ _ _ Hx Etx) as (c & r' & -> & Hsp & Hbr & _).
      exists c, (r' ++ t'). cbn [app]. now rewrite (skipSpace_head c). }
    destruct Hs as (c & r' & -> & ->).
    apply (parseElements_parts f IHf indent (indent + 2) rest l' x [] f Hv);
      [lia|]. cbn [List.length map] in *. lia.
  - apply jsonValue_obj in Hv. destruct Hv as [Hbuilt Hv].
    rewrite (flat_map_members _ _ Hv) in *.
    destruct o as [|kv o']; [reflexivity|].
    cbn [map] in *. rewrite wrapParts_cons in *.
    cbn [parseValue]. rewrite (skipSpace_head "{"%char) by reflexivity.
    change (Ascii.eqb "{"%char doubleQuote) with false.
    change (Ascii.eqb "{"%char "["%char) with false.
    change (Ascii.eqb "{"%char "{"%char) with true. cbv iota.
    assert (Hs : exists r', skipSpace (newline (indent + 2)
                   ++ joinWith (","%char :: newline (indent + 2))
                        (memberOf (indent + 2) kv :: map (memberOf (indent + 2)) o')
                   ++ newline indent ++ "}"%char :: rest) = doubleQuote :: r').
    { rewrite skipSpace_newline.
      destruct (joinWith_head (","%char :: newline (indent + 2))
                  (memberOf (indent + 2) kv) (map (memberOf (indent + 2)) o')
                  (newline indent ++ "}"%char :: rest)) as [t' ->].
      unfold memberOf. rewrite <- app_assoc, quoted_cons.
      eexists. now rewrite (skipSpace_head doubleQuote). }
    destruct Hs as (r' & ->).
    change (Ascii.eqb doubleQuote "}"%char) with false. cbv iota.
    pose proof (parseMembers_parts f IHf indent (indent + 2) rest o' kv [] f Hv)
      as R.
    cbn [map] in R. rewrite R; [| lia | cbn [List.length] in Hlen; lia].
    unfold built in Hbuilt. now rewrite Hbuilt.
Qed.

Lemma jsonParse_stringify v t :
  jsonValue v -> jsonStringify v = Some t -> jsonParse t = Some v.
Proof.
  unfold jsonStringify, jsonParse. intros Hv H.
  destruct (serialize 0 v) as [tx|] eqn:E; [|discriminate H].
  cbn [option_map] in H. inversion H. subst t. clear H.
  rewrite list_ascii_of_string_of_list_ascii.
  pose proof (roundTrips_all (S (List.length tx)) v 0 [] tx Hv) as R.
  rewrite app_nil_r in R. rewrite R; [reflexivity | lia | exact E | exact I].
Qed.

Lemma jsonStringify_some v :
  jsonValue v -> exists t, jsonStringify v = Some t.
Proof.
  intros Hv. unfold jsonStringify.
  destruct (serialize_some v 0 Hv) as [t ->]. now eexists.
Qed.

(** ** What the export writes of any value *)

Lemma value_nested_ind (P : value -> Prop) :
  P VUndef -> P VNull -> (forall b, P (VBool b)) -> (forall n, P (VNum n)) ->
  (forall s, P (VStr s)) ->
  (forall l, Forall P l -> P (VArr l)) ->
  (forall o, Forall (fun kv => P (snd kv)) o -> P (VObj o)) ->
  forall v, P v.
Proof.
  intros H1 H2 H3 H4 H5 Harr Hobj. fix IH 1.
  intros [| |b|n|s|l|o];
    [exact H1 | exact H2 | apply H3 | apply H4 | apply H5 | |].
  - apply Harr. induction l as [|x r IHr]; constructor; [apply IH | exact IHr].
  - apply Hobj. induction o as [|[k x] r IHr]; constructor;
      [apply IH | exact IHr].
Qed.

(** The text of a value is the text of what is written of it. *)
Lemma serialize_written v :
  forall indent, serialize indent (written v) = serialize indent v.
Proof.
  induction v as [| |b|n|s|l Hl|o Ho] using value_nested_ind; intros indent;
    try reflexivity.
  - destruct n; reflexivity.
  - cbn [written]. rewrite !serialize_arr. do 2 f_equal.
    rewrite map_map.
    induction Hl as [|x r Hx Hr IH]; [reflexivity|].
    cbn [map]. f_equal; [|exact IH].
    destruct x; try reflexivity;
      unfold writtenElement, partOf; now rewrite Hx.
  - cbn [written]. rewrite !serialize_obj. do 2 f_equal.
    induction Ho as [|[k x] r Hx Hr IH]; [reflexivity|].
    cbn [flat_map]. rewrite flat_map_app, IH. f_equal.
    cbn [snd] in Hx.
    destruct x; try reflexivity;
      unfold writtenMember; cbn [snd fst flat_map];
      rewrite Hx, app_nil_r; reflexivity.
Qed.

(** Of a JSON value everything is written. *)
Lemma written_json v : jsonValue v -> written v = v.
Proof.
  induction v as [| |b|n|s|l Hl|o Ho] using value_nested_ind; intros Hv;
    try reflexivity.
  - destruct n; try reflexivity; destruct Hv.
  - apply jsonValue_arr in Hv. cbn [written]. f_equal.
    induction Hl as [|x r Hx Hr IH]; [reflexivity|].
    inversion Hv as [|? ? Hjx Hjr]. subst.
    cbn [map]. rewrite (IH Hjr). f_equal.
    destruct x; try (now destruct Hjx); unfold writtenElement; now apply Hx.
  - apply jsonValue_obj in Hv. destruct Hv as [_ Hv]. cbn [written]. f_equal.
    induction Ho as [|[k x] r Hx Hr IH]; [reflexivity|].
    inversion Hv as [|? ? Hjx Hjr]. subst. cbn [snd] in *.
    cbn [flat_map]. rewrite (IH Hjr).
    destruct x; try (now destruct Hjx); unfold writtenMember;
      cbn [snd fst app]; now rewrite (Hx Hjx).
Qed.

Lemma written_member k x :
  jsonValue x -> writtenMember written (k, x) = [(k, x)].
Proof.
  intros Hx. unfold writtenMember. cbn [snd fst].
  rewrite (written_json x Hx). destruct x; try reflexivity. destruct Hx.
Qed.

(** When what is written of a value is a JSON value, the text of the value
    reads back as what is written of it. *)
Lemma reads_back_written v :
  jsonValue (written v) ->
  exists t, jsonStringify v = Some t /\ jsonParse t = Some (written v).
Proof.
  intros Hv. destruct (jsonStringify_some _ Hv) as [t Et].
  exists t. split.
  - unfold jsonStringify in *. now rewrite <- serialize_written.
  - now apply jsonParse_stringify.
Qed.

Lemma assoc_ledgersValue k (t : dict (list value)) :
  assoc k (map (fun kv => (fst kv, VArr (snd kv))) t)
  = option_map VArr (assoc k t).
Proof.
  induction t as [|[k' l] r IH]; [reflexivity|].
  cbn [map assoc fst snd]. destruct (String.eqb k k'); [reflexivity | exact IH].
Qed.

(** ** Well-formed payloads are accepted *)

Lemma succeeds_bind {A B} h (m : M A) (k : A -> M B) :
  succeeds h m -> (forall a, succeeds h (k a)) -> succeeds h (bind m k).
Proof.
  intros Hm Hk s Hs. destruct (Hm s Hs) as (a & s1 & E & Hs1).
  destruct (Hk a s1 Hs1) as (b & s' & E' & Hs').
  exists b, s'. unfold bind. rewrite E. split; assumption.
Qed.

Lemma succeeds_let {A B} h (r : result A) a (k : A -> M B) :
  r = Ok a -> succeeds h (k a) -> succeeds h (bind (lift r) k).
Proof. intros -> Hk s Hs. exact (Hk s Hs). Qed.

Lemma succeeds_returns {A} h (m : M A) :
  (forall s, exists a, snd (m s) = Ok a) ->
  preserves simulationHistory m -> succeeds h m.
Proof.
  intros Hr Hp s Hs. destruct (Hr s) as [a Ha].
  destruct (m s) as [s' r] eqn:E. cbn [snd] in Ha. subst r.
  exists a, s'. split; [reflexivity|]. now rewrite (Hp _ _ _ E).
Qed.

Lemma succeeds_forEachM {A} h (k : A -> M unit) l :
  Forall (fun a => succeeds h (k a)) l -> succeeds h (forEachM k l).
Proof.
  induction 1 as [|x r Hx Hr IH]; cbn [forEachM].
  - intros s Hs. now exists tt, s.
  - apply succeeds_bind; [exact Hx | intros _; exact IH].
Qed.

Lemma succeeds_updateComparisonChart h : succeeds h updateComparisonChart.
Proof.
  apply succeeds_returns; [|frame].
  intros s. exists tt. unfold updateComparisonChart.
  now destruct (comparisonChart s).
Qed.

Lemma succeeds_updateActionsChart h : succeeds h updateActionsChart.
Proof.
  apply succeeds_returns; [|frame].
  intros s. exists tt. unfold updateActionsChart.
  now destruct (actionsChart s).
Qed.

Lemma succeeds_updateAgent h d : succeeds h (updateAgent (encodeDecision d)).
Proof.
  apply succeeds_returns; [|frame].
  intros s. exists tt.
  now apply (updateAgent_returns (encodeDecision d) s (dName d)).
Qed.

Lemma succeeds_updateAgents h ds :
  succeeds h (updateAgents (VArr (map encodeDecision ds))).
Proof.
  unfold updateAgents.
  apply (succeeds_let h _ (map encodeDecision ds)); [reflexivity|].
  apply succeeds_bind.
  - apply succeeds_forEachM. rewrite Forall_map.
    apply Forall_forall. intros d _. apply succeeds_updateAgent.
  - intros _. apply succeeds_bind;
      [apply succeeds_updateComparisonChart
      | intros _; apply succeeds_updateActionsChart].
Qed.

Lemma showRisks_encode rs : forEachR showRisk (map encodeRisk rs) = Ok tt.
Proof. induction rs as [|r rs IH]; [reflexivity|]. cbn. exact IH. Qed.

Lemma showLLM_encode l : showLLM (encodeLLM l) = Ok (VNum (lValue l)).
Proof.
  destruct l as [b1 b2 [[stance txt]|] pa ps pr rs ap fa fs cm c p v];
    unfold showLLM, encodeLLM; cbn; now rewrite showRisks_encode.
Qed.

Lemma succeeds_updateLLMPipeline h l :
  succeeds h (updateLLMPipeline (encodeLLM l)).
Proof.
  unfold updateLLMPipeline.
  apply (succeeds_let h _ (VNum (lValue l))); [apply showLLM_encode|].
  apply succeeds_bind;
    [| intros _; apply succeeds_updateComparisonChart].
  apply succeeds_returns; [|frame]. intros s. now exists tt.
Qed.

Lemma updatePortfolioStats_encode ds l price :
  updatePortfolioStats (VArr ds) (encodeLLM l) (VNum price) = Ok tt.
Proof.
  destruct l as [b1 b2 [[stance txt]|] pa ps pr rs ap fa fs cm c p v];
    reflexivity.
Qed.

Lemma dictGet_not_inherited {A} k (o : dict A) :
  inherited k = false -> dictGet k o <> Inherited.
Proof.
  unfold dictGet. intros H. destruct (assoc k o); [discriminate|].
  now rewrite H.
Qed.

(** A ledger is opened if needed and the record pushed, under a name that
    is not inherited. *)
Lemma succeeds_ensure_push h k record :
  inherited k = false ->
  succeeds h (ensureLedger k ;; pushLedger k record).
Proof.
  intros Hk. apply succeeds_returns.
  - intros s. exists tt. unfold bind, ensureLedger, modify, pushLedger.
    destruct (dictGet k (traderHistory s)) as [l| |] eqn:E.
    + now rewrite E.
    + now elim (dictGet_not_inherited k (traderHistory s) Hk).
    + apply dictGet_Absent in E. destruct E as [_ Hne].
      cbn [traderHistory setTraderHistory]. unfold dictGet.
      now rewrite assoc_dictSet_eq.
  - apply preserves_bind; [|intros _]; frame.
Qed.

Lemma trackTrader_encode step d s :
  trackTrader step (encodeDecision d) s
  = (ensureLedger (dName d) ;;
     pushLedger (dName d) (recordOfDecision step (encodeDecision d))) s.
Proof. reflexivity. Qed.

Lemma succeeds_trackTrader h step d :
  inherited (dName d) = false ->
  succeeds h (trackTrader step (encodeDecision d)).
Proof.
  intros Hk s Hs. rewrite trackTrader_encode.
  now apply succeeds_ensure_push.
Qed.

Lemma trackFund_encode decisions step l s :
  trackTraderHistory (VArr decisions) step (encodeLLM l) s
  = (forEachM (trackTrader step) decisions ;;
     ensureLedger "LLM Fund" ;;
     pushLedger "LLM Fund"
       (ledgerRecord step (VStr (lFinalAction l)) (VNum (lCash l))
          (VNum (lPos l)) (VNum (lValue l)))) s.
Proof.
  destruct l as [b1 b2 [[stance txt]|] pa ps pr rs ap fa fs cm c p v];
    reflexivity.
Qed.

Lemma succeeds_trackTraderHistory h step ds l :
  Forall (fun d => inherited (dName d) = false) ds ->
  succeeds h (trackTraderHistory (VArr (map encodeDecision ds)) step
                (encodeLLM l)).
Proof.
  intros Hds s Hs. rewrite trackFund_encode. revert s Hs.
  apply succeeds_bind.
  - apply succeeds_forEachM. rewrite Forall_map.
    revert Hds. apply Forall_impl. intros d Hd.
    now apply succeeds_trackTrader.
  - intros _. now apply succeeds_ensure_push.
Qed.

Lemma forEachR_app {A} (f : A -> result unit) l1 l2 :
  forEachR f l1 = Ok tt -> forEachR f l2 = Ok tt ->
  forEachR f (l1 ++ l2) = Ok tt.
Proof.
  intros H1 H2. induction l1 as [|x r IH]; [exact H2|].
  cbn [forEachR app] in *. destruct (f x) as [[]|e]; [|discriminate H1].
  cbn [rbind] in *. now apply IH.
Qed.

Lemma seriesOfStep_encode p :
  ordinaryNames p -> seriesOfStep (encodeSnapshot p) = Ok tt.
Proof.
  intros Hn. unfold seriesOfStep, encodeSnapshot. cbn [getProp assoc String.eqb
    Ascii.eqb Bool.eqb rbind elements].
  assert (H : forEachR (fun d => rbind (getProp d "name")
                                     (fun name => seriesColour name))
                (map encodeDecision (sDecisions p)) = Ok tt).
  { induction Hn as [|d r Hd Hr IH]; [reflexivity|].
    cbn [map forEachR]. unfold encodeDecision at 1.
    cbn [getProp assoc String.eqb Ascii.eqb Bool.eqb rbind seriesColour toString].
    rewrite Hd. exact IH. }
  rewrite H.
  destruct (sLLM p) as [b1 b2 [[stance txt]|] pa ps pr rs ap fa fs cm c pp v];
    reflexivity.
Qed.

Lemma succeeds_updatePerformanceChart l :
  forEachR seriesOfStep l = Ok tt ->
  succeeds (VArr l) updatePerformanceChart.
Proof.
  intros Hl s Hs. unfold updatePerformanceChart.
  destruct (performanceChart s); [|now exists tt, s].
  rewrite Hs. destruct l as [|x r]; [now exists tt, s|].
  rewrite Hl. eexists tt, _. split; [reflexivity | exact Hs].
Qed.

Lemma succeeds_afterPush p l :
  ordinaryNames p ->
  forEachR seriesOfStep (l ++ [encodeSnapshot p]) = Ok tt ->
  succeeds (VArr (l ++ [encodeSnapshot p])) (afterPush (encodeSnapshot p)).
Proof.
  intros Hn Hl. set (h := VArr (l ++ [encodeSnapshot p])).
  unfold afterPush.
  apply succeeds_bind.
  { apply succeeds_returns; [|frame]. intros s. exists tt.
    now apply (updatePriceChart_returns _ _ s tt). }
  intros _.
  apply (succeeds_let h _ (VStr (sNews p))); [reflexivity|].
  apply (succeeds_let h _ (sentimentBy (includes (sNews p)))); [reflexivity|].
  apply (succeeds_let h _ (VArr (map encodeDecision (sDecisions p))));
    [reflexivity|].
  apply succeeds_bind; [apply succeeds_updateAgents | intros _].
  apply (succeeds_let h _ (encodeLLM (sLLM p))); [reflexivity|].
  apply succeeds_bind; [apply succeeds_updateLLMPipeline | intros _].
  apply (succeeds_let h _ tt); [apply updatePortfolioStats_encode|].
  apply succeeds_bind; [now apply succeeds_trackTraderHistory | intros _].
  now apply succeeds_updatePerformanceChart.
Qed.

(** Every well-formed payload whose traders have ordinary names is
    accepted by a store that takes updates, and the store still takes
    updates afterwards. *)
Lemma wellFormed_accepted p s :
  ready s -> ordinaryNames p ->
  exists s', update (encodeSnapshot p) s = (s', Ok tt) /\ ready s'.
Proof.
  intros (Hp & l & Hh & Hl) Hn.
  assert (Hl' : forEachR seriesOfStep (l ++ [encodeSnapshot p]) = Ok tt).
  { apply forEachR_app; [exact Hl|]. cbn [forEachR].
    now rewrite (seriesOfStep_encode p Hn). }
  pose proof (update_pushes _ s l Hp Hh
                (eq_refl : shown (field (encodeSnapshot p) "step") = Ok tt)
                (eq_refl : shown (field (encodeSnapshot p) "total_steps") = Ok tt))
    as E.
  change (VObj _) with (encodeSnapshot p) in E.
  destruct (succeeds_afterPush p l Hn Hl'
              (setSimulationHistory (VArr (l ++ [encodeSnapshot p])) s) eq_refl)
    as ([] & s' & E' & Hs').
  exists s'. rewrite E, E'. split; [reflexivity|].
  split.
  - rewrite <- Hp. apply (update_isPaused (encodeSnapshot p) s s' (Ok tt)).
    now rewrite E, E'.
  - now exists (l ++ [encodeSnapshot p]).
Qed.

Lemma wellFormed_runAccepted ps : forall s,
  ready s -> Forall ordinaryNames ps ->
  exists s', runAccepted (map encodeSnapshot ps) s = Some s' /\ ready s'.
Proof.
  induction ps as [|p r IH]; intros s Hs Hn.
  - now exists s.
  - inversion Hn as [|? ? Hp Hr]. subst.
    destruct (wellFormed_accepted p s Hs Hp) as (s1 & E & Hs1).
    destruct (IH s1 Hs1 Hr) as (s' & E' & Hs').
    exists s'. cbn [map runAccepted]. rewrite E. split; assumption.
Qed.

Lemma ready_started : ready started.
Proof. split; [reflexivity|]. exists []. split; reflexivity. Qed.


(** ** Objects in enumeration order *)

Lemma assoc_None_In {A} k (o : dict A) :
  assoc k o = None <-> ~ In k (map fst o).
Proof.
  induction o as [|[k' v'] r IH]; cbn [assoc map fst In].
  - split; [intros _ [] | reflexivity].
  - destruct (String.eqb_spec k k') as [->|Hne].
    + split; [discriminate | intros H; elim H; now left].
    + rewrite IH. split.
      * intros H [E|E]; [congruence | contradiction].
      * intros H E. apply H. now right.
Qed.

Lemma arrayIndex_inj k k' i :
  arrayIndex k = Some i -> arrayIndex k' = Some i -> k = k'.
Proof.
  unfold arrayIndex. intros H H'.
  destruct (allDigits k); [|discriminate].
  destruct (allDigits k'); [|discriminate].
  destruct (digitsPrefix 10 k None) as [n|]; [|discriminate].
  destruct (digitsPrefix 10 k' None) as [n'|]; [|discriminate].
  destruct (String.eqb_spec (decimal n) k) as [E|]; [|discriminate].
  destruct (String.eqb_spec (decimal n') k') as [E'|]; [|discriminate].
  cbn [andb] in *.
  destruct (n <? 4294967295)%N; [|discriminate].
  destruct (n' <? 4294967295)%N; [|discriminate].
  congruence.
Qed.

Lemma insertIndex_last {A} i k (v : A) o :
  Forall (fun k' => exists j, arrayIndex k' = Some j /\ (j < i)%N) (map fst o) ->
  insertIndex i k v o = o ++ [(k, v)].
Proof.
  induction o as [|[k' v'] r IH]; cbn [map fst insertIndex app]; intros H;
    [reflexivity|].
  inversion H as [|? ? (j & Ej & Hj) Hr]. subst.
  rewrite Ej. apply N.ltb_lt in Hj. rewrite Hj. now rewrite IH.
Qed.

Lemma defineOwn_last {A} k (v : A) acc :
  ~ In k (map fst acc) -> precedes (map fst acc) k ->
  defineOwn k v acc = acc ++ [(k, v)].
Proof.
  intros Hin Hpre. apply assoc_None_In in Hin.
  unfold defineOwn, hasOwn. rewrite Hin.
  unfold precedes in Hpre. destruct (arrayIndex k); [|reflexivity].
  now apply insertIndex_last.
Qed.

Lemma built_ordered {A} (o : dict A) : forall acc,
  orderedFrom (map fst acc) (map fst o) ->
  fold_left (fun a kv => defineOwn (fst kv) (snd kv) a) o acc = acc ++ o.
Proof.
  induction o as [|[k v] r IH]; intros acc H; cbn [fold_left map fst snd] in *.
  - now rewrite app_nil_r.
  - destruct H as (Hin & Hpre & Hr).
    rewrite (defineOwn_last k v acc Hin Hpre).
    rewrite IH.
    + now rewrite <- app_assoc.
    + now rewrite map_app.
Qed.

Lemma enumerated_built {A} (o : dict A) : enumerated o -> built o = o.
Proof. intros H. unfold built. now rewrite (built_ordered o []). Qed.

Lemma orderedFrom_index_before r : forall P x z m,
  orderedFrom P r -> In x P -> In z r -> arrayIndex z = Some m ->
  exists j, arrayIndex x = Some j /\ (j < m)%N.
Proof.
  induction r as [|y r IH]; intros P x z m H Hx Hz Hm; [destruct Hz|].
  destruct H as (_ & Hpre & Hr). destruct Hz as [->|Hz].
  - unfold precedes in Hpre. rewrite Hm in Hpre.
    rewrite Forall_forall in Hpre. now apply Hpre.
  - apply (IH (P ++ [y]) x z m Hr); [|assumption..].
    apply in_or_app. now left.
Qed.

Lemma orderedFrom_add k r : forall P P',
  orderedFrom P r ->
  (forall x, In x P' <-> x = k \/ In x P) ->
  ~ In k r ->
  (forall z m, In z r -> arrayIndex z = Some m ->
               exists i, arrayIndex k = Some i /\ (i < m)%N) ->
  orderedFrom P' r.
Proof.
  induction r as [|z r IH]; intros P P' H HP Hk Hidx; [exact I|].
  destruct H as (Hin & Hpre & Hr). cbn [orderedFrom]. repeat split.
  - rewrite HP. intros [->|E]; [apply Hk; now left | contradiction].
  - unfold precedes in *. destruct (arrayIndex z) as [m|] eqn:Em; [|exact I].
    rewrite Forall_forall in *. intros x Hx. apply HP in Hx.
    destruct Hx as [->|Hx]; [|now apply Hpre].
    apply (Hidx z m); [now left | exact Em].
  - apply (IH (P ++ [z])); [exact Hr | | |].
    + intros x. rewrite !in_app_iff, HP. tauto.
    + intros E. apply Hk. now right.
    + intros y m Hy. apply Hidx. now right.
Qed.

Lemma map_fst_replace {A} k (v : A) o : map fst (replace k v o) = map fst o.
Proof.
  induction o as [|[k' v'] r IH]; cbn [replace map fst]; [reflexivity|].
  destruct (String.eqb k k'); cbn [map fst]; [reflexivity | now rewrite IH].
Qed.

Lemma ordered_insertIndex {A} i k (v : A) o : forall pre,
  orderedFrom pre (map fst o) ->
  ~ In k pre -> ~ In k (map fst o) ->
  arrayIndex k = Some i ->
  Forall (fun k' => exists j, arrayIndex k' = Some j /\ (j < i)%N) pre ->
  orderedFrom pre (map fst (insertIndex i k v o)).
Proof.
  induction o as [|[k' v'] r IH]; intros pre H Hkpre Hko Hi Hpre;
    cbn [insertIndex map fst] in *.
  - repeat split; [assumption|]. unfold precedes. now rewrite Hi.
  - destruct H as (Hin' & Hpre' & Hr).
    assert (Hne : k <> k') by (intros ->; apply Hko; now left).
    assert (Hkr : ~ In k (map fst r)) by (intros E; apply Hko; now right).
    assert (Hnew : orderedFrom pre (k :: k' :: map fst r)
                   <-> orderedFrom pre (map fst ((k, v) :: (k', v') :: r)))
      by reflexivity.
    assert (Hins : (forall j, arrayIndex k' = Some j -> (i < j)%N) ->
                   orderedFrom pre (k :: k' :: map fst r)).
    { intros Hlt. cbn [orderedFrom]. repeat split.
      - exact Hkpre.
      - unfold precedes. now rewrite Hi.
      - rewrite in_app_iff. intros [E|[E|[]]]; [contradiction | congruence].
      - unfold precedes in *. destruct (arrayIndex k') as [j|] eqn:Ej; [|exact I].
        apply Forall_app. split; [exact Hpre'|].
        constructor; [|constructor]. exists i. split; [exact Hi | now apply Hlt].
      - apply (orderedFrom_add k (map fst r) (pre ++ [k'])); [exact Hr | | exact Hkr |].
        + intros x. rewrite !in_app_iff. cbn [In]. intuition congruence.
        + intros z m Hz Hm.
          destruct (orderedFrom_index_before _ _ k' z m Hr) as (j & Ej & Hj);
            [apply in_or_app; right; now left | exact Hz | exact Hm |].
          exists i. split; [exact Hi|]. specialize (Hlt j Ej). lia. }
    destruct (arrayIndex k') as [j|] eqn:Ej.
    + destruct (N.ltb_spec j i) as [Hlt|Hge]; cbn [map fst].
      * cbn [orderedFrom]. repeat split; [assumption..|].
        apply IH; [exact Hr | | exact Hkr | exact Hi |].
        -- rewrite in_app_iff. intros [E|[E|[]]]; [contradiction | congruence].
        -- apply Forall_app. split; [exact Hpre|].
           constructor; [|constructor]. now exists j.
      * apply Hins. intros j' Ej'. inversion Ej'. subst j'.
        assert (j <> i) by (intros ->; apply Hne; now apply (arrayIndex_inj k k' i)).
        lia.
    + apply Hins. intros j' Ej'. discriminate Ej'.
Qed.

Lemma ordered_append {A} k (v : A) o : forall pre,
  orderedFrom pre (map fst o) ->
  ~ In k pre -> ~ In k (map fst o) ->
  arrayIndex k = None ->
  orderedFrom pre (map fst (o ++ [(k, v)])).
Proof.
  induction o as [|[k' v'] r IH]; intros pre H Hkpre Hko Hi;
    cbn [app map fst orderedFrom] in *.
  - repeat split; [assumption|]. unfold precedes. now rewrite Hi.
  - destruct H as (Hin' & Hpre' & Hr). repeat split; [assumption..|].
    apply IH; [exact Hr | | | exact Hi].
    + rewrite in_app_iff. intros [E|[E|[]]]; [contradiction|].
      apply Hko. now left.
    + intros E. apply Hko. now right.
Qed.

Lemma enumerated_dictSet {A} k (v : A) o :
  enumerated o -> enumerated (dictSet k v o).
Proof.
  unfold enumerated, dictSet. intros H.
  destruct (String.eqb k "__proto__"); [exact H|].
  destruct (hasOwn k o) eqn:E.
  - now rewrite map_fst_replace.
  - assert (Hk : ~ In k (map fst o)).
    { apply assoc_None_In. unfold hasOwn in E. now destruct (assoc k o). }
    destruct (arrayIndex k) as [i|] eqn:Ei.
    + apply ordered_insertIndex; [exact H | intros [] | exact Hk | exact Ei
                                 | constructor].
    + apply ordered_append; [exact H | intros [] | exact Hk | exact Ei].
Qed.

(** ** Accumulated histories and ledgers are JSON values *)

Lemma jsonValue_encodeDecision d :
  jsonDecision d -> jsonValue (encodeDecision d).
Proof.
  intros (Hc & Hp & Hv). unfold encodeDecision. cbn [jsonValue snd].
  repeat split; assumption.
Qed.

Lemma jsonValue_encodeRisk r : jsonNum (rSize r) -> jsonValue (encodeRisk r).
Proof.
  intros Hs. unfold encodeRisk. cbn [jsonValue snd]. repeat split; assumption.
Qed.

Lemma jsonValue_map {A} (f : A -> value) (l : list A) :
  Forall (fun a => jsonValue (f a)) l -> jsonValue (VArr (map f l)).
Proof. intros H. apply jsonValue_arr. now rewrite Forall_map. Qed.

Lemma jsonValue_encodeLLM l : jsonLLM l -> jsonValue (encodeLLM l).
Proof.
  intros (Hps & Hrs & Hfs & Hc & Hp & Hv).
  assert (Hrisks : jsonValue (VArr (map encodeRisk (lRisks l)))).
  { apply jsonValue_map. revert Hrs. apply Forall_impl.
    intros r. apply jsonValue_encodeRisk. }
  destruct l as [b1 b2 [[stance txt]|] pa ps pr rs ap fa fs cm c p v];
    cbn [lProposalSize lRisks lFinalSize lCash lPos lValue] in *;
    apply jsonValue_obj; (split; [reflexivity|]);
    repeat constructor; cbn [snd]; try assumption;
    apply jsonValue_obj; (split; [reflexivity|]);
    repeat constructor; cbn [snd]; assumption.
Qed.

Lemma jsonValue_encodeSnapshot p :
  jsonSnapshot p -> jsonValue (encodeSnapshot p).
Proof.
  intros (Hs & Ht & Hp & Hd & Hl). unfold encodeSnapshot.
  apply jsonValue_encodeLLM in Hl.
  assert (Hds : jsonValue (VArr (map encodeDecision (sDecisions p)))).
  { apply jsonValue_map. revert Hd. apply Forall_impl.
    intros d. apply jsonValue_encodeDecision. }
  set (llm := encodeLLM (sLLM p)) in *. clearbody llm.
  set (decisions := VArr (map encodeDecision (sDecisions p))) in *.
  clearbody decisions.
  apply jsonValue_obj. split; [reflexivity|].
  repeat constructor; cbn [snd]; assumption.
Qed.

Lemma jsonValue_ledgerRecord step action cash position val :
  jsonValue step -> jsonValue action -> jsonValue cash ->
  jsonValue position -> jsonValue val ->
  jsonValue (ledgerRecord step action cash position val).
Proof.
  intros. unfold ledgerRecord. cbn [jsonValue snd]. repeat split; assumption.
Qed.

Lemma maintains_forEach_Forall {A} (P : State -> Prop) (k : A -> M unit) l :
  Forall (fun a => maintains P (k a)) l -> maintains P (forEachM k l).
Proof.
  induction 1 as [|x r Hx Hr IH]; cbn [forEachM].
  - intros s s' r HP H. inversion H. now subst.
  - apply maintains_bind; [exact Hx | intros _ _; exact IH].
Qed.

Lemma ensure_push_json k record :
  jsonValue record ->
  maintains ledgersJson (ensureLedger k ;; pushLedger k record).
Proof.
  intros Hrec s s' r [Hen Hall].
  unfold bind, ensureLedger, modify, pushLedger, ledgersJson.
  destruct (dictGet k (traderHistory s)) as [l| |] eqn:E.
  - rewrite E. intros H. inversion H. subst. cbn [traderHistory setTraderHistory].
    split; [now apply enumerated_dictSet|].
    apply Forall_dictSet; [assumption|].
    apply dictGet_Own in E.
    apply Forall_app. split; [exact (Forall_assoc _ _ _ _ Hall E)|].
    constructor; [assumption | constructor].
  - rewrite E. intros H. inversion H. subst. now split.
  - apply dictGet_Absent in E. destruct E as [E Hk].
    cbn [traderHistory setTraderHistory]. unfold dictGet.
    rewrite assoc_dictSet_eq by assumption.
    intros H. inversion H. subst. cbn [traderHistory setTraderHistory].
    split; [now do 2 apply enumerated_dictSet|].
    apply Forall_dictSet.
    + apply Forall_dictSet; [assumption | constructor].
    + constructor; [assumption | constructor].
Qed.

Lemma maintains_ext {A} (P : State -> Prop) (m m' : M A) :
  (forall s, m s = m' s) -> maintains P m' -> maintains P m.
Proof. intros E H s s' r HP Hm. rewrite E in Hm. exact (H _ _ _ HP Hm). Qed.

Lemma trackTraderHistory_json step ds l :
  jsonValue step -> Forall jsonDecision ds -> jsonLLM l ->
  maintains ledgersJson
    (trackTraderHistory (VArr (map encodeDecision ds)) step (encodeLLM l)).
Proof.
  intros Hstep Hds (Hps & Hrs & Hfs & Hc & Hp & Hv).
  eapply maintains_ext; [intros s; apply trackFund_encode|].
  apply maintains_bind.
  - apply maintains_forEach_Forall. rewrite Forall_map.
    revert Hds. apply Forall_impl. intros d (Hdc & Hdp & Hdv).
    eapply maintains_ext; [intros s; apply trackTrader_encode|].
    apply ensure_push_json. now apply jsonValue_ledgerRecord.
  - intros _ _. apply ensure_push_json. now apply jsonValue_ledgerRecord.
Qed.

Lemma maintains_ledgersJson_frame {A} (m : M A) :
  preserves traderHistory m -> maintains ledgersJson m.
Proof.
  intros Hm. unfold ledgersJson.
  exact (maintains_preserves traderHistory
           (fun t => enumerated t /\
                     Forall (fun kv => Forall jsonValue (snd kv)) t) m Hm).
Qed.

Lemma lift_value {A} (r : result A) a :
  (exists s s1 : State, lift r s = (s1, Ok a)) -> r = Ok a.
Proof. intros (s & s1 & E). now apply lift_ok in E. Qed.

Lemma update_json p :
  jsonSnapshot p -> maintains ledgersJson (update (encodeSnapshot p)).
Proof.
  intros (Hs & Ht & Hp & Hd & Hl) s s' r Hinv. unfold update.
  destruct (isPaused s); [intros H; inversion H; now subst|].
  assert (M0 : forall m : M unit,
             maintains ledgersJson m -> m s = (s', r) -> ledgersJson s')
    by (intros m Hm Hr; exact (Hm _ _ _ Hinv Hr)).
  apply M0. clear M0 Hinv s s' r.
  apply maintains_bind; [apply maintains_ledgersJson_frame; frame | intros step Estep].
  apply lift_value in Estep. apply Some_eq_Ok in Estep. subst step.
  apply maintains_bind; [apply maintains_ledgersJson_frame; frame | intros total _].
  apply maintains_bind; [apply maintains_ledgersJson_frame; frame | intros _ _].
  apply maintains_bind; [apply maintains_ledgersJson_frame; frame | intros _ _].
  apply maintains_bind; [apply maintains_ledgersJson_frame; frame | intros _ _].
  apply maintains_bind; [apply maintains_ledgersJson_frame; frame | intros price _].
  apply maintains_bind; [apply maintains_ledgersJson_frame; frame | intros _ _].
  apply maintains_bind; [apply maintains_ledgersJson_frame; frame | intros news _].
  apply maintains_bind; [apply maintains_ledgersJson_frame; frame | intros _ _].
  apply maintains_bind;
    [apply maintains_ledgersJson_frame; frame | intros decisions Edec].
  apply lift_value in Edec. apply Some_eq_Ok in Edec. subst decisions.
  apply maintains_bind; [apply maintains_ledgersJson_frame; frame | intros _ _].
  apply maintains_bind; [apply maintains_ledgersJson_frame; frame | intros llm Ellm].
  apply lift_value in Ellm. apply Some_eq_Ok in Ellm. subst llm.
  apply maintains_bind; [apply maintains_ledgersJson_frame; frame | intros _ _].
  apply maintains_bind; [apply maintains_ledgersJson_frame; frame | intros _ _].
  apply maintains_bind;
    [now apply trackTraderHistory_json | intros _ _].
  apply maintains_ledgersJson_frame. frame.
Qed.


Lemma ledgers_jsonValue s :
  ledgersJson s -> jsonValue (ledgersValue (traderHistory s)).
Proof.
  intros [Hen Hall]. unfold ledgersValue. apply jsonValue_obj. split.
  - apply enumerated_built. unfold enumerated in *.
    rewrite map_map. cbn [fst]. exact Hen.
  - rewrite Forall_map. revert Hall. apply Forall_impl.
    intros kv H. cbn [snd]. now apply jsonValue_arr.
Qed.

Lemma update_history d s s' l :
  isPaused s = false -> simulationHistory s = VArr l ->
  update d s = (s', Ok tt) -> simulationHistory s' = VArr (l ++ [d]).
Proof.
  intros Hp Hh H.
  destruct (update_ok_inv _ _ _ Hp H)
    as (s1 & s2 & s3 & s4 & s5 & _ & H1 & H2 & H3 & H4 & H5 & H6).
  unfold pushHistory in H1. rewrite Hh in H1. inversion H1. subst s1. clear H1.
  assert (F2 : preserves simulationHistory
                 (updatePriceChart (field d "price") (field d "step"))) by frame.
  assert (F3 : preserves simulationHistory (updateAgents (field d "decisions")))
    by frame.
  assert (F4 : preserves simulationHistory (updateLLMPipeline (field d "llm")))
    by frame.
  assert (F5 : preserves simulationHistory
                 (trackTraderHistory (field d "decisions") (field d "step")
                    (field d "llm"))) by frame.
  assert (F6 : preserves simulationHistory updatePerformanceChart) by frame.
  rewrite (F6 _ _ _ H6), (F5 _ _ _ H5), (F4 _ _ _ H4), (F3 _ _ _ H3),
    (F2 _ _ _ H2).
  reflexivity.
Qed.

Lemma runAccepted_history ds : forall s s' l,
  isPaused s = false -> simulationHistory s = VArr l ->
  runAccepted ds s = Some s' -> simulationHistory s' = VArr (l ++ ds).
Proof.
  induction ds as [|d r IH]; intros s s' l Hp Hh H.
  - inversion H. subst. now rewrite app_nil_r.
  - cbn [runAccepted] in H.
    destruct (update d s) as [s1 [[]|e]] eqn:E; [|discriminate].
    replace (l ++ d :: r) with ((l ++ [d]) ++ r)
      by (rewrite <- app_assoc; reflexivity).
    apply (IH s1); [|now apply (update_history d s)|exact H].
    rewrite (update_isPaused _ _ _ _ E). exact Hp.
Qed.

Lemma runAccepted_json ps : forall s s',
  Forall jsonSnapshot ps -> ledgersJson s ->
  runAccepted (map encodeSnapshot ps) s = Some s' -> ledgersJson s'.
Proof.
  induction ps as [|p r IH]; intros s s' Hps Hs H.
  - inversion H. now subst.
  - inversion Hps as [|? ? Hp Hr]. subst. cbn [map runAccepted] in H.
    destruct (update (encodeSnapshot p) s) as [s1 [[]|e]] eqn:E; [|discriminate].
    apply (IH s1); [exact Hr | exact (update_json p Hp _ _ _ Hs E) | exact H].
Qed.

(** After well-formed payloads whose numbers are JSON numbers, the history
    and the ledgers of a browser session are JSON values. *)
Lemma accumulated_json ps s' :
  Forall jsonSnapshot ps ->
  runAccepted (map encodeSnapshot ps) started = Some s' ->
  simulationHistory s' = VArr (map encodeSnapshot ps) /\
  jsonValue (simulationHistory s') /\
  jsonValue (ledgersValue (traderHistory s')).
Proof.
  intros Hps H.
  assert (Hh : simulationHistory s' = VArr (map encodeSnapshot ps))
    by exact (runAccepted_history _ started s' [] eq_refl eq_refl H).
  split; [exact Hh|]. split.
  - rewrite Hh. apply jsonValue_map. revert Hps. apply Forall_impl.
    intros p. apply jsonValue_encodeSnapshot.
  - apply ledgers_jsonValue. apply (runAccepted_json ps started); [exact Hps| |exact H].
    split; [exact I | constructor].
Qed.


Lemma exports_read_back s :
  jsonValue (simulationHistory s) ->
  jsonValue (ledgersValue (traderHistory s)) ->
  readsBack s.
Proof.
  intros Hh Hl. unfold readsBack, exportHistory, exportTraderData. split.
  - destruct (jsonStringify_some _ Hh) as [t Et].
    exists t. split; [exact Et | now apply jsonParse_stringify].
  - destruct (jsonStringify_some _ Hl) as [t Et].
    exists t, (map (fun kv => (fst kv, VArr (snd kv))) (traderHistory s)).
    split; [exact Et|]. split; [now apply jsonParse_stringify|].
    split; [now rewrite map_map|]. split; [now rewrite map_map|].
    intros k. apply assoc_ledgersValue.
Qed.

Lemma twoSnapshots_encode : map encodeSnapshot twoSnapshots = [payload1; payload2].
Proof. reflexivity. Qed.

(** C9 (as amended). The text written by an export (two spaces of
    indentation per level) reads back as what the export writes of the
    structure in memory: the structure itself, field by field and in the
    same order, except that a property whose value is [undefined] is left
    out and that an element that is [undefined] or a number that is not
    finite is read back as [null].  This holds whenever what is written is
    a JSON value (numbers that the platform writes as it reads them,
    objects listed as the language enumerates them).
    - Of a JSON value everything is written, so that a store whose history
      and ledgers are JSON values reads back as it is: the history as the
      very array in memory, the ledgers as an object with the names of the
      ledgers as its keys, in their order, each with the array of the
      records of that ledger.
    - The stores a session accumulates from well-formed payloads are of
      this kind: after any sequence of such payloads with JSON numbers and
      traders of ordinary names, every payload has been accepted, the
      history is the list of the payloads as they came, the ledger of
      every name holds the records of its decisions, and both exports
      read back as what is in memory.
    - A decision that comes without cash leaves a record whose cash is
      [undefined]; of such a record the export writes the four other
      fields only. *)
Theorem export_round_trip :
  (forall s : State,
     jsonValue (written (simulationHistory s)) ->
     jsonValue (written (ledgersValue (traderHistory s))) ->
     (exists t, exportHistory s = Some t /\
                jsonParse t = Some (written (simulationHistory s))) /\
     (exists t, exportTraderData s = Some t /\
                jsonParse t
                = Some (written (ledgersValue (traderHistory s))))) /\
  (forall v, jsonValue v -> written v = v) /\
  (forall s : State,
     jsonValue (simulationHistory s) ->
     jsonValue (ledgersValue (traderHistory s)) ->
     readsBack s) /\
  (forall ps : list StepSnapshot,
     Forall ordinaryNames ps -> Forall jsonSnapshot ps ->
     exists s,
       runAccepted (map encodeSnapshot ps) started = Some s /\
       simulationHistory s = VArr (map encodeSnapshot ps) /\
       (forall k, ledgerOf k s
                  = flat_map (entriesFor k) (map encodeSnapshot ps)) /\
       readsBack s) /\
  (forall step action position val,
     jsonValue step -> jsonValue action -> jsonValue position ->
     jsonValue val ->
     written (ledgerRecord step action VUndef position val)
     = VObj [("step", step); ("action", action); ("position", position);
             ("value", val)]).
Proof.
  split; [|split; [exact written_json | split; [exact exports_read_back | split]]].
  - intros s Hh Hl. unfold exportHistory, exportTraderData.
    split; now apply reads_back_written.
  - intros ps Hn Hj.
    destruct (wellFormed_runAccepted ps started ready_started Hn) as (s & E & _).
    destruct (accumulated_json ps s Hj E) as (Hh & Hv & Hl).
    exists s. split; [exact E|]. split; [exact Hh|].
    split; [|now apply exports_read_back].
    intros k.
    exact (runAccepted_ledger (map encodeSnapshot ps) started s eq_refl
             eq_refl E k).
  - intros step action position val Hs Ha Hp Hv.
    unfold ledgerRecord. cbn [written flat_map].
    rewrite (written_member _ step Hs), (written_member _ action Ha),
      (written_member _ position Hp), (written_member _ val Hv).
    reflexivity.
Qed.

(** * Further properties of the script *)

(** ** A run after a start *)


(** ** Pausing and resuming *)

Lemma run_app es1 : forall es2 s, run (es1 ++ es2) s = run es2 (run es1 s).
Proof.
  induction es1 as [|e r IH]; intros es2 s; [reflexivity|].
  cbn [app run]. apply IH.
Qed.

Lemma update_paused data s : isPaused s = true -> update data s = (s, Ok tt).
Proof. intros Hp. unfold update. now rewrite Hp. Qed.

Lemma run_updates_paused ds : forall s,
  isPaused s = true -> run (map UpdateEvent ds) s = s.
Proof.
  induction ds as [|d r IH]; intros s Hp; [reflexivity|].
  cbn [map run handle]. rewrite (update_paused d s Hp). now apply IH.
Qed.

(** X2. The payloads that arrive between a click on the pause button and
    the next one are lost: they are not kept aside, and the second click
    brings back the very store the first click found, so that whatever
    follows is handled as if these payloads had never been sent. *)
Theorem pause_drops_updates (s : State) (ds : list value) (es : list event) :
  isPaused s = false ->
  run (PauseClick :: map UpdateEvent ds ++ PauseClick :: es) s = run es s.
Proof.
  intros Hp. cbn [run handle]. rewrite run_app.
  rewrite run_updates_paused by (cbn; now rewrite Hp).
  cbn [run handle]. f_equal.
  destruct s. cbn in *. now subst.
Qed.

(** ** The completion message *)

Lemma simulationFinished_undefined data s :
  ~ defined data -> simulationFinished data s = (s, Throw TypeError).
Proof.
  intros H. destruct data; try (elim H; exact I); reflexivity.
Qed.

Lemma simulationFinished_defined data s :
  defined data ->
  let s1 := if truthy (field data "history")
            then setSimulationHistory (field data "history") s else s in
  simulationFinished data s =
  (s1, rbind (snd (renderHistory (simulationHistory s1) "all" EmptyString))
         (fun _ => snd (renderTraderHistory s1))).
Proof.
  intros H. unfold simulationFinished, bind, lift, modify, observe.
  rewrite (getProp_defined _ _ H).
  destruct (truthy (field data "history"));
    cbv zeta;
    match goal with
    |- context [snd (renderHistory ?h ?f ?t)] =>
        destruct (snd (renderHistory h f t)) as [[]|[]]
    end; reflexivity.
Qed.

(** X3. The completion message replaces the history by the one it carries
    when that one is truthy (an empty array is), and keeps the history
    otherwise; nothing else of the store is written, whether the two tabs
    then render or raise.  A message that is [undefined] or [null] raises
    before anything is written.  The handler returns normally exactly when
    both tabs render. *)
Theorem finished_replaces_history (s : State) (data : value) :
  let s' := fst (simulationFinished data s) in
  simulationHistory s' =
    (if truthy (field data "history") then field data "history"
     else simulationHistory s) /\
  (traderHistory s' = traderHistory s /\
   agentPerformance s' = agentPerformance s /\
   actionCounts s' = actionCounts s /\
   isPaused s' = isPaused s /\
   outbox s' = outbox s /\
   priceChart s' = priceChart s /\
   comparisonChart s' = comparisonChart s /\
   actionsChart s' = actionsChart s /\
   performanceChart s' = performanceChart s) /\
  (~ defined data -> simulationFinished data s = (s, Throw TypeError)) /\
  (defined data ->
   (snd (simulationFinished data s) = Ok tt <->
    snd (renderHistory (simulationHistory s') "all" EmptyString) = Ok tt /\
    snd (renderTraderHistory s') = Ok tt)).
Proof.
  cbv zeta.
  assert (Hcase : defined data \/ ~ defined data)
    by (destruct data; cbn; tauto).
  destruct Hcase as [Hd|Hd].
  - rewrite (simulationFinished_defined data s Hd). cbv zeta. cbn [fst snd].
    split; [destruct (truthy (field data "history")); reflexivity|].
    split; [destruct (truthy (field data "history")); repeat split|].
    split; [intros H; contradiction|].
    intros _.
    destruct (snd (renderHistory _ "all" EmptyString)) as [[]|[]]; cbn [rbind].
    + destruct (snd (renderTraderHistory _)) as [[]|[]].
      * split; [intros _; split; reflexivity | reflexivity].
      * split; [discriminate | intros [_ H]; discriminate H].
    + split; [discriminate | intros [H _]; discriminate H].
  - rewrite (simulationFinished_undefined data s Hd). cbn [fst snd].
    assert (Hf : field data "history" = VUndef)
      by (destruct data; try (elim Hd; exact I); reflexivity).
    rewrite Hf. cbn [truthy].
    split; [reflexivity|]. split; [repeat split|].
    split; [reflexivity | intros H; contradiction].
Qed.

(** ** A history that is not an array *)

Lemma update_without_array data s :
  isArray (simulationHistory s) = false ->
  fst (update data s) = s /\
  (isPaused s = false -> snd (update data s) = Throw TypeError).
Proof.
  intros Ha. unfold update.
  destruct (isPaused s); [split; [reflexivity | discriminate]|].
  unfold bind, lift, pushHistory.
  destruct (getProp data "step") as [step|[]];
    [|split; [reflexivity | reflexivity]].
  destruct (getProp data "total_steps") as [total|[]];
    [|split; reflexivity].
  destruct (shown step) as [[]|[]]; [|split; reflexivity].
  destruct (shown total) as [[]|[]]; [|split; reflexivity].
  destruct (simulationHistory s); try discriminate Ha; split; reflexivity.
Qed.

(** X4. The update handler appends to the history with [push], which only
    an array has: when the history is anything else (a completion message
    may have installed a text or a number), every update of a store that
    is not paused raises, and no update writes anything, so that the store
    stays as it is however many payloads arrive. *)
Theorem update_needs_array_history (s : State) (data : value) :
  isArray (simulationHistory s) = false ->
  fst (update data s) = s /\
  (isPaused s = false -> snd (update data s) = Throw TypeError) /\
  forall ds, run (map UpdateEvent ds) s = s.
Proof.
  intros Ha.
  destruct (update_without_array data s Ha) as [H1 H2].
  split; [exact H1|]. split; [exact H2|].
  intros ds. induction ds as [|d r IH]; [reflexivity|].
  cbn [map run handle].
  rewrite (proj1 (update_without_array d s Ha)). exact IH.
Qed.

(** ** A history that cannot be drawn *)

(** An update of a store that is not paused either raises before it has
    written anything, or appends the payload to the history and goes on. *)
Lemma update_cases d s :
  isPaused s = false ->
  update d s = (s, Throw TypeError) \/
  exists l, simulationHistory s = VArr l /\
            update d s = afterPush d (setSimulationHistory (VArr (l ++ [d])) s).
Proof.
  intros Hp.
  destruct (update_raises_or_enters d s Hp) as [E|(l & Hh & _ & E)];
    [now left | right; now exists l].
Qed.

Lemma preserves_afterPush_history d : preserves simulationHistory (afterPush d).
Proof. unfold afterPush. frame. Qed.

Lemma preserves_afterPush_paused d : preserves isPaused (afterPush d).
Proof. unfold afterPush. frame. Qed.

(** The history after an update: as it was, or one payload longer. *)
Lemma update_history_grows d s s' r l :
  isPaused s = false ->
  simulationHistory s = VArr l ->
  update d s = (s', r) ->
  simulationHistory s' = VArr l \/ simulationHistory s' = VArr (l ++ [d]).
Proof.
  intros Hp Hh H.
  destruct (update_cases d s Hp) as [E|(l' & Hl' & E)]; rewrite E in H.
  - inversion H. subst. now left.
  - right. rewrite Hh in Hl'. inversion Hl'. subst l'.
    now rewrite (preserves_afterPush_history d _ _ _ H).
Qed.

Lemma forEachR_In_throw {A} (f : A -> result unit) l x :
  In x l -> f x = Throw TypeError -> forEachR f l = Throw TypeError.
Proof.
  induction l as [|a r IH]; intros Hin Hx; [destruct Hin|].
  cbn [forEachR]. destruct Hin as [->|Hin].
  - now rewrite Hx.
  - destruct (f a) as [[]|[]]; cbn [rbind]; [now apply IH | reflexivity].
Qed.

Lemma forEachR_throw_app {A} (f : A -> result unit) l1 l2 :
  forEachR f l1 = Throw TypeError -> forEachR f (l1 ++ l2) = Throw TypeError.
Proof.
  induction l1 as [|a r IH]; cbn [forEachR app]; [discriminate|].
  destruct (f a) as [[]|[]]; cbn [rbind]; [exact IH | reflexivity].
Qed.

Lemma field_getProp v k x : field v k = x -> x <> VUndef -> getProp v k = Ok x.
Proof.
  unfold field. destruct (getProp v k) as [y|e]; intros H Hx.
  - now subst.
  - now elim Hx.
Qed.

(** The colour of a series is looked up under the name of the trader: a
    name that [Object.prototype] defines finds a member that has no
    [replace], and the redraw raises. *)
Lemma inherited_name_undrawable step bs b k :
  field step "decisions" = VArr bs ->
  In b bs ->
  field b "name" = VStr k ->
  inherited k = true ->
  seriesOfStep step = Throw TypeError.
Proof.
  intros Hds Hin Hname Hk. unfold seriesOfStep.
  rewrite (field_getProp _ _ _ Hds) by discriminate.
  cbn [rbind elements].
  rewrite (forEachR_In_throw _ bs b Hin); [reflexivity|].
  rewrite (field_getProp _ _ _ Hname) by discriminate.
  cbn [rbind seriesColour toString]. now rewrite Hk.
Qed.

Lemma update_blocked d s l :
  isPaused s = false ->
  performanceChart s <> None ->
  simulationHistory s = VArr l ->
  forEachR seriesOfStep l = Throw TypeError ->
  snd (update d s) = Throw TypeError.
Proof.
  intros Hp Hc Hh Hl.
  destruct (update d s) as [s' [[]|[]]] eqn:E; [exfalso | reflexivity].
  destruct (update_ok_inv _ _ _ Hp E)
    as (s1 & s2 & s3 & s4 & s5 & _ & H1 & H2 & H3 & H4 & H5 & H6).
  assert (Hh5 : simulationHistory s5 = VArr (l ++ [d])).
  { unfold pushHistory in H1. rewrite Hh in H1. inversion H1. subst s1.
    assert (F2 : preserves simulationHistory
                   (updatePriceChart (field d "price") (field d "step")))
      by frame.
    assert (F3 : preserves simulationHistory
                   (updateAgents (field d "decisions"))) by frame.
    assert (F4 : preserves simulationHistory
                   (updateLLMPipeline (field d "llm"))) by frame.
    assert (F5 : preserves simulationHistory
                   (trackTraderHistory (field d "decisions") (field d "step")
                      (field d "llm"))) by frame.
    rewrite (F5 _ _ _ H5), (F4 _ _ _ H4), (F3 _ _ _ H3), (F2 _ _ _ H2).
    reflexivity. }
  assert (Hc5 : performanceChart s5 = performanceChart s).
  { assert (F1 : preserves performanceChart (pushHistory d)) by frame.
    assert (F2 : preserves performanceChart
                   (updatePriceChart (field d "price") (field d "step")))
      by frame.
    assert (F3 : preserves performanceChart
                   (updateAgents (field d "decisions"))) by frame.
    assert (F4 : preserves performanceChart
                   (updateLLMPipeline (field d "llm"))) by frame.
    assert (F5 : preserves performanceChart
                   (trackTraderHistory (field d "decisions") (field d "step")
                      (field d "llm"))) by frame.
    rewrite (F5 _ _ _ H5), (F4 _ _ _ H4), (F3 _ _ _ H3), (F2 _ _ _ H2),
      (F1 _ _ _ H1).
    reflexivity. }
  unfold updatePerformanceChart in H6. rewrite Hc5, Hh5 in H6.
  destruct (performanceChart s) as [c|]; [|now elim Hc].
  rewrite (forEachR_throw_app _ l [d] Hl) in H6.
  destruct (l ++ [d]) as [|x r] eqn:El; [|discriminate H6].
  now destruct l.
Qed.

Lemma performanceChart_stays d s s' r :
  performanceChart s <> None ->
  update d s = (s', r) ->
  performanceChart s' <> None.
Proof.
  intros Hc. unfold update. destruct (isPaused s);
    [intros H; inversion H; now subst|].
  revert Hc. generalize r. generalize s'. generalize s.
  change (maintains (fun s => performanceChart s <> None)
    (step <- lift (getProp d "step") ;;
     total <- lift (getProp d "total_steps") ;;
     lift (shown step) ;;
     lift (shown total) ;;
     pushHistory d ;;
     price <- lift (getProp d "price") ;;
     updatePriceChart price step ;;
     news <- lift (getProp d "news") ;;
     lift (updateNews news) ;;
     decisions <- lift (getProp d "decisions") ;;
     updateAgents decisions ;;
     llm <- lift (getProp d "llm") ;;
     updateLLMPipeline llm ;;
     lift (updatePortfolioStats decisions llm price) ;;
     trackTraderHistory decisions step llm ;;
     updatePerformanceChart)).
  repeat (apply maintains_bind;
          [apply (maintains_preserves performanceChart (fun c => c <> None));
           frame | intros ? _]).
  intros s0 s1 r0 Hc H. unfold updatePerformanceChart in H.
  destruct (performanceChart s0) as [c|] eqn:E; [|now elim Hc].
  destruct (simulationHistory s0) as [| | | |h|l0|o];
    try (inversion H; subst; now rewrite E).
  - destruct h; inversion H; subst; now rewrite E.
  - destruct l0 as [|x l0]; [inversion H; subst; now rewrite E|].
    destruct (forEachR seriesOfStep (x :: l0)); inversion H; subst;
      [discriminate | now rewrite E].
  - destruct (assoc "length" o) as [[]|];
      try (inversion H; subst; now rewrite E).
    destruct (numStrictEq _ _); inversion H; subst; now rewrite E.
Qed.

(** The store of a page whose history holds a step that cannot be drawn. *)
Lemma blocked_stays d s l :
  isPaused s = false ->
  performanceChart s <> None ->
  simulationHistory s = VArr l ->
  forEachR seriesOfStep l = Throw TypeError ->
  isPaused (fst (update d s)) = false /\
  performanceChart (fst (update d s)) <> None /\
  exists l', simulationHistory (fst (update d s)) = VArr l' /\
             forEachR seriesOfStep l' = Throw TypeError.
Proof.
  intros Hp Hc Hh Hl.
  destruct (update d s) as [s' r] eqn:E. cbn [fst].
  split; [rewrite (update_isPaused _ _ _ _ E); exact Hp|].
  split; [exact (performanceChart_stays _ _ _ _ Hc E)|].
  destruct (update_history_grows _ _ _ _ _ Hp Hh E) as [H|H].
  - now exists l.
  - exists (l ++ [d]). split; [exact H | now apply forEachR_throw_app].
Qed.

(** X5. The performance chart is redrawn from the whole history at the end
    of every update.  Once the history holds a step one of whose traders is
    called like a member of [Object.prototype] (constructor, toString, ...),
    the redraw raises each time: on a page with its charts, that is not
    paused, no payload is accepted any more, whatever it carries and however
    many have been handled since. *)
Theorem undrawable_step_blocks (s : State) (l bs : list value) (bad b : value)
    (k : string) (ds : list value) (data : value) :
  isPaused s = false ->
  performanceChart s <> None ->
  simulationHistory s = VArr l ->
  In bad l ->
  field bad "decisions" = VArr bs ->
  In b bs ->
  field b "name" = VStr k ->
  inherited k = true ->
  accepts (run (map UpdateEvent ds) s) data = false /\
  runAccepted (data :: ds) s = None.
Proof.
  intros Hp Hc Hh Hbad Hbs Hb Hname Hk.
  assert (Hl : forEachR seriesOfStep l = Throw TypeError).
  { apply (forEachR_In_throw _ l bad Hbad).
    exact (inherited_name_undrawable bad bs b k Hbs Hb Hname Hk). }
  clear Hbad Hbs Hb Hname Hk.
  split.
  - revert s l Hp Hc Hh Hl.
    induction ds as [|d r IH]; intros s l Hp Hc Hh Hl.
    + cbn [map run]. unfold accepts.
      now rewrite (update_blocked data s l Hp Hc Hh Hl).
    + cbn [map run handle].
      destruct (blocked_stays d s l Hp Hc Hh Hl) as (Hp1 & Hc1 & l1 & Hh1 & Hl1).
      exact (IH _ l1 Hp1 Hc1 Hh1 Hl1).
  - cbn [runAccepted].
    pose proof (update_blocked data s l Hp Hc Hh Hl) as E.
    destruct (update data s) as [s1 [u|e]]; [discriminate E | reflexivity].
Qed.

(** ** The charts follow the index and the tally *)

Lemma updateAgents_sync decisions s s' :
  comparisonChart s <> None ->
  actionsChart s <> None ->
  updateAgents decisions s = (s', Ok tt) ->
  comparisonChart s'
    = Some (map fst (agentPerformance s'), map snd (agentPerformance s')) /\
  actionsChart s'
    = Some [counter "buy" s'; counter "sell" s'; counter "hold" s'].
Proof.
  intros Hc Ha H. unfold updateAgents in H.
  split_lift H agents Eagents. split_ok H u s1 Hloop. split_ok H u2 s2 Hcmp.
  assert (Fc : preserves comparisonChart (forEachM updateAgent agents))
    by (apply preserves_forEachM; intros a; frame).
  assert (Fa : preserves actionsChart (forEachM updateAgent agents))
    by (apply preserves_forEachM; intros a; frame).
  rewrite <- (Fc _ _ _ Hloop) in Hc. rewrite <- (Fa _ _ _ Hloop) in Ha.
  unfold updateComparisonChart in Hcmp.
  destruct (comparisonChart s1) as [c|]; [|now elim Hc].
  inversion Hcmp. subst s2. clear Hcmp.
  unfold updateActionsChart in H. cbn [actionsChart setComparisonChart] in H.
  destruct (actionsChart s1) as [a|]; [|now elim Ha].
  inversion H. subst s'. split; reflexivity.
Qed.

Lemma updateLLMPipeline_sync llm s s' :
  comparisonChart s <> None ->
  updateLLMPipeline llm s = (s', Ok tt) ->
  comparisonChart s'
    = Some (map fst (agentPerformance s'), map snd (agentPerformance s')) /\
  actionsChart s' = actionsChart s /\
  actionCounts s' = actionCounts s.
Proof.
  intros Hc H. unfold updateLLMPipeline in H.
  split_lift H val Eval. split_ok H u s1 Hset. apply modify_ok in Hset.
  subst s1. unfold updateComparisonChart in H.
  cbn [comparisonChart setAgentPerformance] in H.
  destruct (comparisonChart s) as [c|]; [|now elim Hc].
  inversion H. subst s'. repeat split.
Qed.

(** X6. On a page with its charts, an update that returns leaves the three
    charts that are drawn from the store in step with it: the comparison
    chart lists the names and the values of the performance index in its
    order, the actions chart shows the three counters, and the performance
    chart has one label per step of the history. *)
Theorem charts_follow_store (d : value) (s s' : State) :
  isPaused s = false ->
  comparisonChart s <> None ->
  actionsChart s <> None ->
  performanceChart s <> None ->
  update d s = (s', Ok tt) ->
  comparisonChart s'
    = Some (map fst (agentPerformance s'), map snd (agentPerformance s')) /\
  actionsChart s'
    = Some [counter "buy" s'; counter "sell" s'; counter "hold" s'] /\
  exists l, simulationHistory s' = VArr l /\
            performanceChart s' = Some (stepLabels l) /\
            List.length (stepLabels l) = List.length l.
Proof.
  intros Hp Hc Ha Hf H.
  destruct (update_ok_inv _ _ _ Hp H)
    as (s1 & s2 & s3 & s4 & s5 & _ & H1 & H2 & H3 & H4 & H5 & H6).
  set (charts := fun s => (comparisonChart s, actionsChart s,
                           performanceChart s)).
  set (drawn := fun s => (comparisonChart s, agentPerformance s,
                          actionsChart s, actionCounts s)).
  assert (F1 : preserves charts (pushHistory d)) by frame.
  assert (F2 : preserves charts
                 (updatePriceChart (field d "price") (field d "step")))
    by frame.
  assert (E2 : charts s2 = charts s)
    by (rewrite (F2 _ _ _ H2); exact (F1 _ _ _ H1)).
  unfold charts in E2. inversion E2 as [[Ec2 Ea2 Ef2]].
  rewrite <- Ec2 in Hc. rewrite <- Ea2 in Ha.
  destruct (updateAgents_sync _ _ _ Hc Ha H3) as [Hc3 Ha3].
  assert (Hc3' : comparisonChart s3 <> None) by (rewrite Hc3; discriminate).
  destruct (updateLLMPipeline_sync _ _ _ Hc3' H4) as (Hc4 & Ea4 & En4).
  assert (F5 : preserves drawn
                 (trackTraderHistory (field d "decisions") (field d "step")
                    (field d "llm"))) by frame.
  assert (F6 : preserves drawn updatePerformanceChart) by frame.
  assert (E6 : drawn s' = drawn s4)
    by (rewrite (F6 _ _ _ H6); exact (F5 _ _ _ H5)).
  unfold drawn in E6. inversion E6 as [[Ec6 Ei6 Ea6 En6]].
  split; [rewrite Ec6, Ei6; exact Hc4|].
  split; [unfold counter in *; rewrite Ea6, En6, En4, Ea4; exact Ha3|].
  assert (Hh1 : exists l, simulationHistory s1 = VArr (l ++ [d])).
  { unfold pushHistory in H1.
    destruct (simulationHistory s) as [| | | | |l|]; try discriminate H1.
    exists l. now inversion H1. }
  destruct Hh1 as [l Hh1].
  assert (G : preserves (fun s => (simulationHistory s, performanceChart s))
                (updatePriceChart (field d "price") (field d "step") ;;
                 updateAgents (field d "decisions") ;;
                 updateLLMPipeline (field d "llm") ;;
                 trackTraderHistory (field d "decisions") (field d "step")
                   (field d "llm"))) by frame.
  assert (E5 : (simulationHistory s5, performanceChart s5)
               = (simulationHistory s1, performanceChart s1)).
  { apply (G s1 s5 (Ok tt)). unfold bind. now rewrite H2, H3, H4, H5. }
  inversion E5 as [[Eh5 Ef5]].
  assert (Ef1 : performanceChart s1 = performanceChart s).
  { assert (F : preserves performanceChart (pushHistory d)) by frame.
    exact (F _ _ _ H1). }
  unfold updatePerformanceChart in H6. rewrite Ef5, Ef1, Eh5, Hh1 in H6.
  destruct (performanceChart s) as [c|]; [|now elim Hf].
  destruct (l ++ [d]) as [|x r] eqn:El; [now destruct l|].
  destruct (forEachR seriesOfStep (x :: r)); [|discriminate H6].
  inversion H6. subst s'. exists (x :: r).
  cbn [simulationHistory performanceChart setPerformanceChart].
  rewrite Eh5, Hh1. repeat split.
  unfold stepLabels. now rewrite length_map, length_seq.
Qed.

(** ** The performance index *)

Lemma updateAgent_index k agent s s' :
  k <> "__proto__" ->
  updateAgent agent s = (s', Ok tt) ->
  assoc k (agentPerformance s') =
    if named k agent then Some (field agent "value")
    else assoc k (agentPerformance s).
Proof.
  intros Hk H. unfold updateAgent in H.
  split_lift H name Ename. split_lift H u1 E1. split_lift H nameKey Ekey.
  split_lift H cash Ecash. split_lift H u2 E2.
  split_lift H pos Epos. split_lift H u3 E3.
  split_lift H action Eaction. split_lift H actionKey EactionKey.
  split_lift H val Eval. split_lift H u4 E4.
  split_ok H u5 s1 Hperf. apply modify_ok in Hperf.
  apply modify_ok in H. subst s' s1.
  assert (Ei : forall t : State,
            agentPerformance
              (if dictIn actionKey (actionCounts t)
               then setActionCounts (increment actionKey (actionCounts t)) t
               else t) = agentPerformance t)
    by (intros t; destruct (dictIn actionKey (actionCounts t)); reflexivity).
  rewrite Ei. cbn [agentPerformance setAgentPerformance].
  unfold named, keyOf. rewrite (getProp_field _ _ _ Ename), Ekey.
  rewrite (getProp_field _ _ _ Eval).
  destruct (String.eqb_spec nameKey k) as [->|Hne].
  - now apply assoc_dictSet_eq.
  - apply assoc_dictSet_ne. congruence.
Qed.

Lemma forEach_updateAgent_index k agents : forall s s',
  k <> "__proto__" ->
  forEachM updateAgent agents s = (s', Ok tt) ->
  assoc k (agentPerformance s') = latest k agents (assoc k (agentPerformance s)).
Proof.
  induction agents as [|a r IH]; intros s s' Hk H.
  - inversion H. now subst.
  - cbn [forEachM] in H. split_ok H u s1 H1. destruct u.
    rewrite (IH _ _ Hk H). unfold latest. cbn [fold_left].
    now rewrite (updateAgent_index k a s s1 Hk H1).
Qed.

Lemma latest_none k agents old :
  Forall (fun a => named k a = false) agents -> latest k agents old = old.
Proof.
  intros H. revert old. unfold latest.
  induction H as [|a r Ha Hr IH]; intros old; [reflexivity|].
  cbn [fold_left]. rewrite Ha. apply IH.
Qed.

Lemma latest_last k pre a post old :
  named k a = true ->
  Forall (fun x => named k x = false) post ->
  latest k (pre ++ a :: post) old = Some (field a "value").
Proof.
  intros Ha Hpost. unfold latest. rewrite fold_left_app. cbn [fold_left].
  rewrite Ha. now apply latest_none.
Qed.

Lemma showLLM_value llm v :
  showLLM llm = Ok v -> v = field (field llm "portfolio") "value".
Proof.
  intros H. unfold showLLM in H.
  split_res H bullish E1. split_res H u1 E2. split_res H bearish E3.
  split_res H u2 E4. split_res H general E5. split_res H u3 E6.
  split_res H proposal E7. split_res H action E8. split_res H u4 E9.
  split_res H size E10. split_res H u5 E11. split_res H rationale E12.
  split_res H u6 E13. split_res H risks E14. split_res H rs E15.
  split_res H u7 E16. split_res H decision E17. split_res H approved E18.
  split_res H final_action E19. split_res H u8 E20.
  split_res H final_size E21. split_res H u9 E22. split_res H comment E23.
  split_res H u10 E24. split_res H portfolio E25. split_res H val E26.
  split_res H u11 E27. inversion H. subst v.
  rewrite (getProp_field _ _ _ E25). now rewrite (getProp_field _ _ _ E26).
Qed.

Lemma update_index d s s' k :
  isPaused s = false ->
  k <> "__proto__" ->
  update d s = (s', Ok tt) ->
  assoc k (agentPerformance s') =
    if String.eqb k "LLM Fund"
    then Some (field (field (field d "llm") "portfolio") "value")
    else latest k (decisionsOf d) (assoc k (agentPerformance s)).
Proof.
  intros Hp Hk H.
  destruct (update_ok_inv _ _ _ Hp H)
    as (s1 & s2 & s3 & s4 & s5 & _ & H1 & H2 & H3 & H4 & H5 & H6).
  assert (F1 : preserves agentPerformance (pushHistory d)) by frame.
  assert (F2 : preserves agentPerformance
                 (updatePriceChart (field d "price") (field d "step")))
    by frame.
  assert (F5 : preserves agentPerformance
                 (trackTraderHistory (field d "decisions") (field d "step")
                    (field d "llm"))) by frame.
  assert (F6 : preserves agentPerformance updatePerformanceChart) by frame.
  rewrite (F6 _ _ _ H6), (F5 _ _ _ H5).
  assert (E3 : assoc k (agentPerformance s3)
               = latest k (decisionsOf d) (assoc k (agentPerformance s))).
  { unfold updateAgents in H3.
    split_lift H3 agents Eagents. split_ok H3 u s2' Hloop. destruct u.
    assert (Fc : preserves agentPerformance
                   (updateComparisonChart ;; updateActionsChart)) by frame.
    rewrite (Fc _ _ _ H3).
    rewrite (forEach_updateAgent_index k agents s2 s2' Hk Hloop).
    rewrite (elements_decisionsOf _ _ Eagents).
    now rewrite (F2 _ _ _ H2), (F1 _ _ _ H1). }
  unfold updateLLMPipeline in H4.
  split_lift H4 val Eval. split_ok H4 u s3' Hset. apply modify_ok in Hset.
  assert (Fc : preserves agentPerformance updateComparisonChart) by frame.
  rewrite (Fc _ _ _ H4). subst s3'.
  cbn [agentPerformance setAgentPerformance].
  rewrite (showLLM_value _ _ Eval).
  destruct (String.eqb_spec k "LLM Fund") as [->|Hne].
  - now apply assoc_dictSet_eq.
  - rewrite assoc_dictSet_ne by exact Hne. exact E3.
Qed.

(** X7. After an update that returns, the performance index holds under
    "LLM Fund" the value of the fund's portfolio, under the name of a
    trader of the payload the value of the last decision of that name, and
    under any other name what it held before: an entry is never removed by
    an update. *)
Theorem index_after_update (d : value) (s s' : State) :
  isPaused s = false ->
  update d s = (s', Ok tt) ->
  assoc "LLM Fund" (agentPerformance s')
    = Some (field (field (field d "llm") "portfolio") "value") /\
  (forall k,
     k <> "LLM Fund" -> k <> "__proto__" ->
     Forall (fun a => named k a = false) (decisionsOf d) ->
     assoc k (agentPerformance s') = assoc k (agentPerformance s)) /\
  (forall k pre a post,
     k <> "LLM Fund" -> k <> "__proto__" ->
     decisionsOf d = pre ++ a :: post ->
     named k a = true ->
     Forall (fun x => named k x = false) post ->
     assoc k (agentPerformance s') = Some (field a "value")).
Proof.
  intros Hp H. split; [|split].
  - assert (Hk : "LLM Fund" <> "__proto__") by discriminate.
    rewrite (update_index d s s' "LLM Fund" Hp Hk H).
    reflexivity.
  - intros k Hf Hk Hnone.
    rewrite (update_index d s s' k Hp Hk H).
    apply String.eqb_neq in Hf. rewrite Hf. now apply latest_none.
  - intros k pre a post Hf Hk Hds Ha Hpost.
    rewrite (update_index d s s' k Hp Hk H).
    apply String.eqb_neq in Hf. rewrite Hf, Hds. now apply latest_last.
Qed.

(** ** The price window on every run *)

Lemma maintains_lift {A} (P : State -> Prop) (r : result A) :
  maintains P (lift r).
Proof. intros s s' r' HP H. inversion H. now subst. Qed.

(** A property of the store that each function called by the update
    handler maintains is maintained by the handler. *)
Lemma update_maintains (P : State -> Prop) d :
  maintains P (pushHistory d) ->
  (forall price step, maintains P (updatePriceChart price step)) ->
  (forall decisions, maintains P (updateAgents decisions)) ->
  (forall llm, maintains P (updateLLMPipeline llm)) ->
  (forall decisions step llm,
     maintains P (trackTraderHistory decisions step llm)) ->
  maintains P updatePerformanceChart ->
  maintains P (update d).
Proof.
  intros H1 H2 H3 H4 H5 H6 s s' r HP. unfold update.
  destruct (isPaused s); [intros H; inversion H; now subst|].
  assert (M0 : forall m : M unit, maintains P m -> m s = (s', r) -> P s')
    by (intros m Hm Hr; exact (Hm _ _ _ HP Hr)).
  apply M0. clear M0 HP s s' r.
  apply maintains_bind; [apply maintains_lift | intros step _].
  apply maintains_bind; [apply maintains_lift | intros total _].
  apply maintains_bind; [apply maintains_lift | intros _ _].
  apply maintains_bind; [apply maintains_lift | intros _ _].
  apply maintains_bind; [exact H1 | intros _ _].
  apply maintains_bind; [apply maintains_lift | intros price _].
  apply maintains_bind; [apply H2 | intros _ _].
  apply maintains_bind; [apply maintains_lift | intros news _].
  apply maintains_bind; [apply maintains_lift | intros _ _].
  apply maintains_bind; [apply maintains_lift | intros decisions _].
  apply maintains_bind; [apply H3 | intros _ _].
  apply maintains_bind; [apply maintains_lift | intros llm _].
  apply maintains_bind; [apply H4 | intros _ _].
  apply maintains_bind; [apply maintains_lift | intros _ _].
  apply maintains_bind; [apply H5 | intros _ _].
  exact H6.
Qed.

Lemma run_maintains (P : State -> Prop) :
  (forall e, maintains P (handle e)) ->
  forall es s, P s -> P (run es s).
Proof.
  intros Hh. induction es as [|e r IH]; intros s HP; [exact HP|].
  cbn [run]. apply IH.
  destruct (handle e s) as [s1 res] eqn:E.
  exact (Hh e _ _ _ HP E).
Qed.

Lemma windowBounded_frame {A} (m : M A) :
  preserves priceChart m -> maintains windowBounded m.
Proof.
  intros Hm. unfold windowBounded.
  exact (maintains_preserves priceChart
           (fun c => match c with
                     | Some (labels, points) =>
                         List.length labels = List.length points /\
                         List.length labels <= 30
                     | None => True
                     end) m Hm).
Qed.

Lemma length_tl {A} (l : list A) : List.length (tl l) = List.length l - 1.
Proof. destruct l; cbn; lia. Qed.

Lemma updatePriceChart_bounded price step :
  maintains windowBounded (updatePriceChart price step).
Proof.
  intros s s' r. unfold windowBounded, updatePriceChart.
  destruct (priceChart s) as [[labels points]|] eqn:E;
    [|intros _ H; inversion H; subst; now rewrite E].
  intros [Hlen Hmax].
  destruct (isPaused s); [intros H; inversion H; subst; now rewrite E|].
  destruct (toString step) as [t|e];
    [|intros H; inversion H; subst; now rewrite E].
  destruct (30 <? List.length (labels ++ ["Step " +++ t]))%nat eqn:Eb;
    intros H; inversion H; subst; cbn [priceChart setPriceChart].
  - rewrite !length_tl, !length_app. cbn [List.length]. lia.
  - apply Nat.ltb_ge in Eb. rewrite !length_app in *. cbn [List.length] in *.
    lia.
Qed.

Lemma handle_bounded e : maintains windowBounded (handle e).
Proof.
  destruct e; cbn [handle].
  - intros s s' r _ H. unfold initCharts, modify in H. inversion H. subst.
    unfold windowBounded. cbn. lia.
  - apply windowBounded_frame. unfold startClick. frame.
  - apply windowBounded_frame. unfold pauseClick. frame.
  - apply windowBounded_frame. frame.
  - apply update_maintains.
    + apply windowBounded_frame. frame.
    + apply updatePriceChart_bounded.
    + intros decisions. apply windowBounded_frame. frame.
    + intros llm. apply windowBounded_frame. frame.
    + intros decisions step llm. apply windowBounded_frame. frame.
    + apply windowBounded_frame. frame.
  - apply windowBounded_frame. frame.
Qed.

(** X8. Whatever events the page has handled since it was loaded (clicks,
    payloads of any shape, accepted or not, one run or several), the
    price chart has as many labels as points and never more than 30 of
    them. *)
Theorem window_bounded (es : list event) :
  match priceChart (run es loaded) with
  | Some (labels, points) =>
      List.length labels = List.length points /\ List.length labels <= 30
  | None => True
  end.
Proof.
  change (windowBounded (run es loaded)).
  apply run_maintains; [exact handle_bounded | exact I].
Qed.

(** ** The filter of the history tab *)

Lemma renderStep_elsewhere term index step j :
  parseInt term = num_of_Z (Z.of_nat (S j)) ->
  index <> j ->
  renderStep "step" term index step = Ok None.
Proof.
  intros Hterm Hne. unfold renderStep.
  rewrite Hterm, numStrictEq_Z.
  destruct (Z.eqb_spec (Z.of_nat (S index)) (Z.of_nat (S j))) as [E|E];
    [lia | reflexivity].
Qed.

Lemma renderStep_there term step j :
  parseInt term = num_of_Z (Z.of_nat (S j)) ->
  renderStep "step" term j step
  = rbind (viewStep j step) (fun v => Ok (Some v)).
Proof.
  intros Hterm. unfold renderStep.
  rewrite Hterm, numStrictEq_Z, Z.eqb_refl. reflexivity.
Qed.

Lemma renderSteps_after term j :
  parseInt term = num_of_Z (Z.of_nat (S j)) ->
  forall l index, j < index ->
    renderSteps "step" term index l = ([], Ok tt).
Proof.
  intros Hterm. induction l as [|step r IH]; intros index Hlt; [reflexivity|].
  cbn [renderSteps].
  rewrite (renderStep_elsewhere term index step j Hterm) by lia.
  rewrite IH by lia. reflexivity.
Qed.

Lemma renderSteps_at term j :
  parseInt term = num_of_Z (Z.of_nat (S j)) ->
  forall l index, index <= j ->
    renderSteps "step" term index l =
    match nth_error l (j - index) with
    | None => ([], Ok tt)
    | Some step =>
        match viewStep j step with
        | Ok v => ([v], Ok tt)
        | Throw e => ([], Throw e)
        end
    end.
Proof.
  intros Hterm. induction l as [|step r IH]; intros index Hle.
  - destruct (j - index); reflexivity.
  - cbn [renderSteps].
    destruct (Nat.eq_dec index j) as [->|Hne].
    + rewrite Nat.sub_diag. cbn [nth_error].
      rewrite (renderStep_there term step j Hterm).
      destruct (viewStep j step) as [v|e]; cbn [rbind]; [|reflexivity].
      rewrite (renderSteps_after term j Hterm) by lia. reflexivity.
    + rewrite (renderStep_elsewhere term index step j Hterm Hne).
      rewrite (IH (S index)) by lia.
      replace (j - index) with (S (j - S index)) by lia. cbn [nth_error].
      destruct (nth_error r (j - S index)) as [x|]; [|reflexivity].
      destruct (viewStep j x); reflexivity.
Qed.

(** X9. With the filter "step" and a search term that starts with the
    decimal digits of a position [k >= 1] and does not go on with a digit,
    the history tab looks at the step at position [k] only: it shows that
    step when it renders, raises when it does not, and shows nothing when
    the history has no such position.  The steps at the other positions
    are not read; whether they could be rendered does not matter. *)
Theorem step_filter_reads_one_step (l : list value) (k : positive)
    (rest : string) :
  noDigitAhead rest ->
  renderHistory (VArr l) "step" (decimal (Npos k) +++ rest) =
  match nth_error l (Pos.to_nat k - 1) with
  | None => ([], Ok tt)
  | Some step =>
      match viewStep (Pos.to_nat k - 1) step with
      | Ok v => ([v], Ok tt)
      | Throw e => ([], Throw e)
      end
  end.
Proof.
  intros Hrest. unfold renderHistory.
  assert (Hterm : parseInt (decimal (Npos k) +++ rest)
                  = num_of_Z (Z.of_nat (S (Pos.to_nat k - 1)))).
  { rewrite (parseInt_decimal k rest Hrest). f_equal. lia. }
  rewrite (renderSteps_at _ _ Hterm l 0) by lia.
  now rewrite Nat.sub_0_r.
Qed.

Lemma renderStep_plain filter term index step :
  String.eqb filter "step" = false ->
  String.eqb filter "news" = false ->
  renderStep filter term index step
  = rbind (viewStep index step) (fun v => Ok (Some v)).
Proof.
  intros Hs Hn. unfold renderStep. rewrite Hs, Hn. reflexivity.
Qed.

Lemma renderSteps_stops filter term bad rest :
  String.eqb filter "step" = false ->
  String.eqb filter "news" = false ->
  forall good index,
    Forall renderable good ->
    viewStep (index + List.length good) bad = Throw TypeError ->
    renderSteps filter term index (good ++ bad :: rest)
    = (map viewOf (combine (seq index (List.length good)) good),
       Throw TypeError).
Proof.
  intros Hs Hn. induction good as [|step r IH]; intros index Hgood Hbad.
  - cbn [app renderSteps List.length seq combine map].
    rewrite (renderStep_plain _ _ _ _ Hs Hn).
    cbn [List.length] in Hbad. rewrite Nat.add_0_r in Hbad.
    now rewrite Hbad.
  - inversion Hgood as [|? ? Hstep Hr]. subst.
    cbn [app renderSteps List.length seq combine map].
    rewrite (renderStep_plain _ _ _ _ Hs Hn).
    destruct Hstep as [_ Hview]. destruct (Hview index) as [v Hv].
    rewrite Hv. cbn [rbind].
    rewrite (IH (S index) Hr)
      by (cbn [List.length] in Hbad;
          now replace (S index + List.length r)
                with (index + S (List.length r)) by lia).
    now rewrite (viewOf_ok _ _ _ Hv).
Qed.

(** X10. With the filter "all", or any filter that is neither "step" nor
    "news", the history tab renders the steps in order and stops at the
    first one whose markup cannot be written (a price that is not a
    number, decisions that are not an array): the steps before it are
    shown, that step and the steps after it are not, and the rendering
    raises.  A history that is not an array raises at once. *)
Theorem render_stops_at_failure (good rest : list value) (bad : value)
    (filter term : string) :
  String.eqb filter "step" = false ->
  String.eqb filter "news" = false ->
  Forall renderable good ->
  viewStep (List.length good) bad = Throw TypeError ->
  renderHistory (VArr (good ++ bad :: rest)) filter term
    = (map viewOf (indexed good), Throw TypeError) /\
  (forall h, isArray h = false ->
             renderHistory h filter term = ([], Throw TypeError)).
Proof.
  intros Hs Hn Hgood Hbad. split.
  - unfold renderHistory, indexed.
    now apply renderSteps_stops.
  - intros h Hh. destruct h; try discriminate Hh; reflexivity.
Qed.

(** ** The two tabs after a run of well-formed payloads *)

Lemma ensure_push_all (Q : list value -> Prop) k record :
  Q [record] ->
  (forall l, Q l -> Q (l ++ [record])) ->
  maintains (fun s => Forall (fun kv => Q (snd kv)) (traderHistory s))
    (ensureLedger k ;; pushLedger k record).
Proof.
  intros Hone Hmore s s' r Hall.
  unfold bind, ensureLedger, modify, pushLedger.
  destruct (dictGet k (traderHistory s)) as [l| |] eqn:E.
  - rewrite E. intros H. inversion H. subst. cbn [traderHistory setTraderHistory].
    apply Forall_dictSet; [assumption|].
    apply dictGet_Own in E. apply Hmore.
    exact (Forall_assoc _ _ _ _ Hall E).
  - rewrite E. intros H. inversion H. now subst.
  - apply dictGet_Absent in E. destruct E as [E Hk].
    cbn [traderHistory setTraderHistory]. unfold dictGet.
    rewrite assoc_dictSet_eq by assumption.
    intros H. inversion H. subst. cbn [traderHistory setTraderHistory].
    rewrite dictSet_twice by assumption.
    now apply Forall_dictSet.
Qed.

Lemma ensure_push_typed k record :
  typedRecord record ->
  maintains ledgersTyped (ensureLedger k ;; pushLedger k record).
Proof.
  intros Hrec. unfold ledgersTyped.
  apply (ensure_push_all (fun l => l <> [] /\ Forall typedRecord l)).
  - split; [discriminate | constructor; [exact Hrec | constructor]].
  - intros l [_ Hl]. split; [now destruct l|].
    apply Forall_app. split; [exact Hl | constructor; [exact Hrec | constructor]].
Qed.

Lemma trackTraderHistory_typed step ds l :
  maintains ledgersTyped
    (trackTraderHistory (VArr (map encodeDecision ds)) (VNum step)
       (encodeLLM l)).
Proof.
  eapply maintains_ext; [intros s; apply trackFund_encode|].
  apply maintains_bind.
  - apply maintains_forEach_Forall. rewrite Forall_map.
    apply Forall_forall. intros d _.
    eapply maintains_ext; [intros s; apply trackTrader_encode|].
    apply ensure_push_typed.
    now exists step, (dAction d), (dCash d), (dPos d), (dValue d).
  - intros _ _. apply ensure_push_typed.
    now exists step, (lFinalAction l), (lCash l), (lPos l), (lValue l).
Qed.

(** The update handler on a well-formed payload maintains what its
    functions maintain on the fields of that payload. *)
Lemma update_encoded_maintains (P : State -> Prop) p :
  maintains P (pushHistory (encodeSnapshot p)) ->
  (forall price step, maintains P (updatePriceChart price step)) ->
  maintains P (updateAgents (VArr (map encodeDecision (sDecisions p)))) ->
  maintains P (updateLLMPipeline (encodeLLM (sLLM p))) ->
  maintains P (trackTraderHistory (VArr (map encodeDecision (sDecisions p)))
                 (VNum (sStep p)) (encodeLLM (sLLM p))) ->
  maintains P updatePerformanceChart ->
  maintains P (update (encodeSnapshot p)).
Proof.
  intros H1 H2 H3 H4 H5 H6 s s' r HP. unfold update.
  destruct (isPaused s); [intros H; inversion H; now subst|].
  assert (M0 : forall m : M unit, maintains P m -> m s = (s', r) -> P s')
    by (intros m Hm Hr; exact (Hm _ _ _ HP Hr)).
  apply M0. clear M0 HP s s' r.
  apply maintains_bind; [apply maintains_lift | intros step Estep].
  apply lift_value in Estep. apply Some_eq_Ok in Estep. subst step.
  apply maintains_bind; [apply maintains_lift | intros total _].
  apply maintains_bind; [apply maintains_lift | intros _ _].
  apply maintains_bind; [apply maintains_lift | intros _ _].
  apply maintains_bind; [exact H1 | intros _ _].
  apply maintains_bind; [apply maintains_lift | intros price _].
  apply maintains_bind; [apply H2 | intros _ _].
  apply maintains_bind; [apply maintains_lift | intros news _].
  apply maintains_bind; [apply maintains_lift | intros _ _].
  apply maintains_bind; [apply maintains_lift | intros decisions Edec].
  apply lift_value in Edec. apply Some_eq_Ok in Edec. subst decisions.
  apply maintains_bind; [exact H3 | intros _ _].
  apply maintains_bind; [apply maintains_lift | intros llm Ellm].
  apply lift_value in Ellm. apply Some_eq_Ok in Ellm. subst llm.
  apply maintains_bind; [exact H4 | intros _ _].
  apply maintains_bind; [apply maintains_lift | intros _ _].
  apply maintains_bind; [exact H5 | intros _ _].
  exact H6.
Qed.

Lemma ledgersTyped_frame {A} (m : M A) :
  preserves traderHistory m -> maintains ledgersTyped m.
Proof.
  intros Hm. unfold ledgersTyped.
  exact (maintains_preserves traderHistory
           (Forall (fun kv => snd kv <> [] /\ Forall typedRecord (snd kv)))
           m Hm).
Qed.

Lemma update_typed p : maintains ledgersTyped (update (encodeSnapshot p)).
Proof.
  apply update_encoded_maintains.
  - apply ledgersTyped_frame. frame.
  - intros price step. apply ledgersTyped_frame. frame.
  - apply ledgersTyped_frame. frame.
  - apply ledgersTyped_frame. frame.
  - apply trackTraderHistory_typed.
  - apply ledgersTyped_frame. frame.
Qed.

Lemma runAccepted_typed ps : forall s s',
  ledgersTyped s ->
  runAccepted (map encodeSnapshot ps) s = Some s' -> ledgersTyped s'.
Proof.
  induction ps as [|p r IH]; intros s s' Hs H.
  - inversion H. now subst.
  - cbn [map runAccepted] in H.
    destruct (update (encodeSnapshot p) s) as [s1 [[]|e]] eqn:E; [|discriminate].
    apply (IH s1); [exact (update_typed p _ _ _ Hs E) | exact H].
Qed.

Lemma ledgerRows_typed l :
  Forall typedRecord l ->
  forall prev, exists rs,
    ledgerRows prev l = Ok rs /\ List.length rs = List.length l.
Proof.
  induction 1 as [|h r Hh Hr IH]; intros prev; [now exists []|].
  destruct Hh as (st & a & c & p & x & ->).
  destruct (IH (Some x)) as (rs & Hrs & Hlen).
  cbn [ledgerRows ledgerRecord getProp assoc String.eqb Ascii.eqb Bool.eqb
       rbind toString stringMethod toFixed].
  rewrite Hrs. cbn [rbind]. eexists. split; [reflexivity|].
  cbn [List.length]. now rewrite Hlen.
Qed.

Lemma countTrades_typed l :
  Forall typedRecord l -> exists n, countTrades l = Ok n.
Proof.
  induction 1 as [|h r Hh Hr IH]; [now exists 0|].
  destruct Hh as (st & a & c & p & x & ->). destruct IH as [n Hn].
  cbn [countTrades ledgerRecord getProp assoc String.eqb Ascii.eqb Bool.eqb
       rbind].
  rewrite Hn. cbn [rbind]. now eexists.
Qed.

Lemma viewTrader_typed name l :
  l <> [] -> Forall typedRecord l ->
  exists v, viewTrader name l = Ok v /\ trader v = name /\
            List.length (rows v) = List.length l.
Proof.
  intros Hne Hl.
  pose proof (Forall_last typedRecord l VUndef Hne Hl) as Hlast.
  destruct (countTrades_typed l Hl) as [n Hn].
  destruct (ledgerRows_typed l Hl None) as (rs & Hrs & Hlen).
  unfold viewTrader.
  destruct l as [|h r]; [now elim Hne|].
  inversion Hl as [|? ? Hh Hr]. subst.
  destruct Hh as (st & a & c & p & x & ->).
  destruct Hlast as (st' & a' & c' & p' & x' & ->).
  cbn [rbind]. unfold ledgerRecord at 1 2.
  cbn [getProp assoc String.eqb Ascii.eqb Bool.eqb rbind].
  rewrite Hn, Hrs. cbn [rbind].
  eexists. split; [reflexivity|]. split; [reflexivity | exact Hlen].
Qed.

Lemma renderTraders_typed th :
  Forall (fun kv => snd kv <> [] /\ Forall typedRecord (snd kv)) th ->
  exists vs, renderTraders th = (vs, Ok tt) /\
             map trader vs = map fst th /\
             Forall2 (fun v kv => List.length (rows v) = List.length (snd kv))
               vs th.
Proof.
  induction 1 as [|[name l] r [Hne Hl] Hr IH].
  - exists []. repeat split. constructor.
  - destruct IH as (vs & Hvs & Hnames & Hrows).
    cbn [snd] in Hne, Hl.
    destruct (viewTrader_typed name l Hne Hl) as (v & Hv & Hname & Hlen).
    exists (v :: vs). cbn [renderTraders]. rewrite Hv, Hvs.
    split; [reflexivity|]. split.
    + cbn [map fst]. now rewrite Hname, Hnames.
    + constructor; [exact Hlen | exact Hrows].
Qed.

Lemma viewBadges_encode ds :
  mapR viewBadge (map encodeDecision ds)
  = Ok (map (fun d => (dAction d, dName d)) ds).
Proof.
  induction ds as [|d r IH]; [reflexivity|].
  cbn [map mapR]. rewrite IH. reflexivity.
Qed.

Lemma renderable_encode p : renderable (encodeSnapshot p).
Proof.
  split; [now exists (sNews p)|].
  intros index. unfold viewStep, encodeSnapshot.
  cbn [getProp assoc String.eqb Ascii.eqb Bool.eqb rbind toFixed toString
       elements].
  rewrite viewBadges_encode. cbn [rbind]. now eexists.
Qed.

Lemma renderHistory_encoded ps :
  exists views,
    renderHistory (VArr (map encodeSnapshot ps)) "all" EmptyString
      = (views, Ok tt) /\
    List.length views = List.length ps.
Proof.
  unfold renderHistory.
  rewrite (renderSteps_select "all" EmptyString (fun _ => true)).
  - eexists. split; [reflexivity|].
    rewrite length_map.
    assert (Hall : forall (A : Type) (l : list A),
              List.filter (fun _ => true) l = l).
    { intros A l. induction l as [|x r IH]; [reflexivity|].
      cbn [List.filter]. now rewrite IH. }
    rewrite Hall, length_combine, length_seq, length_map. lia.
  - intros index step. apply renderStep_all.
  - rewrite Forall_map. apply Forall_forall. intros p _.
    apply renderable_encode.
Qed.

(** X11. After a run of well-formed payloads whose traders have ordinary
    names, the completion message is handled without raising, whether it
    carries no history or a history of well-formed steps: the history tab
    shows one view per step of the history that is then in the store, and
    the trader tab one view per ledger, in the order of the ledgers, with
    one row per record. *)
Theorem finished_renders (ps final : list StepSnapshot) (data : value) :
  Forall ordinaryNames ps ->
  defined data ->
  (field data "history" = VUndef /\ final = ps) \/
  field data "history" = VArr (map encodeSnapshot final) ->
  exists s s',
    runAccepted (map encodeSnapshot ps) started = Some s /\
    simulationFinished data s = (s', Ok tt) /\
    simulationHistory s' = VArr (map encodeSnapshot final) /\
    List.length (fst (renderHistory (simulationHistory s') "all" EmptyString))
      = List.length final /\
    map trader (fst (renderTraderHistory s')) = map fst (traderHistory s) /\
    Forall2 (fun v kv => List.length (rows v) = List.length (snd kv))
      (fst (renderTraderHistory s')) (traderHistory s).
Proof.
  intros Hn Hd Hh.
  destruct (wellFormed_runAccepted ps started ready_started Hn) as (s & E & _).
  assert (Hhist : simulationHistory s = VArr (map encodeSnapshot ps))
    by exact (runAccepted_history _ started s [] eq_refl eq_refl E).
  assert (Htyped : ledgersTyped s)
    by (apply (runAccepted_typed ps started s); [constructor | exact E]).
  destruct (renderTraders_typed _ Htyped) as (tviews & Ht & Hnames & Hrows).
  destruct (renderHistory_encoded final) as (views & Hviews & Hlen).
  exists s.
  rewrite (simulationFinished_defined data s Hd). cbv zeta.
  destruct Hh as [[Hu ->]|Ha]; [rewrite Hu | rewrite Ha]; cbn [truthy].
  - exists s. rewrite Hhist, Hviews. unfold renderTraderHistory.
    rewrite Ht. cbn [fst snd rbind].
    repeat split; assumption.
  - exists (setSimulationHistory (VArr (map encodeSnapshot final)) s).
    cbn [simulationHistory setSimulationHistory].
    rewrite Hviews. unfold renderTraderHistory.
    cbn [traderHistory setSimulationHistory].
    rewrite Ht. cbn [fst snd rbind].
    repeat split; assumption.
Qed.

(** ** Actions outside buy, sell and hold *)

Lemma updateAgent_counts agent s s' action k :
  field agent "action" = action ->
  toString action = Ok k ->
  updateAgent agent s = (s', Ok tt) ->
  actionCounts s' =
    if dictIn k (actionCounts s) then increment k (actionCounts s)
    else actionCounts s.
Proof.
  intros Haction Hk H. unfold updateAgent in H.
  split_lift H name Ename. split_lift H u1 E1. split_lift H nameKey Ekey.
  split_lift H cash Ecash. split_lift H u2 E2.
  split_lift H pos Epos. split_lift H u3 E3.
  split_lift H action' Eaction. split_lift H actionKey EactionKey.
  split_lift H val Eval. split_lift H u4 E4.
  split_ok H u5 s1 Hperf. apply modify_ok in Hperf.
  apply modify_ok in H. subst s' s1.
  rewrite (getProp_field _ _ _ Eaction) in Haction. subst action'.
  rewrite Hk in EactionKey. inversion EactionKey. subst actionKey.
  cbn [actionCounts setAgentPerformance].
  destruct (dictIn k (actionCounts s)); reflexivity.
Qed.

(** X12. A decision whose action is a text other than buy, sell and hold
    is not always without effect on the tally.  When no member of
    [Object.prototype] has that name (short, cover, ...), the tally is left
    exactly as it was.  When one has (constructor, toString, valueOf, ...),
    the test [action in actionCounts] passes and the increment writes [NaN]
    under that name: the tally gets a fourth entry, which stays [NaN] ever
    after, and its other entries keep their values. *)
Theorem action_outside_tally (agent : value) (s s' : State) (k : string) :
  field agent "action" = VStr k ->
  assoc k (actionCounts s) = None ->
  updateAgent agent s = (s', Ok tt) ->
  (inherited k = false -> actionCounts s' = actionCounts s) /\
  (inherited k = true -> k <> "__proto__" ->
   assoc k (actionCounts s') = Some NaN /\
   (forall c, c <> k -> assoc c (actionCounts s') = assoc c (actionCounts s)) /\
   (forall s'', updateAgent agent s' = (s'', Ok tt) ->
                assoc k (actionCounts s'') = Some NaN)).
Proof.
  intros Haction Hnone H.
  pose proof (updateAgent_counts agent s s' (VStr k) k Haction eq_refl H) as E.
  unfold dictIn, hasOwn in E. rewrite Hnone in E. cbn [orb] in E.
  split.
  - intros Hk. now rewrite Hk in E.
  - intros Hk Hproto. rewrite Hk in E.
    unfold increment, dictGet in E. rewrite Hnone, Hk in E.
    assert (Hown : assoc k (actionCounts s') = Some NaN)
      by (rewrite E; now apply assoc_dictSet_eq).
    split; [exact Hown|]. split.
    + intros c Hc. rewrite E. now apply assoc_dictSet_ne.
    + intros s'' H'.
      rewrite (updateAgent_counts agent s' s'' (VStr k) k Haction eq_refl H').
      unfold dictIn, hasOwn. rewrite Hown. cbn [orb].
      unfold increment, dictGet. rewrite Hown. cbn [numAdd].
      now apply assoc_dictSet_eq.
Qed.

(** ** The tabs of the traders *)

Lemma orderedFrom_NoDup ks : forall pre,
  orderedFrom pre ks -> NoDup ks /\ forall k, In k ks -> ~ In k pre.
Proof.
  induction ks as [|k r IH]; intros pre H.
  - split; [constructor | intros k []].
  - destruct H as (Hk & _ & Hr). destruct (IH _ Hr) as [Hnd Hdis].
    split.
    + constructor; [|exact Hnd].
      intros Hin. apply (Hdis k Hin). apply in_or_app. right. now left.
    + intros x [->|Hx]; [exact Hk|].
      intros Hpre. apply (Hdis x Hx). apply in_or_app. now left.
Qed.

Lemma enumerated_NoDup {A} (o : dict A) : enumerated o -> NoDup (map fst o).
Proof. intros H. exact (proj1 (orderedFrom_NoDup _ [] H)). Qed.

Lemma ensureLedger_enumerated k :
  maintains (fun s => enumerated (traderHistory s)) (ensureLedger k).
Proof.
  intros s s' r Hen H. unfold ensureLedger, modify in H. inversion H.
  destruct (dictGet k (traderHistory s)); try exact Hen.
  cbn [traderHistory setTraderHistory]. now apply enumerated_dictSet.
Qed.

Lemma pushLedger_enumerated k record :
  maintains (fun s => enumerated (traderHistory s)) (pushLedger k record).
Proof.
  intros s s' r Hen H. unfold pushLedger in H.
  destruct (dictGet k (traderHistory s)); inversion H; subst; try exact Hen.
  cbn [traderHistory setTraderHistory]. now apply enumerated_dictSet.
Qed.

Lemma trackTrader_enumerated step agent :
  maintains (fun s => enumerated (traderHistory s)) (trackTrader step agent).
Proof.
  unfold trackTrader.
  repeat (apply maintains_bind;
          [first [apply maintains_lift | apply ensureLedger_enumerated]
          | intros ? _]).
  apply pushLedger_enumerated.
Qed.

Lemma trackTraderHistory_enumerated decisions step llm :
  maintains (fun s => enumerated (traderHistory s))
    (trackTraderHistory decisions step llm).
Proof.
  unfold trackTraderHistory.
  apply maintains_bind; [apply maintains_lift | intros agents _].
  apply maintains_bind;
    [apply maintains_forEachM; intros a; apply trackTrader_enumerated
    | intros _ _].
  repeat (apply maintains_bind;
          [first [apply maintains_lift | apply ensureLedger_enumerated]
          | intros ? _]).
  apply pushLedger_enumerated.
Qed.

Lemma enumerated_frame {A} (m : M A) :
  preserves traderHistory m ->
  maintains (fun s => enumerated (traderHistory s)) m.
Proof.
  intros Hm.
  exact (maintains_preserves traderHistory (fun t => enumerated t) m Hm).
Qed.

Lemma handle_enumerated e :
  maintains (fun s => enumerated (traderHistory s)) (handle e).
Proof.
  destruct e; cbn [handle].
  - apply enumerated_frame. unfold initCharts. frame.
  - intros s s' r _ H. unfold startClick, bind, modify in H.
    inversion H. subst. exact I.
  - apply enumerated_frame. unfold pauseClick. frame.
  - apply enumerated_frame. frame.
  - apply update_maintains.
    + apply enumerated_frame. frame.
    + intros price step. apply enumerated_frame. frame.
    + intros decisions. apply enumerated_frame. frame.
    + intros llm. apply enumerated_frame. frame.
    + apply trackTraderHistory_enumerated.
    + apply enumerated_frame. frame.
  - apply enumerated_frame. frame.
Qed.

Lemma renderTabs_raises th : forall index,
  snd (renderTabs index th) = snd (renderTraders th).
Proof.
  induction th as [|[name history] r IH]; intros index; [reflexivity|].
  cbn [renderTabs renderTraders].
  destruct (viewTrader name history) as [v|e]; [|reflexivity].
  specialize (IH (S index)).
  destruct (renderTabs (S index) r) as [page res].
  destruct (renderTraders r) as [vs res']. exact IH.
Qed.

Lemma renderTabs_ok th : forall index,
  snd (renderTabs index th) = Ok tt ->
  let page := fst (renderTabs index th) in
  map tabTrader (pageTabs page) = map fst th /\
  map contentIdOf (pageContents page) = map contentId (map fst th) /\
  map tabActive (pageTabs page)
    = map (fun i => (i =? 0)%nat) (seq index (List.length th)) /\
  map contentActive (pageContents page)
    = map (fun i => (i =? 0)%nat) (seq index (List.length th)).
Proof.
  induction th as [|[name history] r IH]; intros index H.
  - repeat split.
  - cbn [renderTabs] in *.
    destruct (viewTrader name history) as [v|e]; [|discriminate H].
    specialize (IH (S index)).
    destruct (renderTabs (S index) r) as [page res].
    cbn [fst snd] in *. destruct (IH H) as (H1 & H2 & H3 & H4).
    cbn [pageTabs pageContents map fst List.length seq tabTrader tabActive
         contentIdOf contentActive].
    now rewrite H1, H2, H3, H4.
Qed.

Lemma filter_none_in {A} (sel : A -> bool) l :
  (forall x, In x l -> sel x = false) -> List.filter sel l = [].
Proof.
  induction l as [|x r IH]; intros H; [reflexivity|].
  cbn [List.filter]. rewrite (H x (or_introl eq_refl)).
  apply IH. intros y Hy. apply H. now right.
Qed.

Lemma filter_eqb_NoDup name names :
  NoDup names -> In name names ->
  List.filter (fun n => String.eqb n name) names = [name].
Proof.
  induction 1 as [|x r Hx Hr IH]; intros Hin; [destruct Hin|].
  cbn [List.filter]. destruct (String.eqb_spec x name) as [->|Hne].
  - f_equal. apply filter_none_in. intros y Hy.
    destruct (String.eqb_spec y name) as [->|]; [contradiction | reflexivity].
  - destruct Hin as [E|Hin]; [contradiction | now apply IH].
Qed.

Lemma filter_map_swap {A B} (f : A -> B) (p : B -> bool) l :
  List.filter p (map f l) = map f (List.filter (fun x => p (f x)) l).
Proof.
  induction l as [|x r IH]; [reflexivity|].
  cbn [map List.filter]. destruct (p (f x)); cbn [map]; now rewrite IH.
Qed.

Lemma map_filter_ext {A B} (f g : A -> B) (p : A -> bool) l :
  (forall x, p x = true -> f x = g x) ->
  map f (List.filter p l) = map g (List.filter p l).
Proof.
  intros H. induction l as [|x r IH]; [reflexivity|].
  cbn [List.filter]. destruct (p x) eqn:E; [|exact IH].
  cbn [map]. now rewrite (H x E), IH.
Qed.

Lemma switch_tabs name page :
  pageTabs (switchTraderTab name page)
  = map (fun n => mkTraderTab n (String.eqb n name))
        (map tabTrader (pageTabs page)).
Proof. unfold switchTraderTab. cbn [pageTabs]. now rewrite map_map. Qed.

Lemma switch_contents name page :
  pageContents (switchTraderTab name page)
  = map (fun i => mkTraderContent i (String.eqb i (contentId name)))
        (map contentIdOf (pageContents page)).
Proof. unfold switchTraderTab. cbn [pageContents]. now rewrite map_map. Qed.

(** X13. When the trader tab has been drawn without raising from the
    store left by any sequence of events, it has one button and one panel
    per ledger, in the order of the ledgers, the first of each active.
    After [switchTraderTab] on a name, a button is active exactly when it
    is the button of that name, so exactly one is when the name has a
    ledger; a panel is active exactly when its id is the id made from that
    name, so the panels shown are those of all the traders whose names
    give that id: names that differ only by their white space, or by a
    dash in place of white space, are shown together. *)
Theorem trader_tabs (es : list event) (name : string) :
  let s := run es loaded in
  let names := map fst (traderHistory s) in
  let page := switchTraderTab name (traderPageOf s) in
  snd (renderTabs 0 (traderHistory s)) = Ok tt ->
  snd (renderTraderHistory s) = Ok tt /\
  map tabTrader (pageTabs (traderPageOf s)) = names /\
  map contentIdOf (pageContents (traderPageOf s)) = map contentId names /\
  map tabActive (pageTabs (traderPageOf s))
    = map (fun i => (i =? 0)%nat) (seq 0 (List.length names)) /\
  map contentActive (pageContents (traderPageOf s))
    = map (fun i => (i =? 0)%nat) (seq 0 (List.length names)) /\
  (forall tab, In tab (pageTabs page) ->
     (tabActive tab = true <-> tabTrader tab = name)) /\
  (forall content, In content (pageContents page) ->
     (contentActive content = true <-> contentIdOf content = contentId name)) /\
  (In name names ->
   List.filter tabActive (pageTabs page) = [mkTraderTab name true]) /\
  List.filter contentActive (pageContents page)
    = map (fun n => mkTraderContent (contentId n) true)
        (List.filter (fun n => String.eqb (contentId n) (contentId name))
           names) /\
  contentId "LLM Fund" = "trader-LLM-Fund" /\
  contentId "LLM  Fund" = contentId "LLM Fund" /\
  contentId "LLM-Fund" = contentId "LLM Fund".
Proof.
  cbv zeta. intros Hok.
  assert (Hen : enumerated (traderHistory (run es loaded)))
    by (apply (run_maintains (fun s => enumerated (traderHistory s)));
        [exact handle_enumerated | exact I]).
  apply enumerated_NoDup in Hen.
  destruct (renderTabs_ok _ 0 Hok) as (H1 & H2 & H3 & H4).
  fold (traderPageOf (run es loaded)) in H1, H2, H3, H4.
  split; [unfold renderTraderHistory; now rewrite <- (renderTabs_raises _ 0)|].
  split; [exact H1|]. split; [exact H2|].
  split; [rewrite length_map; exact H3|].
  split; [rewrite length_map; exact H4|].
  split.
  { intros tab Hin. rewrite switch_tabs in Hin.
    apply in_map_iff in Hin. destruct Hin as (n & <- & _).
    cbn [tabActive tabTrader]. apply String.eqb_eq. }
  split.
  { intros content Hin. rewrite switch_contents in Hin.
    apply in_map_iff in Hin. destruct Hin as (i & <- & _).
    cbn [contentActive contentIdOf]. apply String.eqb_eq. }
  split.
  { intros Hin. rewrite switch_tabs, H1, filter_map_swap.
    cbn [tabActive]. rewrite (filter_eqb_NoDup name _ Hen Hin).
    cbn [map]. now rewrite String.eqb_refl. }
  split.
  { rewrite switch_contents, H2, map_map, filter_map_swap.
    cbn [contentActive]. apply map_filter_ext.
    intros n E. now rewrite E. }
  repeat split.
Qed.

(** ** The two dashboard scripts *)

Lemma respects_lift {A} (r : result A) : respects (lift r).
Proof.
  intros a b a' r' E H. inversion H. subst. now exists b.
Qed.

Lemma respects_ret {A} (x : A) : respects (ret x).
Proof.
  intros a b a' r' E H. inversion H. subst. now exists b.
Qed.

Lemma respects_modify (g : State -> State) :
  (forall a b, shared a = shared b -> shared (g a) = shared (g b)) ->
  respects (modify g).
Proof.
  intros Hg a b a' r E H. inversion H. subst. exists (g b).
  split; [reflexivity | now apply Hg].
Qed.

Lemma respects_bind {A B} (m : M A) (k : A -> M B) :
  respects m -> (forall x, respects (k x)) -> respects (bind m k).
Proof.
  intros Hm Hk a b a' r E. unfold bind.
  destruct (m a) as [a1 [x|e]] eqn:Ea; intros H.
  - destruct (Hm _ _ _ _ E Ea) as (b1 & Eb & E1). rewrite Eb.
    exact (Hk x _ _ _ _ E1 H).
  - inversion H. subst.
    destruct (Hm _ _ _ _ E Ea) as (b1 & Eb & E1). rewrite Eb.
    now exists b1.
Qed.

Lemma respects_forEachM {A} (k : A -> M unit) l :
  (forall x, respects (k x)) -> respects (forEachM k l).
Proof.
  intros Hk. induction l as [|x r IH]; cbn [forEachM].
  - apply respects_ret.
  - apply respects_bind; [apply Hk | intros _; exact IH].
Qed.

Lemma respects_updatePriceChart price step :
  respects (updatePriceChart price step).
Proof.
  intros a b a' r E. unfold shared in E.
  injection E as E1 E2 E3 E4 E5 E6.
  unfold updatePriceChart. rewrite <- E1, <- E6.
  destruct (priceChart a) as [[labels points]|] eqn:Ec;
    [|intros H; inversion H; subst; exists b; split;
      [reflexivity | unfold shared; congruence]].
  destruct (isPaused a) eqn:Ep;
    [intros H; inversion H; subst; exists b; split;
     [reflexivity | unfold shared; congruence]|].
  destruct (toString step) as [t|e];
    [|intros H; inversion H; subst; exists b; split;
      [reflexivity | unfold shared; congruence]].
  destruct (30 <? _)%nat; intros H; inversion H; subst;
    eexists; (split; [reflexivity|]); unfold shared; cbn; congruence.
Qed.

Lemma respects_updateComparisonChart : respects updateComparisonChart.
Proof.
  intros a b a' r E. unfold shared in E.
  injection E as E1 E2 E3 E4 E5 E6.
  unfold updateComparisonChart. rewrite <- E2, <- E4.
  destruct (comparisonChart a) eqn:Ec; intros H; inversion H; subst;
    eexists; (split; [reflexivity|]); unfold shared; cbn; congruence.
Qed.

Lemma respects_updateActionsChart : respects updateActionsChart.
Proof.
  intros a b a' r E. unfold shared in E.
  injection E as E1 E2 E3 E4 E5 E6.
  unfold updateActionsChart. rewrite <- E3, <- E5.
  destruct (actionsChart a) eqn:Ec; intros H; inversion H; subst;
    eexists; (split; [reflexivity|]); unfold shared; cbn; congruence.
Qed.

Lemma respects_updateAgent agent : respects (updateAgent agent).
Proof.
  unfold updateAgent.
  repeat (apply respects_bind; [apply respects_lift | intros ?]).
  apply respects_bind; [|intros _].
  - apply respects_modify. intros a b E. unfold shared in *.
    injection E as E1 E2 E3 E4 E5 E6. cbn. congruence.
  - apply respects_modify. intros a b E. unfold shared in *.
    injection E as E1 E2 E3 E4 E5 E6. rewrite <- E5.
    destruct (dictIn _ (actionCounts a)); cbn; congruence.
Qed.

Lemma respects_updateAgents decisions : respects (updateAgents decisions).
Proof.
  unfold updateAgents.
  apply respects_bind; [apply respects_lift | intros agents].
  apply respects_bind;
    [apply respects_forEachM; intros a; apply respects_updateAgent
    | intros _].
  apply respects_bind; [apply respects_updateComparisonChart | intros _].
  apply respects_updateActionsChart.
Qed.

(** The panel of the older script makes the checks of the newer one, but
    for those of the general analysis. *)
Lemma showLLM_basic llm v : showLLM llm = Ok v -> basicShowLLM llm = Ok v.
Proof.
  intros H. unfold showLLM in H.
  split_res H bullish E1. split_res H u1 E2. split_res H bearish E3.
  split_res H u2 E4. split_res H general E5. split_res H u3 E6.
  split_res H proposal E7. split_res H action E8. split_res H u4 E9.
  split_res H size E10. split_res H u5 E11. split_res H rationale E12.
  split_res H u6 E13. split_res H risks E14. split_res H rs E15.
  split_res H u7 E16. split_res H decision E17. split_res H approved E18.
  split_res H final_action E19. split_res H u8 E20.
  split_res H final_size E21. split_res H u9 E22. split_res H comment E23.
  split_res H u10 E24. split_res H portfolio E25. split_res H val E26.
  split_res H u11 E27.
  unfold basicShowLLM.
  rewrite E1; cbn [rbind]. rewrite E2; cbn [rbind].
  rewrite E3; cbn [rbind]. rewrite E4; cbn [rbind].
  rewrite E7; cbn [rbind]. rewrite E8; cbn [rbind].
  rewrite E9; cbn [rbind]. rewrite E10; cbn [rbind].
  rewrite E11; cbn [rbind]. rewrite E12; cbn [rbind].
  rewrite E13; cbn [rbind]. rewrite E14; cbn [rbind].
  rewrite E15; cbn [rbind]. rewrite E16; cbn [rbind].
  rewrite E17; cbn [rbind]. rewrite E18; cbn [rbind].
  rewrite E19; cbn [rbind]. rewrite E20; cbn [rbind].
  rewrite E21; cbn [rbind]. rewrite E22; cbn [rbind].
  rewrite E23; cbn [rbind]. rewrite E24; cbn [rbind].
  rewrite E25; cbn [rbind]. rewrite E26; cbn [rbind].
  rewrite E27; cbn [rbind]. exact H.
Qed.

Lemma updateLLMPipeline_basic llm a b a' :
  shared a = shared b ->
  updateLLMPipeline llm a = (a', Ok tt) ->
  exists b', basicUpdateLLMPipeline llm b = (b', Ok tt) /\
             shared a' = shared b'.
Proof.
  intros E H. unfold updateLLMPipeline in H.
  split_lift H val Eval. apply showLLM_basic in Eval.
  unfold basicUpdateLLMPipeline. unfold bind at 1. unfold lift.
  rewrite Eval.
  assert (R : respects
            (modify (fun s => setAgentPerformance
                       (dictSet "LLM Fund" val (agentPerformance s)) s) ;;
             updateComparisonChart)).
  { apply respects_bind; [|intros _; apply respects_updateComparisonChart].
    apply respects_modify. intros x y Exy. unfold shared in *.
    injection Exy as E1 E2 E3 E4 E5 E6.
    cbn [priceChart comparisonChart actionsChart agentPerformance
         actionCounts isPaused setAgentPerformance].
    congruence. }
  exact (R _ _ _ _ E H).
Qed.

Lemma shared_frame {A} (m : M A) a a' r :
  preserves shared m -> m a = (a', r) -> shared a' = shared a.
Proof. intros Hm H. exact (Hm _ _ _ H). Qed.

(** X14. The script with the history tabs extends the older dashboard
    script: on every payload on which its update handler returns, the
    handler of the older script returns too, and leaves the variables the
    two scripts have in common (the price window, the performance index,
    the tally, the comparison and the actions charts, the pause flag) with
    the same values. *)
Theorem scripts_agree (d : value) (s s1 : State) :
  update d s = (s1, Ok tt) ->
  exists s2, basicUpdate d s = (s2, Ok tt) /\ shared s2 = shared s1.
Proof.
  intros H. unfold basicUpdate.
  destruct (isPaused s) eqn:Hp.
  - unfold update in H. rewrite Hp in H. inversion H. subst. now exists s1.
  - unfold update in H. rewrite Hp in H.
    split_lift H step Estep. split_lift H total Etotal.
    split_lift H u1 Eshown. split_lift H u2 Eshown2.
    split_ok H u3 t1 Hpush.
    split_lift H price Eprice.
    split_ok H u4 t2 Hchart.
    split_lift H news Enews. split_lift H u5 Esent.
    split_lift H decisions Edec.
    split_ok H u6 t3 Hagents.
    split_lift H llm Ellm.
    split_ok H u7 t4 Hllm.
    split_lift H u8 Estats.
    split_ok H u9 t5 Htrack.
    destruct u1, u2, u3, u4, u6, u7, u8, u9.
    assert (E1 : shared t1 = shared s)
      by (apply (shared_frame (pushHistory d) s t1 (Ok tt)); [frame | exact Hpush]).
    destruct (respects_updatePriceChart price step _ _ _ _ E1 Hchart)
      as (b2 & Hb2 & E2).
    destruct (respects_updateAgents decisions _ _ _ _ E2 Hagents)
      as (b3 & Hb3 & E3).
    destruct (updateLLMPipeline_basic llm _ _ _ E3 Hllm) as (b4 & Hb4 & E4).
    assert (E5 : shared t5 = shared t4)
      by (apply (shared_frame (trackTraderHistory decisions step llm) t4 t5
                   (Ok tt)); [frame | exact Htrack]).
    assert (E6 : shared s1 = shared t5)
      by (apply (shared_frame updatePerformanceChart t5 s1 (Ok tt));
          [frame | exact H]).
    exists b4. split; [|congruence].
    unfold bind, lift.
    rewrite Estep, Etotal, Eshown, Eshown2, Eprice, Hb2, Enews, Esent, Edec,
      Hb3, Ellm, Hb4, Estats.
    reflexivity.
Qed.

(** ** The best and the worst performer *)

Lemma Qsign_Qred q : Qsign (Qred q) = Qsign q.
Proof.
  unfold Qsign. pose proof (Qred_correct q) as E. unfold Qeq in E.
  destruct (Z.compare_spec (Qnum q) 0) as [H|H|H];
    destruct (Z.compare_spec (Qnum (Qred q)) 0) as [H'|H'|H'];
    try reflexivity; exfalso; nia.
Qed.

Lemma staysBefore_le (x y : value * Q) :
  staysBefore x y = true <-> (snd y <= snd x)%Q.
Proof.
  unfold staysBefore. cbn [numSub numGt0]. rewrite Qsign_Qred.
  unfold Qsign, Qle. cbn [Qminus Qplus Qopp Qnum Qden].
  destruct (Z.compare_spec
              (Qnum (snd y) * Zpos (Qden (snd x))
               + - Qnum (snd x) * Zpos (Qden (snd y))) 0) as [H|H|H];
    cbn [negb]; split; intros H'; try reflexivity; try discriminate H'; nia.
Qed.

Lemma staysBefore_lt (x y : value * Q) :
  staysBefore x y = false <-> (snd x < snd y)%Q.
Proof.
  pose proof (staysBefore_le x y) as H.
  destruct (staysBefore x y); split; intros H'; try reflexivity;
    try discriminate H'.
  - exfalso. apply (Qlt_not_le _ _ H'). now apply H.
  - apply Qnot_le_lt. intros Hle. apply H in Hle. discriminate Hle.
Qed.

Lemma sortRanked_In l : forall y, In y (sortRanked l) <-> In y l.
Proof.
  assert (Hins : forall x s y, In y (insertRanked x s) <-> y = x \/ In y s).
  { intros x s y. induction s as [|z r IH]; cbn [insertRanked In].
    - intuition congruence.
    - destruct (staysBefore x z); cbn [In]; [intuition congruence|].
      rewrite IH. intuition congruence. }
  induction l as [|x r IH]; intros y; cbn [sortRanked fold_right In];
    [tauto|].
  fold (sortRanked r). rewrite Hins, IH. intuition congruence.
Qed.

(** The first of the sorted array. *)
Lemma sortRanked_first l :
  l <> [] ->
  exists b rest, sortRanked l = b :: rest /\ leads b l.
Proof.
  induction l as [|x r IH]; intros Hne; [now elim Hne|].
  cbn [sortRanked fold_right]. fold (sortRanked r).
  destruct r as [|x' r'].
  - exists x, []. split; [reflexivity|].
    exists [], []. repeat split; intros y [].
  - destruct IH as (b & rest & Hs & pre & post & Hl & Hpre & Hpost);
      [discriminate|].
    rewrite Hs. cbn [insertRanked].
    destruct (staysBefore x b) eqn:E.
    + exists x, (b :: rest). split; [reflexivity|].
      exists [], (x' :: r'). split; [reflexivity|].
      split; [intros y []|].
      intros y Hy. apply staysBefore_le in E.
      rewrite Hl in Hy. apply in_app_or in Hy.
      destruct Hy as [Hy|[<-|Hy]].
      * apply Qlt_le_weak. eapply Qlt_le_trans; [now apply Hpre | exact E].
      * exact E.
      * eapply Qle_trans; [now apply Hpost | exact E].
    + exists b, (insertRanked x rest). split; [reflexivity|].
      exists (x :: pre), post. split; [now rewrite Hl|].
      split; [|exact Hpost].
      intros y [<-|Hy]; [now apply staysBefore_lt | now apply Hpre].
Qed.

Lemma insertRanked_keeps_last x w : forall init,
  staysBefore x w = true ->
  exists init', insertRanked x (init ++ [w]) = init' ++ [w].
Proof.
  intros init Hw. induction init as [|y r IH]; cbn [app insertRanked].
  - rewrite Hw. now exists [x].
  - destruct (staysBefore x y).
    + now exists (x :: y :: r).
    + destruct IH as [init' ->]. now exists (y :: init').
Qed.

Lemma insertRanked_at_end x : forall s,
  (forall y, In y s -> staysBefore x y = false) ->
  insertRanked x s = s ++ [x].
Proof.
  induction s as [|y r IH]; intros H; [reflexivity|].
  cbn [insertRanked app]. rewrite (H y (or_introl eq_refl)).
  rewrite IH; [reflexivity|]. intros z Hz. apply H. now right.
Qed.

(** The last of the sorted array. *)
Lemma sortRanked_last l :
  l <> [] ->
  exists init w, sortRanked l = init ++ [w] /\ trails w l.
Proof.
  induction l as [|x r IH]; intros Hne; [now elim Hne|].
  cbn [sortRanked fold_right]. fold (sortRanked r).
  destruct r as [|x' r'].
  - exists [], x. split; [reflexivity|].
    exists [], []. repeat split; intros y [].
  - destruct IH as (init & w & Hs & pre & post & Hl & Hpre & Hpost);
      [discriminate|].
    destruct (staysBefore x w) eqn:E.
    + rewrite Hs.
      destruct (insertRanked_keeps_last x w init E) as [init' ->].
      exists init', w. split; [reflexivity|].
      exists (x :: pre), post. split; [now rewrite Hl|].
      split; [|exact Hpost].
      intros y [<-|Hy];
        [now apply staysBefore_le in E | now apply Hpre].
    + apply staysBefore_lt in E.
      assert (Hall : forall y, In y (x' :: r') -> (snd x < snd y)%Q).
      { intros y Hy. rewrite Hl in Hy. apply in_app_or in Hy.
        destruct Hy as [Hy|[<-|Hy]].
        - eapply Qlt_le_trans; [exact E | now apply Hpre].
        - exact E.
        - eapply Qlt_trans; [exact E | now apply Hpost]. }
      rewrite insertRanked_at_end.
      * exists (sortRanked (x' :: r')), x. split; [reflexivity|].
        exists [], (x' :: r'). split; [reflexivity|].
        split; [intros y [] | exact Hall].
      * intros y Hy. apply staysBefore_lt. apply Hall.
        now apply sortRanked_In.
Qed.

Lemma ranks_encode ds : forall qs q,
  map dValue ds = map Fin qs ->
  ranks (map encodeDecision ds ++ [fundAgent (VNum (Fin q))])
  = Some (combine (map encodeDecision ds) qs ++ [(fundAgent (VNum (Fin q)), q)]).
Proof.
  induction ds as [|d r IH]; intros qs q H.
  - destruct qs; [reflexivity | discriminate H].
  - destruct qs as [|q0 qr]; [discriminate H|].
    cbn [map] in H. injection H as Hd Hr.
    cbn [map app ranks combine]. rewrite (IH qr q Hr).
    unfold rank, encodeDecision.
    cbn [getProp assoc String.eqb Ascii.eqb Bool.eqb]. now rewrite Hd.
Qed.

Lemma standings_labelled ds : forall qs q,
  List.length qs = List.length ds ->
  map labelled (combine (map encodeDecision ds) qs
                ++ [(fundAgent (VNum (Fin q)), q)])
  = standings ds qs q.
Proof.
  unfold standings.
  induction ds as [|d r IH]; intros qs q H.
  - destruct qs; [reflexivity | discriminate H].
  - destruct qs as [|q0 qr]; [discriminate H|].
    cbn [map combine app]. f_equal. apply IH.
    cbn [List.length] in H. now injection H.
Qed.

Lemma performerText_ranked ds : forall qs q vk,
  map dValue ds = map Fin qs ->
  In vk (combine (map encodeDecision ds) qs ++ [(fundAgent (VNum (Fin q)), q)]) ->
  performerText (fst vk) = Ok (performer (labelled vk)).
Proof.
  induction ds as [|d r IH]; intros qs q vk H Hin.
  - destruct qs; [|discriminate H].
    destruct Hin as [<-|[]]. reflexivity.
  - destruct qs as [|q0 qr]; [discriminate H|].
    cbn [map] in H. injection H as Hd Hr.
    cbn [map combine app] in Hin. destruct Hin as [<-|Hin].
    + unfold performerText, performer, labelled, encodeDecision.
      cbn [fst snd getProp assoc String.eqb Ascii.eqb Bool.eqb rbind toString
           field keyOf].
      now rewrite Hd.
    + exact (IH qr q vk Hr Hin).
Qed.

Lemma leads_labelled b all :
  leads b all -> leads (labelled b) (map labelled all).
Proof.
  intros (pre & post & -> & Hpre & Hpost).
  exists (map labelled pre), (map labelled post).
  split; [now rewrite map_app|].
  split; intros x Hx; apply in_map_iff in Hx; destruct Hx as (y & <- & Hy);
    cbn [labelled snd]; [now apply Hpre | now apply Hpost].
Qed.

Lemma trails_labelled w all :
  trails w all -> trails (labelled w) (map labelled all).
Proof.
  intros (pre & post & -> & Hpre & Hpost).
  exists (map labelled pre), (map labelled post).
  split; [now rewrite map_app|].
  split; intros x Hx; apply in_map_iff in Hx; destruct Hx as (y & <- & Hy);
    cbn [labelled snd]; [now apply Hpre | now apply Hpost].
Qed.

Lemma leads_In {A} (b : A * Q) all : leads b all -> In b all.
Proof.
  intros (pre & post & -> & _). apply in_or_app. right. now left.
Qed.

Lemma trails_In {A} (w : A * Q) all : trails w all -> In w all.
Proof.
  intros (pre & post & -> & _). apply in_or_app. right. now left.
Qed.

Lemma portfolio_encode l :
  rbind (getProp (encodeLLM l) "portfolio")
        (fun portfolio => getProp portfolio "value")
  = Ok (VNum (lValue l)).
Proof.
  destruct l as [b1 b2 [[stance txt]|] pa ps pr rs ap fa fs cm c p v];
    reflexivity.
Qed.

(** X15. On a well-formed payload whose values are finite numbers, the
    best performer shown is the first, in the order of the payload with
    the fund last, of the agents with the largest value, and the worst
    performer shown is the last of those with the smallest value: the
    fund is shown as the best only when its value is larger than all the
    others, and as the worst as soon as no value is smaller than its
    own.  Each is shown as its name followed by its value in brackets,
    and the price with two decimals. *)
Theorem best_and_worst (ds : list AgentDecision) (qs : list Q)
    (l : LLMSnapshot) (q : Q) (price : number) :
  map dValue ds = map Fin qs ->
  lValue l = Fin q ->
  exists best worst,
    leads best (standings ds qs q) /\
    trails worst (standings ds qs q) /\
    portfolioTexts (VArr (map encodeDecision ds)) (encodeLLM l) (VNum price)
      = Ok (Some (performer best, performer worst, "$" +++ toFixed2 price)).
Proof.
  intros Hqs Hq.
  assert (Hlen : List.length qs = List.length ds).
  { apply (f_equal (@List.length number)) in Hqs.
    now rewrite !length_map in Hqs. }
  set (ranked := combine (map encodeDecision ds) qs
                 ++ [(fundAgent (VNum (Fin q)), q)]).
  assert (Hne : ranked <> [])
    by (unfold ranked; destruct (combine _ qs); discriminate).
  destruct (sortRanked_first ranked Hne) as (b & rest & Hb & Hleads).
  destruct (sortRanked_last ranked Hne) as (init & w & Hw & Htrails).
  exists (labelled b), (labelled w).
  rewrite <- (standings_labelled ds qs q Hlen). fold ranked.
  split; [now apply leads_labelled|]. split; [now apply trails_labelled|].
  unfold portfolioTexts. cbn [elements rbind].
  pose proof (portfolio_encode l) as Hp.
  destruct (getProp (encodeLLM l) "portfolio") as [portfolio|e];
    [|discriminate Hp].
  cbn [rbind] in Hp |- *. rewrite Hp. cbn [rbind]. rewrite Hq.
  rewrite (ranks_encode ds qs q Hqs). fold ranked. cbv zeta.
  assert (Hhd : hd VUndef (map fst (sortRanked ranked)) = fst b)
    by now rewrite Hb.
  assert (Hlast : last (map fst (sortRanked ranked)) VUndef = fst w)
    by (rewrite Hw, map_app; cbn [map]; apply last_last).
  rewrite Hhd, Hlast.
  rewrite (performerText_ranked ds qs q b Hqs (leads_In _ _ Hleads)).
  rewrite (performerText_ranked ds qs q w Hqs (trails_In _ _ Htrails)).
  reflexivity.
Qed.

(** ** The series of the performance chart *)

Lemma addTrader_In traders name x :
  In x (addTrader traders name) <-> In x traders \/ x = name.
Proof.
  unfold addTrader.
  destruct (existsb (String.eqb name) traders) eqn:E.
  - split; [now left|]. intros [H| ->]; [exact H|].
    apply existsb_exists in E. destruct E as (y & Hy & Ey).
    apply String.eqb_eq in Ey. now subst.
  - rewrite in_app_iff. cbn [In]. intuition congruence.
Qed.

Lemma addTrader_NoDup traders name :
  NoDup traders -> NoDup (addTrader traders name).
Proof.
  intros H. unfold addTrader.
  destruct (existsb (String.eqb name) traders) eqn:E; [exact H|].
  assert (Hn : ~ In name traders).
  { intros Hin.
    assert (Ht : existsb (String.eqb name) traders = true)
      by (apply existsb_exists; exists name; split;
          [exact Hin | apply String.eqb_refl]).
    rewrite Ht in E. discriminate E. }
  clear E. induction H as [|y r Hy Hr IH]; cbn [app].
  - constructor; [intros [] | constructor].
  - constructor.
    + rewrite in_app_iff. cbn [In]. intros [Hin|[->|[]]]; [contradiction|].
      apply Hn. now left.
    + apply IH. intros Hin. apply Hn. now right.
Qed.

Lemma addTraders_spec names : forall traders,
  NoDup traders ->
  NoDup (fold_left addTrader names traders) /\
  forall x, In x (fold_left addTrader names traders)
            <-> In x traders \/ In x names.
Proof.
  induction names as [|n r IH]; intros traders H; cbn [fold_left].
  - split; [exact H|]. intros x. cbn [In]. tauto.
  - destruct (IH (addTrader traders n) (addTrader_NoDup _ _ H)) as [Hnd Hin].
    split; [exact Hnd|]. intros x. rewrite Hin, addTrader_In. cbn [In].
    intuition congruence.
Qed.

Lemma tradersOf_spec namesOfSteps : forall traders,
  NoDup traders ->
  let all := fold_left (fun traders names => fold_left addTrader names traders)
               namesOfSteps traders in
  NoDup all /\
  forall x, In x all
            <-> In x traders \/ exists names, In names namesOfSteps /\ In x names.
Proof.
  induction namesOfSteps as [|names r IH]; intros traders H; cbn [fold_left].
  - split; [exact H|]. intros x. split; [now left|].
    intros [Hx|(names & [] & _)]. exact Hx.
  - destruct (addTraders_spec names traders H) as [Hnd Hin].
    destruct (IH _ Hnd) as [Hnd' Hin']. split; [exact Hnd'|].
    intros x. rewrite Hin', Hin. split.
    + intros [[Hx|Hx]|(ns & Hns & Hx)].
      * now left.
      * right. exists names. split; [now left | exact Hx].
      * right. exists ns. split; [now right | exact Hx].
    + intros [Hx|(ns & [<-|Hns] & Hx)].
      * left. now left.
      * left. now right.
      * right. now exists ns.
Qed.

Lemma textNames_encode ds :
  mapO textName (map encodeDecision ds) = Some (map dName ds).
Proof.
  induction ds as [|d r IH]; [reflexivity|].
  cbn [map mapO]. now rewrite IH.
Qed.

Lemma namesOfSteps_encode ps :
  mapO (fun step => mapO textName (decisionsOf step)) (map encodeSnapshot ps)
  = Some (map namesOf ps).
Proof.
  induction ps as [|p r IH]; [reflexivity|].
  cbn [map mapO]. rewrite IH.
  change (decisionsOf (encodeSnapshot p))
    with (map encodeDecision (sDecisions p)).
  now rewrite textNames_encode.
Qed.

Lemma find_encode n ds :
  find (fun d => isStr (field d "name") n) (map encodeDecision ds)
  = option_map encodeDecision (find (fun d => String.eqb (dName d) n) ds).
Proof.
  induction ds as [|d r IH]; [reflexivity|].
  cbn [map find]. change (isStr (field (encodeDecision d) "name") n)
    with (String.eqb (dName d) n).
  destruct (String.eqb (dName d) n); [reflexivity | exact IH].
Qed.

Lemma pointOf_encode n p : pointOf n (encodeSnapshot p) = pointAt n p.
Proof.
  unfold pointOf, pointAt.
  change (decisionsOf (encodeSnapshot p))
    with (map encodeDecision (sDecisions p)).
  rewrite find_encode.
  destruct (find (fun d => String.eqb (dName d) n) (sDecisions p));
    reflexivity.
Qed.

Lemma fundPointOf_encode p :
  fundPointOf (encodeSnapshot p) = VNum (lValue (sLLM p)).
Proof.
  unfold fundPointOf.
  change (field (encodeSnapshot p) "llm") with (encodeLLM (sLLM p)).
  destruct (sLLM p) as [b1 b2 [[stance txt]|] pa ps pr rs ap fa fs cm c pp v];
    reflexivity.
Qed.

Lemma drawable_encoded ps :
  Forall ordinaryNames ps ->
  forEachR seriesOfStep (map encodeSnapshot ps) = Ok tt.
Proof.
  induction 1 as [|p r Hp Hr IH]; [reflexivity|].
  cbn [map forEachR]. rewrite (seriesOfStep_encode p Hp). exact IH.
Qed.

(** X16. From a history of well-formed steps whose traders have ordinary
    names, the performance chart gets one dataset per trader and then the
    dataset of the fund.  Every trader of every step has its dataset, no
    name has two, and the names come in the order in which they were first
    met; every dataset has one point per step: for a trader the value of
    its first decision in that step, [null] when it has none, and for the
    fund the value of its portfolio at that step. *)
Theorem performance_series (ps : list StepSnapshot) :
  Forall ordinaryNames ps ->
  let traders := tradersOf (map namesOf ps) in
  performanceDatasets (map encodeSnapshot ps)
    = Ok (Some (map (fun n => (n, map (pointAt n) ps)) traders
                ++ [("LLM Fund", map (fun p => VNum (lValue (sLLM p))) ps)])) /\
  NoDup traders /\
  (forall n, In n traders <->
             exists p d, In p ps /\ In d (sDecisions p) /\ dName d = n) /\
  (forall names, tradersOf (map namesOf ps ++ [names])
                 = fold_left addTrader names traders).
Proof.
  intros Hn. cbv zeta.
  destruct (tradersOf_spec (map namesOf ps) [] (NoDup_nil _)) as [Hnd Hin].
  cbv zeta in Hnd, Hin. fold (tradersOf (map namesOf ps)) in Hnd, Hin.
  split; [|split; [exact Hnd | split]].
  - unfold performanceDatasets.
    rewrite (drawable_encoded ps Hn). cbn [rbind].
    rewrite namesOfSteps_encode. do 3 f_equal.
    + apply map_ext. intros n. f_equal. rewrite map_map.
      apply map_ext. intros p. apply pointOf_encode.
    + do 2 f_equal. rewrite map_map. apply map_ext. intros p.
      apply fundPointOf_encode.
  - intros n. rewrite Hin. split.
    + intros [[]|(names & Hnames & Hx)].
      apply in_map_iff in Hnames. destruct Hnames as (p & <- & Hp).
      unfold namesOf in Hx. apply in_map_iff in Hx.
      destruct Hx as (d & Hd & Hin'). now exists p, d.
    + intros (p & d & Hp & Hd & <-). right. exists (namesOf p).
      split; [now apply in_map | unfold namesOf; now apply in_map].
  - intros names. unfold tradersOf. now rewrite fold_left_app.
Qed.

End Platform.

(** * The theorems on sample runs *)

Lemma update_paused_noop_witness :
  update integerToString payload2 (pausedAfterOne integerToString) = ((pausedAfterOne integerToString), Ok tt) /\
  basicUpdate integerToString payload2 (pausedAfterOne integerToString) = ((pausedAfterOne integerToString), Ok tt) /\
  forall es, run integerToString (UpdateEvent payload2 :: es) (pausedAfterOne integerToString)
             = run integerToString es (pausedAfterOne integerToString).
Proof.
  apply (update_paused_noop integerToString (pausedAfterOne integerToString) payload2).
  reflexivity.
Defined.




Lemma fiveSteps_renderable : Forall (renderable integerToString) fiveSteps.
Proof.
  repeat constructor; try (eexists; reflexivity);
    intros index; eexists; reflexivity.
Defined.






Lemma export_round_trip_witness :
  readsBack integerToString (afterTwo integerToString) /\
  (exists s,
     runAccepted integerToString (map encodeSnapshot twoSnapshots)
       (started integerToString) = Some s /\
     simulationHistory s = VArr (map encodeSnapshot twoSnapshots) /\
     (forall k, ledgerOf k s
                = flat_map (entriesFor integerToString k)
                    (map encodeSnapshot twoSnapshots)) /\
     readsBack integerToString s) /\
  (exists t, exportTraderData integerToString
               (afterWithoutCash integerToString) = Some t /\
             jsonParse t
             = Some (written (ledgersValue
                                (traderHistory
                                   (afterWithoutCash integerToString))))).
Proof.
  destruct (export_round_trip integerToString) as (Hw & _ & Hs & Hps & _).
  split; [|split].
  - apply (Hs (afterTwo integerToString)).
    + vm_compute. repeat split.
    + vm_compute. repeat split.
  - apply (Hps twoSnapshots).
    + repeat constructor.
    + repeat constructor; vm_compute; repeat split.
  - apply (Hw (afterWithoutCash integerToString)).
    + vm_compute. repeat split.
    + vm_compute. repeat split.
Defined.

(** C9, the claim at the ledgers a session has accumulated from one
    payload, accepted, one of whose traders reports no cash: the record of
    that trader has five fields in memory, its cash being [undefined]; the
    export writes four, and what is read back is another record. *)
Lemma export_leaves_out_undefined :
  runAccepted integerToString [payloadWithoutCash] (started integerToString)
    = Some (afterWithoutCash integerToString) /\
  ledgerOf "Holder" (afterWithoutCash integerToString)
    = [ledgerRecord (sampleNumber 1) (VStr "hold") VUndef (sampleNumber 0)
         (sampleNumber 1000)] /\
  option_map (fun v => field v "Holder")
    (reread (exportTraderData integerToString
               (afterWithoutCash integerToString)))
    = Some (VArr [VObj [("step", sampleNumber 1); ("action", VStr "hold");
                        ("position", sampleNumber 0);
                        ("value", sampleNumber 1000)]]) /\
  reread (exportTraderData integerToString (afterWithoutCash integerToString))
    <> Some (ledgersValue (traderHistory (afterWithoutCash integerToString))).
Proof.
  repeat apply conj; vm_compute; first [reflexivity | discriminate].
Qed.

(** ** The further properties on sample runs *)


Lemma pause_drops_updates_witness :
  run integerToString
    (PauseClick :: map UpdateEvent [payload1; payload2]
       ++ PauseClick :: [UpdateEvent payload2])
    (started integerToString)
  = run integerToString [UpdateEvent payload2] (started integerToString).
Proof.
  apply (pause_drops_updates integerToString (started integerToString)
           [payload1; payload2] [UpdateEvent payload2]).
  vm_compute. reflexivity.
Defined.

Lemma update_needs_array_history_witness :
  fst (update integerToString payload1 (finishedWithText integerToString))
    = finishedWithText integerToString /\
  (isPaused (finishedWithText integerToString) = false ->
   snd (update integerToString payload1 (finishedWithText integerToString))
     = Throw TypeError) /\
  forall ds, run integerToString (map UpdateEvent ds)
               (finishedWithText integerToString)
             = finishedWithText integerToString.
Proof.
  apply (update_needs_array_history integerToString
           (finishedWithText integerToString) payload1).
  vm_compute. reflexivity.
Defined.

Lemma undrawable_step_blocks_witness :
  accepts integerToString
    (run integerToString (map UpdateEvent [payload2])
       (afterConstructor integerToString)) payload1 = false /\
  runAccepted integerToString (payload1 :: [payload2])
    (afterConstructor integerToString) = None.
Proof.
  apply (undrawable_step_blocks integerToString
           (afterConstructor integerToString) [payloadOfConstructor]
           [sampleDecision "constructor" "hold" 1000 0 1000]
           payloadOfConstructor
           (sampleDecision "constructor" "hold" 1000 0 1000)
           "constructor" [payload2] payload1).
  - vm_compute. reflexivity.
  - vm_compute. discriminate.
  - vm_compute. reflexivity.
  - simpl. left. reflexivity.
  - vm_compute. reflexivity.
  - simpl. left. reflexivity.
  - vm_compute. reflexivity.
  - vm_compute. reflexivity.
Defined.

Lemma charts_follow_store_witness :
  comparisonChart (afterOne integerToString)
    = Some (map fst (agentPerformance (afterOne integerToString)),
            map snd (agentPerformance (afterOne integerToString))) /\
  actionsChart (afterOne integerToString)
    = Some [counter "buy" (afterOne integerToString);
            counter "sell" (afterOne integerToString);
            counter "hold" (afterOne integerToString)] /\
  exists l, simulationHistory (afterOne integerToString) = VArr l /\
            performanceChart (afterOne integerToString) = Some (stepLabels l) /\
            List.length (stepLabels l) = List.length l.
Proof.
  apply (charts_follow_store integerToString payload1
           (started integerToString) (afterOne integerToString)).
  - vm_compute. reflexivity.
  - vm_compute. discriminate.
  - vm_compute. discriminate.
  - vm_compute. discriminate.
  - vm_compute. reflexivity.
Defined.

Lemma index_after_update_witness :
  assoc "LLM Fund" (agentPerformance (afterOne integerToString))
    = Some (field (field (field payload1 "llm") "portfolio") "value") /\
  (forall k,
     k <> "LLM Fund" -> k <> "__proto__" ->
     Forall (fun a => named integerToString k a = false)
       (decisionsOf payload1) ->
     assoc k (agentPerformance (afterOne integerToString))
       = assoc k (agentPerformance (started integerToString))) /\
  (forall k pre a post,
     k <> "LLM Fund" -> k <> "__proto__" ->
     decisionsOf payload1 = pre ++ a :: post ->
     named integerToString k a = true ->
     Forall (fun x => named integerToString k x = false) post ->
     assoc k (agentPerformance (afterOne integerToString))
       = Some (field a "value")).
Proof.
  apply (index_after_update integerToString payload1
           (started integerToString) (afterOne integerToString)).
  - vm_compute. reflexivity.
  - vm_compute. reflexivity.
Defined.

Lemma step_filter_reads_one_step_witness :
  renderHistory integerToString
    (VArr (fiveSteps ++ [stepWithTextPrice])) "step"
    (decimal 3 +++ " of 6")
  = ([mkStepView 3 "99.00" "Prices crash" [("sell", "Random")]], Ok tt).
Proof.
  apply (step_filter_reads_one_step integerToString
           (fiveSteps ++ [stepWithTextPrice]) 3 " of 6").
  vm_compute. reflexivity.
Defined.

Lemma render_stops_at_failure_witness :
  renderHistory integerToString
    (VArr (fiveSteps ++ stepWithTextPrice :: fiveSteps)) "all" EmptyString
    = (map (viewOf integerToString) (indexed fiveSteps), Throw TypeError) /\
  (forall h, isArray h = false ->
             renderHistory integerToString h "all" EmptyString
             = ([], Throw TypeError)).
Proof.
  apply (render_stops_at_failure integerToString fiveSteps fiveSteps
           stepWithTextPrice "all" EmptyString).
  - reflexivity.
  - reflexivity.
  - exact fiveSteps_renderable.
  - vm_compute. reflexivity.
Defined.

Lemma finished_renders_witness :
  exists s s',
    runAccepted integerToString (map encodeSnapshot twoSnapshots)
      (started integerToString) = Some s /\
    simulationFinished integerToString
      (VObj [("message", VStr "Simulation complete")]) s = (s', Ok tt) /\
    simulationHistory s' = VArr (map encodeSnapshot twoSnapshots) /\
    List.length
      (fst (renderHistory integerToString (simulationHistory s') "all"
              EmptyString))
      = List.length twoSnapshots /\
    map trader (fst (renderTraderHistory integerToString s'))
      = map fst (traderHistory s) /\
    Forall2 (fun v kv => List.length (rows v) = List.length (snd kv))
      (fst (renderTraderHistory integerToString s')) (traderHistory s).
Proof.
  apply (finished_renders integerToString twoSnapshots twoSnapshots
           (VObj [("message", VStr "Simulation complete")])).
  - repeat constructor.
  - exact I.
  - left. split; reflexivity.
Defined.

Lemma action_outside_tally_witness :
  (inherited "valueOf" = false ->
   actionCounts
     (fst (updateAgent integerToString
             (sampleDecision "Trend" "valueOf" 1000 0 1000)
             (started integerToString)))
   = actionCounts (started integerToString)) /\
  (inherited "valueOf" = true -> "valueOf" <> "__proto__" ->
   assoc "valueOf"
     (actionCounts
        (fst (updateAgent integerToString
                (sampleDecision "Trend" "valueOf" 1000 0 1000)
                (started integerToString))))
   = Some NaN /\
   (forall c, c <> "valueOf" ->
      assoc c
        (actionCounts
           (fst (updateAgent integerToString
                   (sampleDecision "Trend" "valueOf" 1000 0 1000)
                   (started integerToString))))
      = assoc c (actionCounts (started integerToString))) /\
   (forall s'',
      updateAgent integerToString
        (sampleDecision "Trend" "valueOf" 1000 0 1000)
        (fst (updateAgent integerToString
                (sampleDecision "Trend" "valueOf" 1000 0 1000)
                (started integerToString)))
      = (s'', Ok tt) ->
      assoc "valueOf" (actionCounts s'') = Some NaN)).
Proof.
  apply (action_outside_tally integerToString
           (sampleDecision "Trend" "valueOf" 1000 0 1000)
           (started integerToString)
           (fst (updateAgent integerToString
                   (sampleDecision "Trend" "valueOf" 1000 0 1000)
                   (started integerToString)))
           "valueOf").
  - reflexivity.
  - vm_compute. reflexivity.
  - vm_compute. reflexivity.
Defined.

Lemma trader_tabs_witness :
  List.filter tabActive
    (pageTabs (switchTraderTab "LLM Fund"
                 (traderPageOf integerToString (afterTwoEvents integerToString))))
  = [mkTraderTab "LLM Fund" true].
Proof.
  destruct (trader_tabs integerToString
              [DOMContentLoaded; StartClick; UpdateEvent payload1;
               UpdateEvent payload2] "LLM Fund")
    as (_ & _ & _ & _ & _ & _ & _ & H & _).
  - vm_compute. reflexivity.
  - apply H. vm_compute. right. right. right. left. reflexivity.
Defined.

Lemma scripts_agree_witness :
  exists s2,
    basicUpdate integerToString payload1 (started integerToString)
      = (s2, Ok tt) /\
    shared s2 = shared (afterOne integerToString).
Proof.
  apply (scripts_agree integerToString payload1 (started integerToString)
           (afterOne integerToString)).
  vm_compute. reflexivity.
Defined.

Lemma best_and_worst_witness :
  exists best worst,
    leads best
      (standings [decisionRecord "Random" "buy" 900 1 1010;
                  decisionRecord "Trend" "sell" 1000 0 990]
         [inject_Z 1010; inject_Z 990] (inject_Z 1000)) /\
    trails worst
      (standings [decisionRecord "Random" "buy" 900 1 1010;
                  decisionRecord "Trend" "sell" 1000 0 990]
         [inject_Z 1010; inject_Z 990] (inject_Z 1000)) /\
    portfolioTexts integerToString
      (VArr (map encodeDecision
               [decisionRecord "Random" "buy" 900 1 1010;
                decisionRecord "Trend" "sell" 1000 0 990]))
      (encodeLLM (llmRecord "buy" 1000)) (VNum (num_of_Z 101))
    = Ok (Some (performer integerToString best,
                performer integerToString worst,
                "$" +++ toFixed2 integerToString (num_of_Z 101))).
Proof.
  apply (best_and_worst integerToString
           [decisionRecord "Random" "buy" 900 1 1010;
            decisionRecord "Trend" "sell" 1000 0 990]
           [inject_Z 1010; inject_Z 990] (llmRecord "buy" 1000)
           (inject_Z 1000) (num_of_Z 101)).
  - reflexivity.
  - reflexivity.
Defined.

Lemma performance_series_witness :
  performanceDatasets integerToString (map encodeSnapshot twoSnapshots)
    = Ok (Some (map (fun n => (n, map (pointAt n) twoSnapshots))
                  (tradersOf (map namesOf twoSnapshots))
                ++ [("LLM Fund",
                     map (fun p => VNum (lValue (sLLM p))) twoSnapshots)])) /\
  NoDup (tradersOf (map namesOf twoSnapshots)) /\
  (forall n, In n (tradersOf (map namesOf twoSnapshots)) <->
             exists p d, In p twoSnapshots /\ In d (sDecisions p) /\
                         dName d = n) /\
  (forall names, tradersOf (map namesOf twoSnapshots ++ [names])
                 = fold_left addTrader names
                     (tradersOf (map namesOf twoSnapshots))).
Proof.
  apply (performance_series integerToString twoSnapshots).
  repeat constructor.
Defined.
